(** * moveit_jog_arm: the jogging calculation core (jog_calcs.cpp)

    A shallow embedding of [JogCalcs] and the properties of its control
    flow.  A C++ [double] is a binary64 primitive float, an Eigen vector a
    list of floats, an Eigen matrix a list of rows; [std::vector] is a list
    read with [!!] and written with [<[i:=x]>], where an index outside the
    vector is undefined behaviour and ends the run ([None]).  The member
    functions live in a state-and-failure monad over the [World]: the
    object's members, the shared variables, the console, the warning topic,
    the clock and the contents of uninitialised storage. *)

From Stdlib Require Import PrimFloat Uint63 ZArith Lia.
From Stdlib Require SpecFloat FloatOps FloatAxioms.
From stdpp Require Import base option list strings gmap.

Local Open Scope Z_scope.

(** ** Scalars *)

Abbreviation double := float.

(** The literal [0.1] rounded to binary64. *)
Definition one_tenth : double := 0x1.999999999999ap-4%float.

(** C++ [x > y] and [x >= y]; false when either side is NaN. *)
Definition gtb (x y : double) : bool := (y <? x)%float.
Definition geb (x y : double) : bool := (y <=? x)%float.

(** [std::isnan] and [fabs]. *)
Definition isnan (x : double) : bool := PrimFloat.is_nan x.
Definition fabs (x : double) : double := PrimFloat.abs x.

(** ** Eigen values *)

Abbreviation VectorXd := (list float).
Abbreviation MatrixXd := (list (list float)).

Definition rows (m : MatrixXd) : nat := length m.
Definition cols (m : MatrixXd) : nat := length (default [] (head m)).

(** [m.col(j)]; a column index outside the matrix is out of range. *)
Definition col (j : nat) (m : MatrixXd) : option VectorXd :=
  match m with
  | [] => None
  | _ => mapM (λ r : list double, r !! j) m
  end.

Fixpoint transpose_cols (n : nat) (m : MatrixXd) : MatrixXd :=
  match n with
  | O => []
  | S k => transpose_cols k m ++ [omap (λ r : list double, r !! k) m]
  end.

(** [m.transpose()] *)
Definition transpose (m : MatrixXd) : MatrixXd := transpose_cols (cols m) m.

(** [v.asDiagonal()] as a dense matrix. *)
Definition asDiagonal (v : VectorXd) : MatrixXd :=
  imap (λ i x, <[i:=x]> (replicate (length v) 0%float)) v.

(** Coefficient-wise [s * v], [v / s] and [a + b] (sizes must agree). *)
Definition scalar_times (s : double) (v : VectorXd) : VectorXd :=
  (λ x, s * x)%float <$> v.
Definition divided_by (v : VectorXd) (s : double) : VectorXd :=
  (λ x, x / s)%float <$> v.
Definition vec_plus (a b : VectorXd) : option VectorXd :=
  if decide (length a = length b) then Some (zip_with PrimFloat.add a b) else None.

(** The result of a [JacobiSVD] decomposition. *)
Record SVD := {
  singularValues : VectorXd;
  matrixU : MatrixXd;
  matrixV : MatrixXd
}.

(** [Eigen::Isometry3d]: a rotation and a translation. *)
Record Isometry3d := {
  linear : MatrixXd;
  translation : VectorXd
}.

(** The Eigen routines whose rounding and summation order the library does
    not fix are an interface: the Jacobi SVD (with or without the thin U and
    V requested), the matrix products, the dot product, the matrix inverse
    and the isometry operations. *)
Class EigenOps := {
  JacobiSVD : bool → MatrixXd → SVD;
  mat_mul : MatrixXd → MatrixXd → MatrixXd;
  mat_vec : MatrixXd → VectorXd → VectorXd;
  vec_dot : VectorXd → VectorXd → double;
  inverse : MatrixXd → MatrixXd;
  iso_inverse : Isometry3d → Isometry3d;
  iso_mul : Isometry3d → Isometry3d → Isometry3d
}.

(** ** Messages *)

Record Header := { frame_id : string; stamp : Z }.

Record Vector3 := { x : double; y : double; z : double }.
Record Twist := { linear_ : Vector3; angular : Vector3 }.
Record TwistStamped := { ts_header : Header; twist : Twist }.

Record JointJog := {
  jj_header : Header;
  jj_joint_names : list string;
  jj_velocities : list double
}.

Record JointState := {
  name : list string;
  position : list double;
  velocity : list double;
  effort : list double
}.

(** [ros::Duration]: whole seconds and nanoseconds, two [int32]. *)
Record Duration := { sec : Z; nsec : Z }.

(** [ros::Duration(double)] is roscpp's, not part of these sources: the
    conversion from seconds is an interface.  It yields no duration where
    the constructor throws (a value outside the range of the seconds) and
    where the conversion is undefined. *)
Class RosTime := {
  fromSec : double → option Duration
}.

Record JointTrajectoryPoint := {
  positions : list double;
  velocities : list double;
  accelerations : list double;
  time_from_start : Duration
}.

Record JointTrajectory := {
  jt_header : Header;
  joint_names : list string;
  points : list JointTrajectoryPoint
}.

(** ** Parameters and shared variables (jog_arm_data.h) *)

(** Modelled from the spec: the [JogArmParameters] struct is declared in
    jog_arm_data.h, outside these sources; its fields are the parameters
    the calculations read. *)
Record JogArmParameters := {
  move_group_name : string;
  joint_topic : string;
  warning_topic : string;
  planning_frame : string;
  robot_link_command_frame : string;
  command_in_type : string;
  publish_period : double;
  low_pass_filter_coeff : double;
  linear_scale : double;
  rotational_scale : double;
  joint_scale : double;
  lower_singularity_threshold : double;
  hard_stop_singularity_threshold : double;
  joint_limit_margin : double;
  num_outgoing_halt_msgs_to_publish : Z;
  publish_joint_positions : bool;
  publish_joint_velocities : bool;
  publish_joint_accelerations : bool;
  use_gazebo : bool
}.

(** Modelled from the spec: the [JogArmShared] struct (jog_arm_data.h) that
    the threads exchange under the mutex; [drift_dimensions] is its array
    of six flags. *)
Record JogArmShared := {
  command_deltas : TwistStamped;
  joint_command_deltas : JointJog;
  joints : JointState;
  collision_velocity_scale : double;
  drift_dimensions : list bool;
  outgoing_command : JointTrajectory;
  command_is_stale : bool;
  ok_to_publish : bool;
  zero_cartesian_cmd_flag : bool;
  zero_joint_cmd_flag : bool;
  tf_moveit_to_cmd_frame : Isometry3d
}.

(** ** The kinematic model (moveit_core) *)

(** Modelled from the spec: [robot_state::RobotState] is not part of these
    sources.  The state holds the positions and velocities of the move
    group's variables in the model's canonical order. *)
Record RobotState := {
  rs_position : list double;
  rs_velocity : list double
}.

Record JointLimits := { min_position : double; max_position : double }.

(** Modelled from the spec: a [JointModel] of the move group, with its name,
    the index of its first variable and its bounds message. *)
Record JointModel := {
  getName : string;
  first_variable_index : nat;
  getVariableBoundsMsg : list JointLimits
}.

(** Modelled from the spec: what the robot model and [JointModelGroup]
    compute from a state (Jacobian, link transforms, bounds checks); an
    interface, since moveit_core is outside these sources. *)
Class RobotModel := {
  getVariableNames : list string;
  getJointModels : list JointModel;
  getJacobian : RobotState → MatrixXd;
  getGlobalLinkTransform : RobotState → string → Isometry3d;
  satisfiesVelocityBounds : RobotState → JointModel → bool;
  enforceVelocityBounds : RobotState → JointModel → RobotState;
  satisfiesPositionBounds : RobotState → JointModel → double → bool
}.

(** Modelled from the spec: [setVariableValues(joint_state)]; the message's
    names are the group's variable names, so its non-empty arrays replace
    the stored ones. *)
Definition setVariableValues (msg : JointState) (s : RobotState) : RobotState :=
  {| rs_position := if decide (position msg = []) then rs_position s else position msg;
     rs_velocity := if decide (velocity msg = []) then rs_velocity s else velocity msg |}.

(** Modelled from the spec: [copyJointGroupPositions] reads the stored
    positions of the group. *)
Definition copyJointGroupPositions (s : RobotState) : VectorXd := rs_position s.

(** Modelled from the spec: [setJointGroupPositions] stores the positions
    of the group. *)
Definition setJointGroupPositions (theta : VectorXd) (s : RobotState) : RobotState :=
  {| rs_position := theta; rs_velocity := rs_velocity s |}.

(** Modelled from the spec: [getJointVelocities(joint)[0]], the first
    velocity of the joint. *)
Definition getJointVelocities (s : RobotState) (j : JointModel) : option double :=
  rs_velocity s !! first_variable_index j.

(** ** The low-pass filter (low_pass_filter.h) *)

(** Modelled from the spec: the [LowPassFilter] class is not part of these
    sources; it is a scalar filter with an internal state, built from a
    coefficient, with [filter] and [reset]. *)
Class LowPassFilterOps := {
  LowPassFilter : Type;
  lpf_new : double → LowPassFilter;
  lpf_filter : LowPassFilter → double → double * LowPassFilter;
  lpf_reset : LowPassFilter → double → LowPassFilter
}.

(** ** The console *)

Inductive Severity := Info | Warn | Error.

Record LogEntry := { severity : Severity; message : string }.

(** ** The object and its world *)

Section JogCalcs.

Context `{!EigenOps, !RobotModel, !LowPassFilterOps, !RosTime}.

(** The data members of [JogCalcs] (jog_calcs.h). *)
Record JogCalcs := {
  parameters_ : JogArmParameters;
  kinematic_state_ : RobotState;
  incoming_joints_ : JointState;
  joint_state_ : JointState;
  original_joint_state_ : JointState;
  joint_state_name_map_ : gmap string nat;
  outgoing_command_ : JointTrajectory;
  position_filters_ : list LowPassFilter;
  delta_theta_ : VectorXd;
  tf_moveit_to_cmd_frame_ : Isometry3d;
  num_joints_ : nat;
  gazebo_redundant_message_count_ : Z;
  has_warning_ : bool;
  halt_outgoing_jog_cmds_ : bool;
  stop_jog_loop_requested_ : bool;
  is_initialized_ : bool
}.

(** What a member function can read and change: the object, the shared
    variables, the console, the messages published on the warning topic,
    [ros::Time::now()] and what uninitialised storage happens to hold. *)
Record World := {
  this : JogCalcs;
  shared_variables : JogArmShared;
  rosout : list LogEntry;
  warning_pub_ : list bool;
  now : Z;
  uninitialized : list double
}.

Definition with_this (f : JogCalcs → JogCalcs) (w : World) : World :=
  {| this := f (this w); shared_variables := shared_variables w;
     rosout := rosout w; warning_pub_ := warning_pub_ w; now := now w;
     uninitialized := uninitialized w |}.

Definition with_shared (f : JogArmShared → JogArmShared) (w : World) : World :=
  {| this := this w; shared_variables := f (shared_variables w);
     rosout := rosout w; warning_pub_ := warning_pub_ w; now := now w;
     uninitialized := uninitialized w |}.

Definition with_rosout (f : list LogEntry → list LogEntry) (w : World) : World :=
  {| this := this w; shared_variables := shared_variables w;
     rosout := f (rosout w); warning_pub_ := warning_pub_ w; now := now w;
     uninitialized := uninitialized w |}.

Definition with_warning_pub (f : list bool → list bool) (w : World) : World :=
  {| this := this w; shared_variables := shared_variables w;
     rosout := rosout w; warning_pub_ := f (warning_pub_ w); now := now w;
     uninitialized := uninitialized w |}.

(** *** The monad: state over the world, [None] for undefined behaviour *)

Definition Jog (A : Type) : Type := World → option (A * World).

Definition ret {A} (a : A) : Jog A := λ w, Some (a, w).

Definition bind {A B} (m : Jog A) (k : A → Jog B) : Jog B :=
  λ w, match m w with
       | Some (a, w') => k a w'
       | None => None
       end.

Definition undefined {A} : Jog A := λ _, None.

Definition gets {A} (f : World → A) : Jog A := λ w, Some (f w, w).

Definition modify (f : World → World) : Jog unit := λ w, Some (tt, f w).

(** An access that is defined only where the container has the entry. *)
Definition defined {A} (o : option A) : Jog A :=
  match o with
  | Some a => ret a
  | None => undefined
  end.

Notation "'let*' p := m 'in' k" := (bind m (λ p, k))
  (at level 10, p pattern, k at level 200, only parsing).
Notation "m ;;; k" := (bind m (λ _, k))
  (at level 100, right associativity, only parsing).

(** [ROS_INFO], [ROS_WARN], [ROS_ERROR] and their variants: the request is
    recorded; whether a throttled message is then printed is the console's
    business. *)
Definition ros_log (s : Severity) (msg : string) : Jog unit :=
  modify (with_rosout (λ l, l ++ [{| severity := s; message := msg |}])).

(** Storage of [n] doubles that the program has not written yet. *)
Definition uninitialized_vector (n : nat) : Jog VectorXd :=
  gets (λ w, resize n 0%float (uninitialized w)).

(** *** Assignments to members and to fields of messages *)

Definition set_position (v : list double) (j : JointState) : JointState :=
  {| name := name j; position := v; velocity := velocity j; effort := effort j |}.

Definition set_velocity (v : list double) (j : JointState) : JointState :=
  {| name := name j; position := position j; velocity := v; effort := effort j |}.

Definition set_positions (v : list double) (p : JointTrajectoryPoint) : JointTrajectoryPoint :=
  {| positions := v; velocities := velocities p; accelerations := accelerations p;
     time_from_start := time_from_start p |}.

Definition set_velocities (v : list double) (p : JointTrajectoryPoint) : JointTrajectoryPoint :=
  {| positions := positions p; velocities := v; accelerations := accelerations p;
     time_from_start := time_from_start p |}.

Definition set_accelerations (v : list double) (p : JointTrajectoryPoint) : JointTrajectoryPoint :=
  {| positions := positions p; velocities := velocities p; accelerations := v;
     time_from_start := time_from_start p |}.

Definition set_time_from_start (t : Duration) (p : JointTrajectoryPoint)
  : JointTrajectoryPoint :=
  {| positions := positions p; velocities := velocities p;
     accelerations := accelerations p; time_from_start := t |}.

Definition set_points (ps : list JointTrajectoryPoint) (t : JointTrajectory) : JointTrajectory :=
  {| jt_header := jt_header t; joint_names := joint_names t; points := ps |}.

Definition set_kinematic_state_ (v : RobotState) (c : JogCalcs) : JogCalcs :=
  {| parameters_ := parameters_ c; kinematic_state_ := v;
     incoming_joints_ := incoming_joints_ c; joint_state_ := joint_state_ c;
     original_joint_state_ := original_joint_state_ c;
     joint_state_name_map_ := joint_state_name_map_ c;
     outgoing_command_ := outgoing_command_ c;
     position_filters_ := position_filters_ c; delta_theta_ := delta_theta_ c;
     tf_moveit_to_cmd_frame_ := tf_moveit_to_cmd_frame_ c;
     num_joints_ := num_joints_ c;
     gazebo_redundant_message_count_ := gazebo_redundant_message_count_ c;
     has_warning_ := has_warning_ c;
     halt_outgoing_jog_cmds_ := halt_outgoing_jog_cmds_ c;
     stop_jog_loop_requested_ := stop_jog_loop_requested_ c;
     is_initialized_ := is_initialized_ c |}.

Definition set_incoming_joints_ (v : JointState) (c : JogCalcs) : JogCalcs :=
  {| parameters_ := parameters_ c; kinematic_state_ := kinematic_state_ c;
     incoming_joints_ := v; joint_state_ := joint_state_ c;
     original_joint_state_ := original_joint_state_ c;
     joint_state_name_map_ := joint_state_name_map_ c;
     outgoing_command_ := outgoing_command_ c;
     position_filters_ := position_filters_ c; delta_theta_ := delta_theta_ c;
     tf_moveit_to_cmd_frame_ := tf_moveit_to_cmd_frame_ c;
     num_joints_ := num_joints_ c;
     gazebo_redundant_message_count_ := gazebo_redundant_message_count_ c;
     has_warning_ := has_warning_ c;
     halt_outgoing_jog_cmds_ := halt_outgoing_jog_cmds_ c;
     stop_jog_loop_requested_ := stop_jog_loop_requested_ c;
     is_initialized_ := is_initialized_ c |}.

Definition set_joint_state_ (v : JointState) (c : JogCalcs) : JogCalcs :=
  {| parameters_ := parameters_ c; kinematic_state_ := kinematic_state_ c;
     incoming_joints_ := incoming_joints_ c; joint_state_ := v;
     original_joint_state_ := original_joint_state_ c;
     joint_state_name_map_ := joint_state_name_map_ c;
     outgoing_command_ := outgoing_command_ c;
     position_filters_ := position_filters_ c; delta_theta_ := delta_theta_ c;
     tf_moveit_to_cmd_frame_ := tf_moveit_to_cmd_frame_ c;
     num_joints_ := num_joints_ c;
     gazebo_redundant_message_count_ := gazebo_redundant_message_count_ c;
     has_warning_ := has_warning_ c;
     halt_outgoing_jog_cmds_ := halt_outgoing_jog_cmds_ c;
     stop_jog_loop_requested_ := stop_jog_loop_requested_ c;
     is_initialized_ := is_initialized_ c |}.

Definition set_original_joint_state_ (v : JointState) (c : JogCalcs) : JogCalcs :=
  {| parameters_ := parameters_ c; kinematic_state_ := kinematic_state_ c;
     incoming_joints_ := incoming_joints_ c; joint_state_ := joint_state_ c;
     original_joint_state_ := v;
     joint_state_name_map_ := joint_state_name_map_ c;
     outgoing_command_ := outgoing_command_ c;
     position_filters_ := position_filters_ c; delta_theta_ := delta_theta_ c;
     tf_moveit_to_cmd_frame_ := tf_moveit_to_cmd_frame_ c;
     num_joints_ := num_joints_ c;
     gazebo_redundant_message_count_ := gazebo_redundant_message_count_ c;
     has_warning_ := has_warning_ c;
     halt_outgoing_jog_cmds_ := halt_outgoing_jog_cmds_ c;
     stop_jog_loop_requested_ := stop_jog_loop_requested_ c;
     is_initialized_ := is_initialized_ c |}.

Definition set_outgoing_command_ (v : JointTrajectory) (c : JogCalcs) : JogCalcs :=
  {| parameters_ := parameters_ c; kinematic_state_ := kinematic_state_ c;
     incoming_joints_ := incoming_joints_ c; joint_state_ := joint_state_ c;
     original_joint_state_ := original_joint_state_ c;
     joint_state_name_map_ := joint_state_name_map_ c;
     outgoing_command_ := v;
     position_filters_ := position_filters_ c; delta_theta_ := delta_theta_ c;
     tf_moveit_to_cmd_frame_ := tf_moveit_to_cmd_frame_ c;
     num_joints_ := num_joints_ c;
     gazebo_redundant_message_count_ := gazebo_redundant_message_count_ c;
     has_warning_ := has_warning_ c;
     halt_outgoing_jog_cmds_ := halt_outgoing_jog_cmds_ c;
     stop_jog_loop_requested_ := stop_jog_loop_requested_ c;
     is_initialized_ := is_initialized_ c |}.

Definition set_position_filters_ (v : list LowPassFilter) (c : JogCalcs) : JogCalcs :=
  {| parameters_ := parameters_ c; kinematic_state_ := kinematic_state_ c;
     incoming_joints_ := incoming_joints_ c; joint_state_ := joint_state_ c;
     original_joint_state_ := original_joint_state_ c;
     joint_state_name_map_ := joint_state_name_map_ c;
     outgoing_command_ := outgoing_command_ c;
     position_filters_ := v; delta_theta_ := delta_theta_ c;
     tf_moveit_to_cmd_frame_ := tf_moveit_to_cmd_frame_ c;
     num_joints_ := num_joints_ c;
     gazebo_redundant_message_count_ := gazebo_redundant_message_count_ c;
     has_warning_ := has_warning_ c;
     halt_outgoing_jog_cmds_ := halt_outgoing_jog_cmds_ c;
     stop_jog_loop_requested_ := stop_jog_loop_requested_ c;
     is_initialized_ := is_initialized_ c |}.

Definition set_delta_theta_ (v : VectorXd) (c : JogCalcs) : JogCalcs :=
  {| parameters_ := parameters_ c; kinematic_state_ := kinematic_state_ c;
     incoming_joints_ := incoming_joints_ c; joint_state_ := joint_state_ c;
     original_joint_state_ := original_joint_state_ c;
     joint_state_name_map_ := joint_state_name_map_ c;
     outgoing_command_ := outgoing_command_ c;
     position_filters_ := position_filters_ c; delta_theta_ := v;
     tf_moveit_to_cmd_frame_ := tf_moveit_to_cmd_frame_ c;
     num_joints_ := num_joints_ c;
     gazebo_redundant_message_count_ := gazebo_redundant_message_count_ c;
     has_warning_ := has_warning_ c;
     halt_outgoing_jog_cmds_ := halt_outgoing_jog_cmds_ c;
     stop_jog_loop_requested_ := stop_jog_loop_requested_ c;
     is_initialized_ := is_initialized_ c |}.

Definition set_tf_moveit_to_cmd_frame_ (v : Isometry3d) (c : JogCalcs) : JogCalcs :=
  {| parameters_ := parameters_ c; kinematic_state_ := kinematic_state_ c;
     incoming_joints_ := incoming_joints_ c; joint_state_ := joint_state_ c;
     original_joint_state_ := original_joint_state_ c;
     joint_state_name_map_ := joint_state_name_map_ c;
     outgoing_command_ := outgoing_command_ c;
     position_filters_ := position_filters_ c; delta_theta_ := delta_theta_ c;
     tf_moveit_to_cmd_frame_ := v;
     num_joints_ := num_joints_ c;
     gazebo_redundant_message_count_ := gazebo_redundant_message_count_ c;
     has_warning_ := has_warning_ c;
     halt_outgoing_jog_cmds_ := halt_outgoing_jog_cmds_ c;
     stop_jog_loop_requested_ := stop_jog_loop_requested_ c;
     is_initialized_ := is_initialized_ c |}.

Definition set_has_warning_ (v : bool) (c : JogCalcs) : JogCalcs :=
  {| parameters_ := parameters_ c; kinematic_state_ := kinematic_state_ c;
     incoming_joints_ := incoming_joints_ c; joint_state_ := joint_state_ c;
     original_joint_state_ := original_joint_state_ c;
     joint_state_name_map_ := joint_state_name_map_ c;
     outgoing_command_ := outgoing_command_ c;
     position_filters_ := position_filters_ c; delta_theta_ := delta_theta_ c;
     tf_moveit_to_cmd_frame_ := tf_moveit_to_cmd_frame_ c;
     num_joints_ := num_joints_ c;
     gazebo_redundant_message_count_ := gazebo_redundant_message_count_ c;
     has_warning_ := v;
     halt_outgoing_jog_cmds_ := halt_outgoing_jog_cmds_ c;
     stop_jog_loop_requested_ := stop_jog_loop_requested_ c;
     is_initialized_ := is_initialized_ c |}.

Definition set_halt_outgoing_jog_cmds_ (v : bool) (c : JogCalcs) : JogCalcs :=
  {| parameters_ := parameters_ c; kinematic_state_ := kinematic_state_ c;
     incoming_joints_ := incoming_joints_ c; joint_state_ := joint_state_ c;
     original_joint_state_ := original_joint_state_ c;
     joint_state_name_map_ := joint_state_name_map_ c;
     outgoing_command_ := outgoing_command_ c;
     position_filters_ := position_filters_ c; delta_theta_ := delta_theta_ c;
     tf_moveit_to_cmd_frame_ := tf_moveit_to_cmd_frame_ c;
     num_joints_ := num_joints_ c;
     gazebo_redundant_message_count_ := gazebo_redundant_message_count_ c;
     has_warning_ := has_warning_ c;
     halt_outgoing_jog_cmds_ := v;
     stop_jog_loop_requested_ := stop_jog_loop_requested_ c;
     is_initialized_ := is_initialized_ c |}.

Definition set_stop_jog_loop_requested_ (v : bool) (c : JogCalcs) : JogCalcs :=
  {| parameters_ := parameters_ c; kinematic_state_ := kinematic_state_ c;
     incoming_joints_ := incoming_joints_ c; joint_state_ := joint_state_ c;
     original_joint_state_ := original_joint_state_ c;
     joint_state_name_map_ := joint_state_name_map_ c;
     outgoing_command_ := outgoing_command_ c;
     position_filters_ := position_filters_ c; delta_theta_ := delta_theta_ c;
     tf_moveit_to_cmd_frame_ := tf_moveit_to_cmd_frame_ c;
     num_joints_ := num_joints_ c;
     gazebo_redundant_message_count_ := gazebo_redundant_message_count_ c;
     has_warning_ := has_warning_ c;
     halt_outgoing_jog_cmds_ := halt_outgoing_jog_cmds_ c;
     stop_jog_loop_requested_ := v;
     is_initialized_ := is_initialized_ c |}.

Definition set_outgoing_command (v : JointTrajectory) (s : JogArmShared) : JogArmShared :=
  {| command_deltas := command_deltas s;
     joint_command_deltas := joint_command_deltas s; joints := joints s;
     collision_velocity_scale := collision_velocity_scale s;
     drift_dimensions := drift_dimensions s; outgoing_command := v;
     command_is_stale := command_is_stale s; ok_to_publish := ok_to_publish s;
     zero_cartesian_cmd_flag := zero_cartesian_cmd_flag s;
     zero_joint_cmd_flag := zero_joint_cmd_flag s;
     tf_moveit_to_cmd_frame := tf_moveit_to_cmd_frame s |}.

Definition set_ok_to_publish (v : bool) (s : JogArmShared) : JogArmShared :=
  {| command_deltas := command_deltas s;
     joint_command_deltas := joint_command_deltas s; joints := joints s;
     collision_velocity_scale := collision_velocity_scale s;
     drift_dimensions := drift_dimensions s;
     outgoing_command := outgoing_command s;
     command_is_stale := command_is_stale s; ok_to_publish := v;
     zero_cartesian_cmd_flag := zero_cartesian_cmd_flag s;
     zero_joint_cmd_flag := zero_joint_cmd_flag s;
     tf_moveit_to_cmd_frame := tf_moveit_to_cmd_frame s |}.

Definition set_tf_moveit_to_cmd_frame (v : Isometry3d) (s : JogArmShared) : JogArmShared :=
  {| command_deltas := command_deltas s;
     joint_command_deltas := joint_command_deltas s; joints := joints s;
     collision_velocity_scale := collision_velocity_scale s;
     drift_dimensions := drift_dimensions s;
     outgoing_command := outgoing_command s;
     command_is_stale := command_is_stale s; ok_to_publish := ok_to_publish s;
     zero_cartesian_cmd_flag := zero_cartesian_cmd_flag s;
     zero_joint_cmd_flag := zero_joint_cmd_flag s;
     tf_moveit_to_cmd_frame := v |}.

(** Reading and writing a member. *)
Definition member {A} (f : JogCalcs → A) : Jog A := gets (λ w, f (this w)).
Definition assign (f : JogCalcs → JogCalcs) : Jog unit := modify (with_this f).

(** Reading and writing a shared variable (under the mutex in the source). *)
Definition shared {A} (f : JogArmShared → A) : Jog A :=
  gets (λ w, f (shared_variables w)).
Definition assign_shared (f : JogArmShared → JogArmShared) : Jog unit :=
  modify (with_shared f).

Definition parameter {A} (f : JogArmParameters → A) : Jog A :=
  gets (λ w, f (parameters_ (this w))).

(** [v[i] = x] on a [std::vector]: defined only inside the vector. *)
Definition store {A} (i : nat) (x : A) (v : list A) : Jog (list A) :=
  if decide (i < length v)%nat then ret (<[i:=x]> v) else undefined.

(** [for (i = lo; i < lo + count; ++i) body], threading the variables the
    body changes. *)
Fixpoint for_ {S} (lo count : nat) (body : nat → S → Jog S) (s : S) : Jog S :=
  match count with
  | O => ret s
  | Datatypes.S c => let* s' := body lo s in for_ (Datatypes.S lo) c body s'
  end.

(** The same for a body that may [break]: it returns [inr] to leave the
    loop. *)
Fixpoint for_break {S} (lo count : nat) (body : nat → S → Jog (S + S)) (s : S) : Jog S :=
  match count with
  | O => ret s
  | Datatypes.S c =>
      let* r := body lo s in
      match r with
      | inl s' => for_break (Datatypes.S lo) c body s'
      | inr s' => ret s'
      end
  end.

(** ** The member functions of jog_calcs.cpp *)

(** [JogCalcs::updateJoints]: parse the incoming joint message for the
    joints of the move group. *)
Definition updateJoints : Jog bool :=
  let* j := shared joints in
  assign (set_incoming_joints_ j) ;;;
  let* incoming := member incoming_joints_ in
  let* n := member num_joints_ in
  (* Check that the msg contains enough joints *)
  if decide (length (name incoming) < n)%nat then ret false
  else
    (* Store joints in a member variable *)
    for_ 0 (length (name incoming)) (λ m _,
      let* incoming := member incoming_joints_ in
      let* nm := defined (name incoming !! m) in
      let* map := member joint_state_name_map_ in
      match map !! nm with
      | None => ros_log Warn ("Ignoring joint " +:+ nm)
      | Some c =>
          let* p := defined (position incoming !! m) in
          let* js := member joint_state_ in
          let* pos := store c p (position js) in
          assign (set_joint_state_ (set_position pos js))
      end) tt ;;;
    (* Cache the original joints in case they need to be reset *)
    let* js := member joint_state_ in
    assign (set_original_joint_state_ js) ;;;
    ret true.

(** [JogCalcs::scaleCartesianCommand]: scale the incoming jog command. *)
Definition scaleCartesianCommand (command : TwistStamped) : Jog VectorXd :=
  let* result := uninitialized_vector 6 in
  let* p := member parameters_ in
  let lin := linear_ (twist command) in
  let ang := angular (twist command) in
  (* Apply user-defined scaling if inputs are unitless [-1:1] *)
  if decide (command_in_type p = "unitless") then
    let result := <[0%nat := (linear_scale p * publish_period p * x lin)%float]> result in
    let result := <[1%nat := (linear_scale p * publish_period p * y lin)%float]> result in
    let result := <[2%nat := (linear_scale p * publish_period p * z lin)%float]> result in
    let result := <[3%nat := (rotational_scale p * publish_period p * x ang)%float]> result in
    let result := <[4%nat := (rotational_scale p * publish_period p * y ang)%float]> result in
    let result := <[5%nat := (rotational_scale p * publish_period p * z ang)%float]> result in
    ret result
  (* Otherwise, commands are in m/s and rad/s *)
  else if decide (command_in_type p = "speed_units") then
    let result := <[0%nat := (x lin * publish_period p)%float]> result in
    let result := <[1%nat := (y lin * publish_period p)%float]> result in
    let result := <[2%nat := (z lin * publish_period p)%float]> result in
    let result := <[3%nat := (x ang * publish_period p)%float]> result in
    let result := <[4%nat := (y ang * publish_period p)%float]> result in
    let result := <[5%nat := (z ang * publish_period p)%float]> result in
    ret result
  else
    ros_log Error "Unexpected command_in_type" ;;;
    ret result.

(** [JogCalcs::scaleJointCommand] *)
Definition scaleJointCommand (command : JointJog) : Jog VectorXd :=
  let* n := member num_joints_ in
  let* result := uninitialized_vector n in
  let* result := for_ 0 n (λ i result, store i 0%float result) result in
  for_ 0 (length (jj_joint_names command)) (λ m result,
    let* nm := defined (jj_joint_names command !! m) in
    let* map := member joint_state_name_map_ in
    match map !! nm with
    | None =>
        let* incoming := member incoming_joints_ in
        let* shown := defined (name incoming !! m) in
        ros_log Warn ("Ignoring joint " +:+ shown) ;;;
        ret result
    | Some c =>
        let* p := member parameters_ in
        (* Apply user-defined scaling if inputs are unitless [-1:1] *)
        if decide (command_in_type p = "unitless") then
          let* v := defined (jj_velocities command !! m) in
          store c (v * joint_scale p * publish_period p)%float result
        (* Otherwise, commands are in m/s and rad/s *)
        else if decide (command_in_type p = "speed_units") then
          let* v := defined (jj_velocities command !! m) in
          store c (v * publish_period p)%float result
        else
          ros_log Error "Unexpected command_in_type, check yaml file." ;;;
          ret result
    end) result.

(** [JogCalcs::addJointIncrements]: add the deltas to each joint.  The
    accesses are unchecked ([operator[]] never throws), so the handler that
    would return false is never entered. *)
Definition addJointIncrements (output : JointState) (increments : VectorXd)
  : Jog (bool * JointState) :=
  let* output := for_ 0 (length increments) (λ i output,
    let* d := defined (increments !! i) in
    let* p := defined (position output !! i) in
    let* pos := store i (p + d)%float (position output) in
    ret (set_position pos output)) output in
  ret (true, output).

(** [dst.block(r, .., n, ..) = src.block(r + 1, .., n, ..)] on the rows of
    one matrix, and the same for a segment of a vector. *)
Definition shift_up {A} (r n : nat) (l : list A) : Jog (list A) :=
  if decide (r + 1 + n ≤ length l)%nat
  then ret (take r l ++ take n (drop (r + 1) l) ++ drop (r + n) l)
  else undefined.

(** [conservativeResize(n)]: keeps the leading entries; entries added by a
    growth are uninitialised. *)
Definition conservativeResize (n : nat) (v : VectorXd) : Jog VectorXd :=
  let* fresh := uninitialized_vector (n - length v) in
  ret (take n v ++ fresh).

(** [JogCalcs::removeDimension] *)
Definition removeDimension (jacobian : MatrixXd) (delta_x : VectorXd) (row_to_remove : nat)
  : Jog (MatrixXd * VectorXd) :=
  let num_rows := (rows jacobian - 1)%nat in
  let* (jacobian, delta_x) :=
    if decide (row_to_remove < num_rows)%nat then
      let* jacobian := shift_up row_to_remove (num_rows - row_to_remove) jacobian in
      let* delta_x := shift_up row_to_remove (num_rows - row_to_remove) delta_x in
      ret (jacobian, delta_x)
    else ret (jacobian, delta_x) in
  let jacobian := take num_rows jacobian in
  let* delta_x := conservativeResize num_rows delta_x in
  ret (jacobian, delta_x).

(** [for (auto a : l) body] *)
Fixpoint for_each {A S} (l : list A) (body : A → S → Jog S) (s : S) : Jog S :=
  match l with
  | [] => ret s
  | a :: l' => let* s' := body a s in for_each l' body s'
  end.

(** [for (dimension = hi; dimension >= 0; --dimension) body] on a signed
    index. *)
Fixpoint for_down {S} (dimension : nat) (body : nat → S → Jog S) (s : S) : Jog S :=
  let* s' := body dimension s in
  match dimension with
  | O => ret s'
  | Datatypes.S d => for_down d body s'
  end.

(** Conversion of a non-negative [int] to [double]. *)
Definition of_int (i : Z) : double := PrimFloat.of_uint63 (Uint63.of_Z i).

(** [std::numeric_limits<int>::max()] *)
Definition INT_MAX : Z := 2147483647.

(** [JogCalcs::insertRedundantPointsIntoTrajectory]: spam several redundant
    points into the trajectory.  [count] is an [int]: [count + 1] overflows
    at [INT_MAX].  Each copy gets [ros::Duration(i * publish_period)], and
    a constructor that throws ends the run as an undefined access does. *)
Definition insertRedundantPointsIntoTrajectory (trajectory : JointTrajectory) (count : Z)
  : Jog JointTrajectory :=
  let* point := defined (points trajectory !! 0%nat) in
  let* p := member parameters_ in
  (* Start from 2 because we already have the first point.
     End at count+1 so (total #) == count *)
  if decide (INT_MAX < count + 1) then undefined
  else
    let* (_, trajectory) := for_ 2 (Z.to_nat (count + 1 - 2)) (λ i '(point, trajectory),
      let* t := defined (fromSec (of_int (Z.of_nat i) * publish_period p)%float) in
      let point := set_time_from_start t point in
      ret (point, set_points (points trajectory ++ [point]) trajectory))
      (point, trajectory) in
    ret trajectory.

(** [JogCalcs::lowPassFilterPositions] *)
Definition lowPassFilterPositions (joint_state : JointState) : Jog JointState :=
  let* filters := member position_filters_ in
  for_ 0 (length filters) (λ i joint_state,
    let* filters := member position_filters_ in
    let* f := defined (filters !! i) in
    let* p := defined (position joint_state !! i) in
    let '(filtered, f') := lpf_filter f p in
    assign (set_position_filters_ (<[i:=f']> filters)) ;;;
    let* pos := store i filtered (position joint_state) in
    ret (set_position pos joint_state)) joint_state.

(** [JogCalcs::calculateJointVelocities] *)
Definition calculateJointVelocities (joint_state : JointState) (delta_theta : VectorXd)
  : Jog JointState :=
  let* p := member parameters_ in
  for_ 0 (length delta_theta) (λ i joint_state,
    let* d := defined (delta_theta !! i) in
    let* vel := store i (d / publish_period p)%float (velocity joint_state) in
    ret (set_velocity vel joint_state)) joint_state.

(** [JogCalcs::composeJointTrajMessage] *)
Definition composeJointTrajMessage (joint_state : JointState) : Jog JointTrajectory :=
  let* p := member parameters_ in
  let* stamp_now := gets now in
  let* n := member num_joints_ in
  let* t := defined (fromSec (publish_period p)) in
  let point := {| positions := []; velocities := []; accelerations := [];
                  time_from_start := t |} in
  let point := if publish_joint_positions p
               then set_positions (position joint_state) point else point in
  let point := if publish_joint_velocities p
               then set_velocities (velocity joint_state) point else point in
  let point := if publish_joint_accelerations p
               (* Send all zeros, for now. *)
               then set_accelerations (replicate n 0%float) point else point in
  ret {| jt_header := {| frame_id := planning_frame p; stamp := stamp_now |};
         joint_names := name joint_state;
         points := [point] |}.

(** [JogCalcs::applyVelocityScaling]: apply velocity scaling for proximity of
    collisions and singularities.  The scale for collisions is read from a
    shared variable. *)
Definition applyVelocityScaling (delta_theta : VectorXd) (singularity_scale : double)
  : Jog (bool * VectorXd) :=
  let* collision_scale := shared collision_velocity_scale in
  let delta_theta := scalar_times (collision_scale * singularity_scale)%float delta_theta in
  (* Heuristic: flag that we are stuck if velocity scaling is < X% *)
  ret (geb (collision_scale * singularity_scale)%float one_tenth, delta_theta).

(** The local variables of [velocityScalingFactorForSingularity] at its
    [return]. *)
Record SingularityLocals := {
  vector_toward_singularity : VectorXd;
  ini_condition : double;
  new_theta : VectorXd;
  new_condition : double;
  dot : double;
  velocity_scale : double
}.

(** The body of [JogCalcs::velocityScalingFactorForSingularity]: possibly
    calculate a velocity scaling factor, due to proximity of singularity and
    direction of motion. *)
Definition velocityScalingFactorForSingularity_body
    (commanded_velocity : VectorXd) (svd : SVD) (jacobian pseudo_inverse : MatrixXd)
  : Jog SingularityLocals :=
  let velocity_scale := 1%float in
  let num_dimensions := rows jacobian in
  (* The last column of U from the SVD of the Jacobian points directly
     toward or away from the singularity. *)
  let* vector_toward_singularity :=
    if decide (num_dimensions = 0%nat) then undefined
    else defined (col (num_dimensions - 1) (matrixU svd)) in
  let* sigma_first := defined (singularValues svd !! 0%nat) in
  let* sigma_last := defined (singularValues svd !! (length (singularValues svd) - 1)%nat) in
  let ini_condition := (sigma_first / sigma_last)%float in
  (* Start with a scaled version of the singular vector *)
  let scale := 100%float in
  let delta_x := divided_by vector_toward_singularity scale in
  (* Calculate a small change in joints *)
  let* kinematic_state := member kinematic_state_ in
  let new_theta := copyJointGroupPositions kinematic_state in
  let* new_theta := defined (vec_plus new_theta (mat_vec pseudo_inverse delta_x)) in
  assign (set_kinematic_state_ (setJointGroupPositions new_theta kinematic_state)) ;;;
  let new_svd := JacobiSVD false jacobian in
  let* new_first := defined (singularValues new_svd !! 0%nat) in
  let* new_last :=
    defined (singularValues new_svd !! (length (singularValues new_svd) - 1)%nat) in
  let new_condition := (new_first / new_last)%float in
  (* If new_condition < ini_condition, the singular vector does point
     towards a singularity.  Otherwise, flip its direction. *)
  let vector_toward_singularity :=
    if geb ini_condition new_condition
    then (λ c, c * (-1))%float <$> vector_toward_singularity
    else vector_toward_singularity in
  (* If this dot product is positive, we're moving toward singularity ==>
     decelerate *)
  let dot := vec_dot vector_toward_singularity commanded_velocity in
  let* p := member parameters_ in
  let* velocity_scale :=
    if gtb dot 0 then
      (* Ramp velocity down linearly when the Jacobian condition is between
         lower_singularity_threshold and hard_stop_singularity_threshold,
         and we're moving towards the singularity *)
      if gtb ini_condition (lower_singularity_threshold p)
         && (ini_condition <? hard_stop_singularity_threshold p)%float
      then ret (1 - (ini_condition - lower_singularity_threshold p)
                    / (hard_stop_singularity_threshold p - lower_singularity_threshold p))%float
      (* Very close to singularity, so halt. *)
      else if gtb ini_condition (hard_stop_singularity_threshold p)
      then ros_log Warn "Close to a singularity. Halting." ;;; ret 0%float
      else ret velocity_scale
    else ret velocity_scale in
  ret {| vector_toward_singularity := vector_toward_singularity;
         ini_condition := ini_condition;
         new_theta := new_theta;
         new_condition := new_condition;
         dot := dot;
         velocity_scale := velocity_scale |}.

(** [JogCalcs::velocityScalingFactorForSingularity] returns the scale. *)
Definition velocityScalingFactorForSingularity
    (commanded_velocity : VectorXd) (svd : SVD) (jacobian pseudo_inverse : MatrixXd)
  : Jog double :=
  let* locals := velocityScalingFactorForSingularity_body
                   commanded_velocity svd jacobian pseudo_inverse in
  ret (velocity_scale locals).

(** [JogCalcs::stopMainLoop], [JogCalcs::haltOutgoingJogCmds] and
    [JogCalcs::isInitialized] *)
Definition stopMainLoop : Jog unit := assign (set_stop_jog_loop_requested_ true).

Definition haltOutgoingJogCmds : Jog unit := assign (set_halt_outgoing_jog_cmds_ true).

Definition isInitialized : Jog bool := member is_initialized_.

(** [JogCalcs::publishWarning] *)
Definition publishWarning (active : bool) : Jog unit :=
  modify (with_warning_pub (λ l, l ++ [active])).

(** [joint_traj.points[0].f[i] = v] for a field [f] of the point. *)
Definition store_in_first_point
    (get : JointTrajectoryPoint → list double)
    (set : list double → JointTrajectoryPoint → JointTrajectoryPoint)
    (i : nat) (v : double) (joint_traj : JointTrajectory) : Jog JointTrajectory :=
  let* point := defined (points joint_traj !! 0%nat) in
  let* field := store i v (get point) in
  ret (set_points (<[0%nat := set field point]> (points joint_traj)) joint_traj).

(** [JogCalcs::suddenHalt]: suddenly halt for a joint limit or other
    critical issue.  Is handled differently for position vs. velocity
    control. *)
Definition suddenHalt (joint_traj : JointTrajectory) : Jog JointTrajectory :=
  let* n := member num_joints_ in
  let* p := member parameters_ in
  for_ 0 n (λ i joint_traj,
    (* For position-controlled robots, can reset the joints to a known,
       good state *)
    let* joint_traj :=
      if publish_joint_positions p then
        let* original := member original_joint_state_ in
        let* v := defined (position original !! i) in
        store_in_first_point positions set_positions i v joint_traj
      else ret joint_traj in
    (* For velocity-controlled robots, stop *)
    if publish_joint_velocities p then
      store_in_first_point velocities set_velocities i 0%float joint_traj
    else ret joint_traj) joint_traj.

(** [JogCalcs::enforceSRDFJointBounds] *)
Definition enforceSRDFJointBounds (new_joint_traj : JointTrajectory)
  : Jog (bool * JointTrajectory) :=
  let halting := false in
  if decide (points new_joint_traj = []) then
    ros_log Warn "Empty trajectory passed into checkIfJointsWithinURDFBounds()." ;;;
    ret (true, new_joint_traj)  (* technically an empty trajectory is still within bounds *)
  else
    let* p := member parameters_ in
    let* (halting, new_joint_traj) :=
      for_each getJointModels (λ joint '(halting, new_joint_traj),
        let* kinematic_state := member kinematic_state_ in
        let* new_joint_traj :=
          if negb (satisfiesVelocityBounds kinematic_state joint) then
            ros_log Warn (getName joint +:+ " close to a velocity limit. Enforcing limit.") ;;;
            assign (set_kinematic_state_ (enforceVelocityBounds kinematic_state joint)) ;;;
            for_break 0 (length (joint_names new_joint_traj)) (λ c new_joint_traj,
              let* nm := defined (joint_names new_joint_traj !! c) in
              if decide (nm = getName joint) then
                let* point := defined (points new_joint_traj !! 0%nat) in
                if decide (c + 1 < length (velocities point))%nat then
                  let* kinematic_state := member kinematic_state_ in
                  let* v := defined (getJointVelocities kinematic_state joint) in
                  let* new_joint_traj :=
                    store_in_first_point velocities set_velocities c v new_joint_traj in
                  ret (inr new_joint_traj)
                else ret (inl new_joint_traj)
              else ret (inl new_joint_traj)) new_joint_traj
          else ret new_joint_traj in
        (* Halt if we're past a joint margin and joint velocity is moving
           even farther past *)
        let* original := member original_joint_state_ in
        let* joint_angle :=
          for_break 0 (length (name original)) (λ c joint_angle,
            let* nm := defined (name original !! c) in
            if decide (nm = getName joint) then
              let* a := defined (position original !! c) in
              ret (inr a)
            else ret (inl joint_angle)) 0%float in
        let* kinematic_state := member kinematic_state_ in
        if negb (satisfiesPositionBounds kinematic_state joint (- joint_limit_margin p)%float)
        then
          let limits := getVariableBoundsMsg joint in
          (* Joint limits are not defined for some joints. Skip them. *)
          match limits with
          | [] => ret (halting, new_joint_traj)
          | limits_0 :: _ =>
              let* v := defined (getJointVelocities kinematic_state joint) in
              if ((v <? 0)%float
                  && (joint_angle <? min_position limits_0 + joint_limit_margin p)%float)
                 || (gtb v 0
                     && gtb joint_angle (max_position limits_0 - joint_limit_margin p)%float)
              then
                ros_log Warn (getName joint +:+ " close to a position limit. Halting.") ;;;
                ret (true, new_joint_traj)
              else ret (halting, new_joint_traj)
          end
        else ret (halting, new_joint_traj)) (halting, new_joint_traj) in
    ret (negb halting, new_joint_traj).

(** [JogCalcs::convertDeltasToOutgoingCmd] *)
Definition convertDeltasToOutgoingCmd : Jog bool :=
  let* joint_state := member joint_state_ in
  let* delta_theta := member delta_theta_ in
  let* (ok, joint_state) := addJointIncrements joint_state delta_theta in
  assign (set_joint_state_ joint_state) ;;;
  if negb ok then ret false
  else
    let* joint_state := lowPassFilterPositions joint_state in
    assign (set_joint_state_ joint_state) ;;;
    (* Calculate joint velocities here so that positions are filtered and
       SRDF bounds still get checked *)
    let* joint_state := calculateJointVelocities joint_state delta_theta in
    assign (set_joint_state_ joint_state) ;;;
    let* outgoing := composeJointTrajMessage joint_state in
    assign (set_outgoing_command_ outgoing) ;;;
    let* (within, outgoing) := enforceSRDFJointBounds outgoing in
    assign (set_outgoing_command_ outgoing) ;;;
    (if negb within then
       let* outgoing := suddenHalt outgoing in
       assign (set_outgoing_command_ outgoing) ;;;
       assign (set_has_warning_ true)
     else ret tt) ;;;
    let* has_warning := member has_warning_ in
    publishWarning has_warning ;;;
    assign (set_has_warning_ false) ;;;
    (* done with calculations *)
    let* p := member parameters_ in
    (if use_gazebo p then
       let* outgoing := member outgoing_command_ in
       let* count := member gazebo_redundant_message_count_ in
       let* outgoing := insertRedundantPointsIntoTrajectory outgoing count in
       assign (set_outgoing_command_ outgoing)
     else ret tt) ;;;
    ret true.

(** The drift loop of [JogCalcs::cartesianJogCalcs]: remove the Jacobian
    rows corresponding to True in [shared_variables.drift_dimensions],
    working backwards from [dimension = jacobian.rows()] down to 0.  Each
    pass first reads [drift_dimensions[dimension]]. *)
Definition removeDriftDimensions (jacobian : MatrixXd) (delta_x : VectorXd)
  : Jog (MatrixXd * VectorXd) :=
  for_down (rows jacobian) (λ dimension '(jacobian, delta_x),
    let* drifts := shared drift_dimensions in
    let* drift := defined (drifts !! dimension) in
    if drift && bool_decide (1 < rows jacobian)%nat then
      removeDimension jacobian delta_x dimension
    else ret (jacobian, delta_x)) (jacobian, delta_x).

Definition any_of (f : double → bool) (t : Twist) : bool :=
  f (x (linear_ t)) || f (y (linear_ t)) || f (z (linear_ t))
  || f (x (angular t)) || f (y (angular t)) || f (z (angular t)).

(** [JogCalcs::cartesianJogCalcs]: perform the jogging calculations.  The
    command is the caller's copy of the shared one. *)
Definition cartesianJogCalcs (cmd : TwistStamped) : Jog bool :=
  let* p := member parameters_ in
  (* Check for nan's in the incoming command *)
  if any_of isnan (twist cmd) then
    ros_log Warn "nan in incoming command. Skipping this datapoint." ;;;
    ret false
  (* If incoming commands should be in the range [-1:1], check for |delta|>1 *)
  else if bool_decide (command_in_type p = "unitless")
          && any_of (λ c, gtb (fabs c) 1) (twist cmd) then
    ros_log Warn "Component of incoming command is >1. Skipping this datapoint." ;;;
    ret false
  else
    (* Transform the command to the MoveGroup planning frame *)
    let* cmd :=
      if decide (frame_id (ts_header cmd) ≠ planning_frame p) then
        let translation_vector :=
          [x (linear_ (twist cmd)); y (linear_ (twist cmd)); z (linear_ (twist cmd))] in
        let angular_vector :=
          [x (angular (twist cmd)); y (angular (twist cmd)); z (angular (twist cmd))] in
        let* tf := member tf_moveit_to_cmd_frame_ in
        let translation_vector := mat_vec (linear tf) translation_vector in
        let angular_vector := mat_vec (linear tf) angular_vector in
        (* Put these components back into a TwistStamped *)
        let* t0 := defined (translation_vector !! 0%nat) in
        let* t1 := defined (translation_vector !! 1%nat) in
        let* t2 := defined (translation_vector !! 2%nat) in
        let* a0 := defined (angular_vector !! 0%nat) in
        let* a1 := defined (angular_vector !! 1%nat) in
        let* a2 := defined (angular_vector !! 2%nat) in
        ret {| ts_header := {| frame_id := planning_frame p;
                               stamp := stamp (ts_header cmd) |};
               twist := {| linear_ := {| x := t0; y := t1; z := t2 |};
                           angular := {| x := a0; y := a1; z := a2 |} |} |}
      else ret cmd in
    let* delta_x := scaleCartesianCommand cmd in
    (* Convert from cartesian commands to joint commands *)
    let* kinematic_state := member kinematic_state_ in
    let jacobian := getJacobian kinematic_state in
    (* May allow some dimensions to drift, based on
       shared_variables.drift_dimensions *)
    let* (jacobian, delta_x) := removeDriftDimensions jacobian delta_x in
    let svd := JacobiSVD true jacobian in
    let matrix_s := asDiagonal (singularValues svd) in
    let pseudo_inverse :=
      mat_mul (mat_mul (matrixV svd) (inverse matrix_s)) (transpose (matrixU svd)) in
    assign (set_delta_theta_ (mat_vec pseudo_inverse delta_x)) ;;;
    (* If close to a collision or a singularity, decelerate *)
    let* singularity_scale :=
      velocityScalingFactorForSingularity delta_x svd jacobian pseudo_inverse in
    let* delta_theta := member delta_theta_ in
    let* (moving, delta_theta) := applyVelocityScaling delta_theta singularity_scale in
    assign (set_delta_theta_ delta_theta) ;;;
    (if negb moving then
       assign (set_has_warning_ true) ;;;
       let* outgoing := member outgoing_command_ in
       let* outgoing := suddenHalt outgoing in
       assign (set_outgoing_command_ outgoing)
     else ret tt) ;;;
    convertDeltasToOutgoingCmd.

(** [JogCalcs::jointJogCalcs] *)
Definition jointJogCalcs (cmd : JointJog) : Jog bool :=
  (* Check for nan's or |delta|>1 in the incoming command *)
  if existsb (λ velocity, isnan velocity || gtb (fabs velocity) 1) (jj_velocities cmd) then
    ros_log Warn "nan in incoming command. Skipping this datapoint." ;;;
    ret false
  else
    (* Apply user-defined scaling *)
    let* delta_theta := scaleJointCommand cmd in
    assign (set_delta_theta_ delta_theta) ;;;
    let* joint_state := member joint_state_ in
    let* kinematic_state := member kinematic_state_ in
    assign (set_kinematic_state_ (setVariableValues joint_state kinematic_state)) ;;;
    convertDeltasToOutgoingCmd.

(** [position_filters_[i].reset(joint_state_.position[i])] for every joint. *)
Definition resetPositionFilters : Jog unit :=
  let* n := member num_joints_ in
  for_ 0 n (λ i _,
    let* filters := member position_filters_ in
    let* f := defined (filters !! i) in
    let* joint_state := member joint_state_ in
    let* p := defined (position joint_state !! i) in
    assign (set_position_filters_ (<[i := lpf_reset f p]> filters))) tt.

(** How one pass through the body of the jogging loop of
    [JogCalcs::startMainLoop] ends: in the inner wait for joints, paused by
    [halt_outgoing_jog_cmds_], left by [continue], or at its end. *)
Inductive Iteration := WaitingForJoints | Paused | Skipped | Completed.

(** The body of [while (ros::ok() && !stop_jog_loop_requested_)] in
    [JogCalcs::startMainLoop], with the loop's local counter
    [zero_velocity_count] as argument and result. *)
Definition mainLoopIteration (zero_velocity_count : Z) : Jog (Iteration * Z) :=
  (* Always update the joints and end-effector transform *)
  let* updated := updateJoints in
  if negb updated then ret (WaitingForJoints, zero_velocity_count)
  else
    let* joint_state := member joint_state_ in
    let* kinematic_state := member kinematic_state_ in
    assign (set_kinematic_state_ (setVariableValues joint_state kinematic_state)) ;;;
    (* Get the transform from MoveIt planning frame to jogging command frame *)
    let* kinematic_state := member kinematic_state_ in
    let* p := member parameters_ in
    let tf := iso_mul (iso_inverse (getGlobalLinkTransform kinematic_state (planning_frame p)))
                      (getGlobalLinkTransform kinematic_state (robot_link_command_frame p)) in
    assign (set_tf_moveit_to_cmd_frame_ tf) ;;;
    assign_shared (set_tf_moveit_to_cmd_frame tf) ;;;
    (* If paused, just keep the low-pass filters up to date with current
       joints so a jump doesn't occur when restarting *)
    let* paused := member halt_outgoing_jog_cmds_ in
    if paused then
      resetPositionFilters ;;;
      ret (Paused, zero_velocity_count)
    (* Do jogging calculations only if the robot should move, for efficiency *)
    else
      (* Flag that incoming commands are all zero. *)
      let* zero_cartesian_cmd_flag := shared zero_cartesian_cmd_flag in
      let* zero_joint_cmd_flag := shared zero_joint_cmd_flag in
      (* Prioritize cartesian jogging above joint jogging *)
      let* calculated :=
        if negb zero_cartesian_cmd_flag then
          let* cartesian_deltas := shared command_deltas in
          cartesianJogCalcs cartesian_deltas
        else if negb zero_joint_cmd_flag then
          let* joint_deltas := shared joint_command_deltas in
          jointJogCalcs joint_deltas
        else
          let* joint_state := member joint_state_ in
          let* outgoing := composeJointTrajMessage joint_state in
          assign (set_outgoing_command_ outgoing) ;;;
          ret true in
      if negb calculated then ret (Skipped, zero_velocity_count)
      else
        (* Halt if the command is stale or inputs are all zero, or commands
           were zero *)
        let* stale_command := shared command_is_stale in
        let* (zero_cartesian_cmd_flag, zero_joint_cmd_flag) :=
          if stale_command || (zero_cartesian_cmd_flag && zero_joint_cmd_flag) then
            let* outgoing := member outgoing_command_ in
            let* outgoing := suddenHalt outgoing in
            assign (set_outgoing_command_ outgoing) ;;;
            ret (true, true)
          else ret (zero_cartesian_cmd_flag, zero_joint_cmd_flag) in
        let valid_nonzero_command :=
          negb zero_cartesian_cmd_flag || negb zero_joint_cmd_flag in
        (* Send the newest target joints *)
        let* outgoing := member outgoing_command_ in
        (* If everything normal, share the new traj to be published *)
        (if valid_nonzero_command then
           assign_shared (set_outgoing_command outgoing) ;;;
           assign_shared (set_ok_to_publish true)
         (* Skip the jogging publication if all inputs have been zero for
            several cycles in a row.  num_outgoing_halt_msgs_to_publish == 0
            signifies that we should keep republishing forever. *)
         else if negb (num_outgoing_halt_msgs_to_publish p =? 0)
                 && (num_outgoing_halt_msgs_to_publish p <? zero_velocity_count) then
           assign_shared (set_ok_to_publish false)
         (* The command is invalid but we are publishing
            num_outgoing_halt_msgs_to_publish *)
         else
           assign_shared (set_outgoing_command outgoing) ;;;
           assign_shared (set_ok_to_publish true)) ;;;
        (* Store last zero-velocity message flag to prevent superfluous
           warnings.  Cartesian and joint commands must both be zero. *)
        let zero_velocity_count :=
          if zero_cartesian_cmd_flag && zero_joint_cmd_flag then
            (* Avoid overflow *)
            if zero_velocity_count <? INT_MAX then zero_velocity_count + 1
            else zero_velocity_count
          else 0 in
        ret (Completed, zero_velocity_count).

(** The condition number [sigma(0) / sigma(size - 1)] of a decomposition. *)
Definition condition_number (svd : SVD) : option double :=
  first ← singularValues svd !! 0%nat;
  last ← singularValues svd !! (length (singularValues svd) - 1)%nat;
  Some (first / last)%float.

(** The scale chosen from the dot product and the initial condition. *)
Definition ramp (p : JogArmParameters) (dot ini_condition : double) : double :=
  if gtb dot 0 then
    if gtb ini_condition (lower_singularity_threshold p)
       && (ini_condition <? hard_stop_singularity_threshold p)%float
    then (1 - (ini_condition - lower_singularity_threshold p)
              / (hard_stop_singularity_threshold p - lower_singularity_threshold p))%float
    else if gtb ini_condition (hard_stop_singularity_threshold p) then 0%float
    else 1%float
  else 1%float.

(** The speed_units form of a command: each component times the publish
    period. *)
Definition speed_units_form (p : JogArmParameters) (command : TwistStamped) : VectorXd :=
  [x (linear_ (twist command)) * publish_period p;
   y (linear_ (twist command)) * publish_period p;
   z (linear_ (twist command)) * publish_period p;
   x (angular (twist command)) * publish_period p;
   y (angular (twist command)) * publish_period p;
   z (angular (twist command)) * publish_period p]%float.

(** The unitless form of a command: each component times the publish
    period and the linear or rotational scale. *)
Definition unitless_form (p : JogArmParameters) (command : TwistStamped) : VectorXd :=
  [linear_scale p * publish_period p * x (linear_ (twist command));
   linear_scale p * publish_period p * y (linear_ (twist command));
   linear_scale p * publish_period p * z (linear_ (twist command));
   rotational_scale p * publish_period p * x (angular (twist command));
   rotational_scale p * publish_period p * y (angular (twist command));
   rotational_scale p * publish_period p * z (angular (twist command))]%float.

(** The set-up of [JogCalcs::startMainLoop] before its waiting loops: the
    flags are reset, the tracked joint state gets the names of the move
    group and [num_joints_] zeroed entries, the name map gets the index of
    each name, and one position filter is made per joint. *)
Definition startMainLoop_setup : Jog unit :=
  let* c := gets this in
  let names := getVariableNames in
  let n := length names in
  let joint_state :=
    {| name := names;
       position := resize n 0%float (position (joint_state_ c));
       velocity := resize n 0%float (velocity (joint_state_ c));
       effort := resize n 0%float (effort (joint_state_ c)) |} in
  let map :=
    foldl (λ (m : gmap string nat) '(i, nm), <[nm := i]> m)
          (joint_state_name_map_ c) (imap pair names) in
  let filters :=
    position_filters_ c ++ replicate n (lpf_new (low_pass_filter_coeff (parameters_ c))) in
  assign (λ c,
    {| parameters_ := parameters_ c; kinematic_state_ := kinematic_state_ c;
       incoming_joints_ := incoming_joints_ c; joint_state_ := joint_state;
       original_joint_state_ := original_joint_state_ c;
       joint_state_name_map_ := map;
       outgoing_command_ := outgoing_command_ c;
       position_filters_ := filters; delta_theta_ := delta_theta_ c;
       tf_moveit_to_cmd_frame_ := tf_moveit_to_cmd_frame_ c;
       num_joints_ := n;
       gazebo_redundant_message_count_ := gazebo_redundant_message_count_ c;
       has_warning_ := has_warning_ c;
       halt_outgoing_jog_cmds_ := false;
       stop_jog_loop_requested_ := false;
       is_initialized_ := false |}).

End JogCalcs.

(** * An example arm

    A six-joint arm whose Jacobian is diagonal, for running the functions on
    concrete inputs. *)

Module Example.

(** Products by left-to-right sums. *)
Definition naive_dot (a b : VectorXd) : double :=
  foldl (λ acc '(p, q), acc + p * q)%float 0%float (zip a b).

Definition naive_mat_vec (m : MatrixXd) (v : VectorXd) : VectorXd :=
  (λ r, naive_dot r v) <$> m.

Definition naive_mat_mul (a b : MatrixXd) : MatrixXd :=
  (λ r, (λ c, naive_dot r c) <$> transpose b) <$> a.

Definition identity (n : nat) : MatrixXd := asDiagonal (replicate n 1%float).

Definition diagonal (m : MatrixXd) : VectorXd :=
  omap id (imap (λ i (r : list double), r !! i) m).

(** The inverse of a diagonal matrix. *)
Definition diagonal_inverse (m : MatrixXd) : MatrixXd :=
  asDiagonal ((λ d, 1 / d)%float <$> diagonal m).

(** The singular value decomposition of a square diagonal matrix whose
    diagonal is positive and decreasing: the singular values are the
    diagonal, and U and V are identities (left empty when not asked for). *)
Definition diagonal_svd (thin : bool) (m : MatrixXd) : SVD :=
  {| singularValues := diagonal m;
     matrixU := if thin then identity (rows m) else [];
     matrixV := if thin then identity (cols m) else [] |}.

Definition rigid_inverse (t : Isometry3d) : Isometry3d :=
  {| linear := transpose (linear t);
     translation := (λ c, - c)%float <$> naive_mat_vec (transpose (linear t)) (translation t) |}.

Definition rigid_mul (a b : Isometry3d) : Isometry3d :=
  {| linear := naive_mat_mul (linear a) (linear b);
     translation := zip_with PrimFloat.add (naive_mat_vec (linear a) (translation b))
                                           (translation a) |}.

Definition eigen : EigenOps :=
  {| JacobiSVD := diagonal_svd;
     mat_mul := naive_mat_mul;
     mat_vec := naive_mat_vec;
     vec_dot := naive_dot;
     inverse := diagonal_inverse;
     iso_inverse := rigid_inverse;
     iso_mul := rigid_mul |}.

Definition joint_names_6 : list string :=
  ["joint_1"; "joint_2"; "joint_3"; "joint_4"; "joint_5"; "joint_6"].

Definition limits_3 : JointLimits := {| min_position := -3; max_position := 3 |}.

Definition joint_models_6 : list JointModel :=
  imap (λ i nm, {| getName := nm; first_variable_index := i;
                   getVariableBoundsMsg := [limits_3] |}) joint_names_6.

(** The Jacobian diag(32, 16, 8, 4, 2, 1 + theta_6). *)
Definition diagonal_jacobian (s : RobotState) : MatrixXd :=
  asDiagonal [32; 16; 8; 4; 2; 1 + default 0 (rs_position s !! 5%nat)]%float.

Definition identity_transform : Isometry3d :=
  {| linear := identity 3; translation := [0; 0; 0]%float |}.

Definition max_velocity : double := 100%float.

Definition velocity_ok (s : RobotState) (j : JointModel) : bool :=
  match getJointVelocities s j with
  | Some v => (- max_velocity <=? v)%float && (v <=? max_velocity)%float
  | None => true
  end.

Definition clamp_velocity (s : RobotState) (j : JointModel) : RobotState :=
  match getJointVelocities s j with
  | Some v =>
      let v' := if (v <? - max_velocity)%float then (- max_velocity)%float
                else if (max_velocity <? v)%float then max_velocity else v in
      {| rs_position := rs_position s;
         rs_velocity := <[first_variable_index j := v']> (rs_velocity s) |}
  | None => s
  end.

Definition position_ok (s : RobotState) (j : JointModel) (margin : double) : bool :=
  match rs_position s !! first_variable_index j, getVariableBoundsMsg j with
  | Some q, l :: _ =>
      (min_position l - margin <=? q)%float && (q <=? max_position l + margin)%float
  | _, _ => true
  end.

Definition model : RobotModel :=
  {| getVariableNames := joint_names_6;
     getJointModels := joint_models_6;
     getJacobian := diagonal_jacobian;
     getGlobalLinkTransform := λ _ _, identity_transform;
     satisfiesVelocityBounds := velocity_ok;
     enforceVelocityBounds := clamp_velocity;
     satisfiesPositionBounds := position_ok |}.

(** Modelled from the spec: a first-order low-pass filter over the last two
    measurements and the last output, whose [reset] makes the next output
    equal the value it was reset to. *)
Record Filter := {
  filter_coeff_ : double;
  previous_measurement_0 : double;
  previous_measurement_1 : double;
  previous_filtered_measurement_ : double
}.

Definition filter_new (coeff : double) : Filter :=
  {| filter_coeff_ := coeff; previous_measurement_0 := 0; previous_measurement_1 := 0;
     previous_filtered_measurement_ := 0 |}.

Definition filter_reset (f : Filter) (data : double) : Filter :=
  {| filter_coeff_ := filter_coeff_ f; previous_measurement_0 := data;
     previous_measurement_1 := data; previous_filtered_measurement_ := data |}.

Definition filter_step (f : Filter) (new_measurement : double) : double * Filter :=
  let out := (1 / (1 + filter_coeff_ f)
              * (previous_measurement_0 f + new_measurement
                 + (filter_coeff_ f - 1) * previous_filtered_measurement_ f))%float in
  (out, {| filter_coeff_ := filter_coeff_ f; previous_measurement_0 := new_measurement;
           previous_measurement_1 := previous_measurement_0 f;
           previous_filtered_measurement_ := out |}).

Definition filters : LowPassFilterOps :=
  {| LowPassFilter := Filter; lpf_new := filter_new; lpf_filter := filter_step;
     lpf_reset := filter_reset |}.

(** The duration nearest to a number of seconds, with the seconds in the
    range of an [int32]. *)
Definition nanoseconds (d : double) : option Z :=
  match FloatOps.Prim2SF d with
  | SpecFloat.S754_zero _ => Some 0
  | SpecFloat.S754_finite negative m e =>
      let magnitude :=
        if 0 <=? e then Z.pos m * 2 ^ e * 1000000000
        else (2 * (Z.pos m * 1000000000) + 2 ^ (- e)) / (2 * 2 ^ (- e)) in
      Some (if negative then - magnitude else magnitude)
  | _ => None
  end.

Definition duration_of (d : double) : option Duration :=
  ns ← nanoseconds d;
  if (- 2147483648 <=? ns / 1000000000) && (ns / 1000000000 <=? 2147483647)
  then Some {| sec := ns / 1000000000; nsec := ns mod 1000000000 |}
  else None.

Definition clock : RosTime := {| fromSec := duration_of |}.

#[local] Existing Instance eigen.
#[local] Existing Instance model.
#[local] Existing Instance filters.
#[local] Existing Instance clock.

Definition parameters : JogArmParameters :=
  {| move_group_name := "arm"; joint_topic := "joint_states";
     warning_topic := "jog_arm/warning"; planning_frame := "base_link";
     robot_link_command_frame := "tool0"; command_in_type := "speed_units";
     publish_period := 0.125; low_pass_filter_coeff := 2;
     linear_scale := 0.5; rotational_scale := 0.5; joint_scale := 0.5;
     lower_singularity_threshold := 16; hard_stop_singularity_threshold := 32;
     joint_limit_margin := 0.125; num_outgoing_halt_msgs_to_publish := 0;
     publish_joint_positions := true; publish_joint_velocities := true;
     publish_joint_accelerations := false; use_gazebo := false |}.

Definition empty_joint_state : JointState :=
  {| name := []; position := []; velocity := []; effort := [] |}.

Definition empty_trajectory : JointTrajectory :=
  {| jt_header := {| frame_id := ""; stamp := 0 |}; joint_names := []; points := [] |}.

(** The object as its constructor leaves it. *)
Definition constructed (p : JogArmParameters) : JogCalcs :=
  {| parameters_ := p;
     kinematic_state_ := {| rs_position := replicate 6 0%float;
                            rs_velocity := replicate 6 0%float |};
     incoming_joints_ := empty_joint_state;
     joint_state_ := empty_joint_state;
     original_joint_state_ := empty_joint_state;
     joint_state_name_map_ := ∅;
     outgoing_command_ := empty_trajectory;
     position_filters_ := [];
     delta_theta_ := [];
     tf_moveit_to_cmd_frame_ := identity_transform;
     num_joints_ := 0;
     gazebo_redundant_message_count_ := 30;
     has_warning_ := false;
     halt_outgoing_jog_cmds_ := false;
     stop_jog_loop_requested_ := false;
     is_initialized_ := false |}.

Definition zero_twist : TwistStamped :=
  {| ts_header := {| frame_id := "base_link"; stamp := 0 |};
     twist := {| linear_ := {| x := 0; y := 0; z := 0 |};
                 angular := {| x := 0; y := 0; z := 0 |} |} |}.

Definition no_joint_jog : JointJog :=
  {| jj_header := {| frame_id := ""; stamp := 0 |}; jj_joint_names := [];
     jj_velocities := [] |}.

(** Joint telemetry naming the six joints of the arm. *)
Definition telemetry : JointState :=
  {| name := joint_names_6;
     position := [0.5; 0.25; 0; -0.25; -0.5; 0]%float;
     velocity := []; effort := [] |}.

(** Shared variables with telemetry and no command. *)
Definition idle : JogArmShared :=
  {| command_deltas := zero_twist; joint_command_deltas := no_joint_jog;
     joints := telemetry; collision_velocity_scale := 1;
     drift_dimensions := replicate 6 false;
     outgoing_command := empty_trajectory; command_is_stale := false;
     ok_to_publish := false; zero_cartesian_cmd_flag := true;
     zero_joint_cmd_flag := true; tf_moveit_to_cmd_frame := identity_transform |}.

Definition world (p : JogArmParameters) (s : JogArmShared) : World :=
  {| this := constructed p; shared_variables := s; rosout := []; warning_pub_ := [];
     now := 1000; uninitialized := [] |}.

(** The world a computation leaves behind (the one it started in, if the
    run is undefined). *)
Definition after {A} (m : Jog A) (w : World) : World :=
  match m w with
  | Some (_, w') => w'
  | None => w
  end.

(** The arm after the set-up of the main loop. *)
Definition ready (p : JogArmParameters) (s : JogArmShared) : World :=
  after startMainLoop_setup (world p s).

(** The arm in the main loop, before the calculations of a cycle: the joints
    are read from the telemetry and copied into the kinematic state. *)
Definition at_pose (p : JogArmParameters) (s : JogArmShared) : World :=
  with_this (λ c, set_kinematic_state_
                    (setVariableValues (joint_state_ c) (kinematic_state_ c)) c)
            (after updateJoints (ready p s)).

Definition pose : World := at_pose parameters idle.

(** The Jacobian at the pose, its thin decomposition and pseudo-inverse, as
    [cartesianJogCalcs] computes them when no dimension drifts. *)
Definition jacobian_at_pose : MatrixXd := getJacobian (kinematic_state_ (this pose)).

Definition svd_at_pose : SVD := JacobiSVD true jacobian_at_pose.

Definition pseudo_inverse_at_pose : MatrixXd :=
  mat_mul (mat_mul (matrixV svd_at_pose) (inverse (asDiagonal (singularValues svd_at_pose))))
          (transpose (matrixU svd_at_pose)).

(** A commanded Cartesian velocity along the negative last axis. *)
Definition back_along_last_axis : VectorXd := [0; 0; 0; 0; 0; -1]%float.

(** A spatial command of one unit along x. *)
Definition along_x : TwistStamped :=
  {| ts_header := {| frame_id := "base_link"; stamp := 1 |};
     twist := {| linear_ := {| x := 1; y := 0; z := 0 |};
                 angular := {| x := 0; y := 0; z := 0 |} |} |}.

(** The parameters with a command type that is neither of the two known. *)
Definition mistyped : JogArmParameters :=
  {| move_group_name := "arm"; joint_topic := "joint_states";
     warning_topic := "jog_arm/warning"; planning_frame := "base_link";
     robot_link_command_frame := "tool0"; command_in_type := "metres";
     publish_period := 0.125; low_pass_filter_coeff := 2;
     linear_scale := 0.5; rotational_scale := 0.5; joint_scale := 0.5;
     lower_singularity_threshold := 16; hard_stop_singularity_threshold := 32;
     joint_limit_margin := 0.125; num_outgoing_halt_msgs_to_publish := 0;
     publish_joint_positions := true; publish_joint_velocities := true;
     publish_joint_accelerations := false; use_gazebo := false |}.

(** The arm when the jogging loop starts: joints read from the telemetry and
    the position filters reset to them. *)
Definition started (p : JogArmParameters) (s : JogArmShared) : World :=
  after resetPositionFilters (after updateJoints (ready p s)).

(** The world a pass leaves, one publish period later. *)
Definition tick (w : World) : World :=
  {| this := this w; shared_variables := shared_variables w; rosout := rosout w;
     warning_pub_ := warning_pub_ w; now := now w + 125;
     uninitialized := uninitialized w |}.

(** A joint command for the last joint. *)
Definition jog_joint_6 (v : double) : JointJog :=
  {| jj_header := {| frame_id := ""; stamp := 1 |}; jj_joint_names := ["joint_6"];
     jj_velocities := [v] |}.

(** Shared variables with a joint command for the last joint that has gone
    stale. *)
Definition stale_jog (t : JointState) (v : double) : JogArmShared :=
  {| command_deltas := zero_twist; joint_command_deltas := jog_joint_6 v;
     joints := t; collision_velocity_scale := 1;
     drift_dimensions := replicate 6 false;
     outgoing_command := empty_trajectory; command_is_stale := true;
     ok_to_publish := false; zero_cartesian_cmd_flag := true;
     zero_joint_cmd_flag := false; tf_moveit_to_cmd_frame := identity_transform |}.

(** The parameters in Gazebo mode. *)
Definition in_gazebo : JogArmParameters :=
  {| move_group_name := "arm"; joint_topic := "joint_states";
     warning_topic := "jog_arm/warning"; planning_frame := "base_link";
     robot_link_command_frame := "tool0"; command_in_type := "speed_units";
     publish_period := 0.125; low_pass_filter_coeff := 2;
     linear_scale := 0.5; rotational_scale := 0.5; joint_scale := 0.5;
     lower_singularity_threshold := 16; hard_stop_singularity_threshold := 32;
     joint_limit_margin := 0.125; num_outgoing_halt_msgs_to_publish := 0;
     publish_joint_positions := true; publish_joint_velocities := true;
     publish_joint_accelerations := false; use_gazebo := true |}.

(** The parameters for unitless commands. *)
Definition unitless : JogArmParameters :=
  {| move_group_name := "arm"; joint_topic := "joint_states";
     warning_topic := "jog_arm/warning"; planning_frame := "base_link";
     robot_link_command_frame := "tool0"; command_in_type := "unitless";
     publish_period := 0.125; low_pass_filter_coeff := 2;
     linear_scale := 0.5; rotational_scale := 0.25; joint_scale := 0.5;
     lower_singularity_threshold := 16; hard_stop_singularity_threshold := 32;
     joint_limit_margin := 0.125; num_outgoing_halt_msgs_to_publish := 0;
     publish_joint_positions := true; publish_joint_velocities := true;
     publish_joint_accelerations := false; use_gazebo := false |}.

(** The parameters with four halt messages to publish. *)
Definition four_halts : JogArmParameters :=
  {| move_group_name := "arm"; joint_topic := "joint_states";
     warning_topic := "jog_arm/warning"; planning_frame := "base_link";
     robot_link_command_frame := "tool0"; command_in_type := "speed_units";
     publish_period := 0.125; low_pass_filter_coeff := 2;
     linear_scale := 0.5; rotational_scale := 0.5; joint_scale := 0.5;
     lower_singularity_threshold := 16; hard_stop_singularity_threshold := 32;
     joint_limit_margin := 0.125; num_outgoing_halt_msgs_to_publish := 4;
     publish_joint_positions := true; publish_joint_velocities := true;
     publish_joint_accelerations := false; use_gazebo := false |}.

(** Telemetry that names two joints only. *)
Definition telemetry_of_two : JointState :=
  {| name := ["joint_1"; "joint_2"]; position := [0.5; 0.25]%float;
     velocity := []; effort := [] |}.

(** Two consecutive passes of the main loop from a start. *)
Definition first_pass (w : World) : World := after (mainLoopIteration 0) w.

Definition second_pass (w : World) : World :=
  after (mainLoopIteration 1) (tick (first_pass w)).

(** The position of the last joint in the point of index [i]. *)
Definition last_position (i : nat) (t : JointTrajectory) : double :=
  default 0%float (pt ← points t !! i; positions pt !! 5%nat).

(** The value a computation returns (a default if the run is undefined). *)
Definition value {A} (d : A) (m : Jog A) (w : World) : A :=
  match m w with
  | Some (a, _) => a
  | None => d
  end.

Definition no_locals : SingularityLocals :=
  {| vector_toward_singularity := []; ini_condition := 0; new_theta := [];
     new_condition := 0; dot := 0; velocity_scale := 0 |}.

(** A diagonal Jacobian whose largest singular value is [k], and the
    pseudo-inverse [cartesianJogCalcs] computes from a decomposition. *)
Definition stretched (k : double) : MatrixXd := asDiagonal [k; 16; 8; 4; 2; 1]%float.

Definition pseudo_inverse (svd : SVD) : MatrixXd :=
  mat_mul (mat_mul (matrixV svd) (inverse (asDiagonal (singularValues svd))))
          (transpose (matrixU svd)).

(** The singularity scaling for the stretched Jacobian at the pose. *)
Definition scaling (k : double) (cv : VectorXd) : Jog SingularityLocals :=
  velocityScalingFactorForSingularity_body cv (JacobiSVD true (stretched k))
    (stretched k) (pseudo_inverse (JacobiSVD true (stretched k))).

(** A commanded Cartesian velocity along the positive last axis. *)
Definition forth_along_last_axis : VectorXd := [0; 0; 0; 0; 0; 1]%float.

(** A point without entries. *)
Definition no_point : JointTrajectoryPoint :=
  {| positions := []; velocities := []; accelerations := [];
     time_from_start := {| sec := 0; nsec := 0 |} |}.

(** The arm after a first pass that halts on a stale joint command, in
    Gazebo mode and outside it. *)
Definition halted_in_gazebo : World :=
  first_pass (started in_gazebo (stale_jog telemetry 0.5%float)).

Definition halted : World :=
  first_pass (started parameters (stale_jog telemetry 0.5%float)).

(** The halted arm with a kinematic state whose first and last joints move
    at twice the velocity bound. *)
Definition racing : World :=
  with_this (λ c, set_kinematic_state_
                    {| rs_position := rs_position (kinematic_state_ c);
                       rs_velocity := [200; 0; 0; 0; 0; 200]%float |} c)
            halted.

(** The arm at the pose with the mistyped command type, where the storage
    of a vector that is not initialised holds [u]. *)
Definition mistyped_holding (u : list double) : World :=
  let w := at_pose mistyped idle in
  {| this := this w; shared_variables := shared_variables w; rosout := rosout w;
     warning_pub_ := warning_pub_ w; now := now w; uninitialized := u |}.

(** Shared variables with a Cartesian command that has a NaN component. *)
Definition nan_twist : JogArmShared :=
  {| command_deltas :=
       {| ts_header := {| frame_id := "base_link"; stamp := 1 |};
          twist := {| linear_ := {| x := nan; y := 0; z := 0 |};
                      angular := {| x := 0; y := 0; z := 0 |} |} |};
     joint_command_deltas := no_joint_jog;
     joints := telemetry; collision_velocity_scale := 1;
     drift_dimensions := replicate 6 false;
     outgoing_command := empty_trajectory; command_is_stale := false;
     ok_to_publish := false; zero_cartesian_cmd_flag := false;
     zero_joint_cmd_flag := true; tf_moveit_to_cmd_frame := identity_transform |}.

End Example.

(** * Notions used in the statements

    The relations between the world before and after a computation, and
    the shapes of joint states and trajectory points, that the properties
    below are stated with. *)

Section Notions.

Context `{!EigenOps, !RobotModel, !LowPassFilterOps, !RosTime}.

(** A computation preserves a relation when every defined run relates the
    world it starts in to the world it leaves. *)
Definition preserves {A} (R : relation World) (m : Jog A) : Prop :=
  ∀ w a w', m w = Some (a, w') → R w w'.

(** The settings of a run: what no calculation of a cycle changes. *)
Record steady (w w' : World) : Prop := {
  steady_parameters : parameters_ (this w') = parameters_ (this w);
  steady_num_joints : num_joints_ (this w') = num_joints_ (this w);
  steady_name_map : joint_state_name_map_ (this w') = joint_state_name_map_ (this w);
  steady_count :
    gazebo_redundant_message_count_ (this w') = gazebo_redundant_message_count_ (this w);
  steady_paused : halt_outgoing_jog_cmds_ (this w') = halt_outgoing_jog_cmds_ (this w);
  steady_original : original_joint_state_ (this w') = original_joint_state_ (this w);
  steady_shared : shared_variables w' = shared_variables w;
  steady_now : now w' = now w;
  steady_uninitialized : uninitialized w' = uninitialized w
}.

(** The configuration of a run: the settings without the snapshot, which
    [updateJoints] refreshes. *)
Record configured (w w' : World) : Prop := {
  configured_parameters : parameters_ (this w') = parameters_ (this w);
  configured_num_joints : num_joints_ (this w') = num_joints_ (this w);
  configured_name_map : joint_state_name_map_ (this w') = joint_state_name_map_ (this w);
  configured_count :
    gazebo_redundant_message_count_ (this w') = gazebo_redundant_message_count_ (this w);
  configured_paused : halt_outgoing_jog_cmds_ (this w') = halt_outgoing_jog_cmds_ (this w);
  configured_shared : shared_variables w' = shared_variables w;
  configured_now : now w' = now w;
  configured_uninitialized : uninitialized w' = uninitialized w
}.

(** What the calculations before [convertDeltasToOutgoingCmd] leave alone:
    the settings and the tracked joint state. *)
Record still (w w' : World) : Prop := {
  still_steady : steady w w';
  still_joint_state : joint_state_ (this w') = joint_state_ (this w)
}.

(** What [updateJoints] leaves alone in the object. *)
Definition tracked_frame (w w' : World) : Prop :=
  name (joint_state_ (this w')) = name (joint_state_ (this w))
  ∧ velocity (joint_state_ (this w')) = velocity (joint_state_ (this w))
  ∧ effort (joint_state_ (this w')) = effort (joint_state_ (this w))
  ∧ length (position (joint_state_ (this w'))) = length (position (joint_state_ (this w))).

(** A telemetry message with a position for each name, and a name map that
    points into the tracked positions. *)
Definition readable_telemetry (w : World) : Prop :=
  (length (name (joints (shared_variables w)))
   ≤ length (position (joints (shared_variables w))))%nat
  ∧ ∀ nm c, joint_state_name_map_ (this w) !! nm = Some c →
            (c < length (position (joint_state_ (this w))))%nat.

(** The trajectory point of a halt: the snapshot as positions, zero
    velocities, each when published, and the point's other fields as
    [composeJointTrajMessage] fills them. *)
Definition halt_point (p : JogArmParameters) (n : nat) (snapshot : list double)
  : JointTrajectoryPoint :=
  {| positions := if publish_joint_positions p then snapshot else [];
     velocities := if publish_joint_velocities p then replicate n 0%float else [];
     accelerations := if publish_joint_accelerations p then replicate n 0%float else [];
     time_from_start :=
       default {| sec := 0; nsec := 0 |} (fromSec (publish_period p)) |}.

(** A point as the calculations stage it for [n] joints: its vectors have an
    entry per joint when they are published and none otherwise. *)
Definition staged (p : JogArmParameters) (n : nat) (pt : JointTrajectoryPoint) : Prop :=
  length (positions pt) = (if publish_joint_positions p then n else 0)%nat
  ∧ length (velocities pt) = (if publish_joint_velocities p then n else 0)%nat
  ∧ accelerations pt = (if publish_joint_accelerations p then replicate n 0%float else [])
  ∧ fromSec (publish_period p) = Some (time_from_start pt).

(** The tracked joint state has an entry per joint. *)
Definition sized (w : World) : Prop :=
  length (position (joint_state_ (this w))) = num_joints_ (this w)
  ∧ length (velocity (joint_state_ (this w))) = num_joints_ (this w).

(** Two trajectories whose first points differ at most in the values of
    their velocities, and whose later points are the same. *)
Definition same_but_velocities (t t' : JointTrajectory) : Prop :=
  ∀ pt rest, points t = pt :: rest →
    ∃ pt', points t' = pt' :: rest
           ∧ positions pt' = positions pt
           ∧ length (velocities pt') = length (velocities pt)
           ∧ accelerations pt' = accelerations pt
           ∧ time_from_start pt' = time_from_start pt.

(** Two joint states with the same names and as many entries. *)
Definition same_sizes (j j' : JointState) : Prop :=
  name j' = name j
  ∧ length (position j') = length (position j)
  ∧ length (velocity j') = length (velocity j).

(** What [convertDeltasToOutgoingCmd] leaves: the settings are unchanged,
    the tracked joint state still has an entry per joint, and the outgoing
    command starts with a staged point, followed by more points only in
    Gazebo mode. *)
Definition calculated (w w' : World) : Prop :=
  steady w w'
  ∧ sized w'
  ∧ ∃ pt rest,
      points (outgoing_command_ (this w')) = pt :: rest
      ∧ staged (parameters_ (this w)) (num_joints_ (this w)) pt
      ∧ (use_gazebo (parameters_ (this w)) = false → rest = []).

(** The writes of the loop of [updateJoints] as a function of the message:
    for the names from index [m] on, the position reported for a name that
    the map knows is stored at the name's index. *)
Fixpoint telemetry_writes (map : gmap string nat) (names : list string) (m : nat)
    (reported : list double) (tracked : list double) : list double :=
  match names with
  | [] => tracked
  | nm :: names' =>
      telemetry_writes map names' (Datatypes.S m) reported
        match map !! nm, reported !! m with
        | Some c, Some q => <[c:=q]> tracked
        | _, _ => tracked
        end
  end.

(** Index [c] is the target of one of those writes. *)
Definition written (map : gmap string nat) (names : list string) (m : nat)
    (reported : list double) (c : nat) : Prop :=
  ∃ k nm q, names !! k = Some nm ∧ map !! nm = Some c ∧ reported !! (m + k)%nat = Some q.

(** The main loop halts in a pass: the command is stale or both zero flags
    are set. *)
Definition both_zero (s : JogArmShared) : bool :=
  zero_cartesian_cmd_flag s && zero_joint_cmd_flag s.

(** The main loop halts in a pass. *)
Definition halts (s : JogArmShared) : bool := command_is_stale s || both_zero s.

(** The telemetry message of the shared variables reports a position for
    the joint of index [c]. *)
Definition reported (w : World) (c : nat) : Prop :=
  written (joint_state_name_map_ (this w)) (name (joints (shared_variables w))) 0
          (position (joints (shared_variables w))) c.

(** The points [insertRedundantPointsIntoTrajectory] appends for a count:
    copies of a point whose time from start is the duration of
    i * publish_period for i = 2 .. count, if each of these is one. *)
Definition redundant_points (p : JogArmParameters) (point : JointTrajectoryPoint)
    (count : Z) : option (list JointTrajectoryPoint) :=
  mapM (λ i : nat,
          t ← fromSec (of_int (Z.of_nat i) * publish_period p)%float;
          Some (set_time_from_start t point))
       (seq 2 (Z.to_nat (count - 1))).

(** Two trajectories that differ at most in velocities of the first point
    other than the last one it holds. *)
Definition limited (t t' : JointTrajectory) : Prop :=
  jt_header t' = jt_header t
  ∧ joint_names t' = joint_names t
  ∧ ∀ pt rest, points t = pt :: rest →
      ∃ pt', points t' = pt' :: rest
             ∧ positions pt' = positions pt
             ∧ accelerations pt' = accelerations pt
             ∧ time_from_start pt' = time_from_start pt
             ∧ length (velocities pt') = length (velocities pt)
             ∧ ∀ c, (length (velocities pt) ≤ c + 1)%nat →
                    velocities pt' !! c = velocities pt !! c.

(** What a pass that ends before its calculations leaves alone: the staged
    command, the pause flag, the parameters, and the commands and flags of
    the shared variables. *)
Record quiet (w w' : World) : Prop := {
  quiet_outgoing : outgoing_command_ (this w') = outgoing_command_ (this w);
  quiet_paused : halt_outgoing_jog_cmds_ (this w') = halt_outgoing_jog_cmds_ (this w);
  quiet_parameters : parameters_ (this w') = parameters_ (this w);
  quiet_ok : ok_to_publish (shared_variables w') = ok_to_publish (shared_variables w);
  quiet_shared_outgoing :
    outgoing_command (shared_variables w') = outgoing_command (shared_variables w);
  quiet_stale : command_is_stale (shared_variables w') = command_is_stale (shared_variables w);
  quiet_zero_cartesian :
    zero_cartesian_cmd_flag (shared_variables w') = zero_cartesian_cmd_flag (shared_variables w);
  quiet_zero_joint :
    zero_joint_cmd_flag (shared_variables w') = zero_joint_cmd_flag (shared_variables w);
  quiet_joint_command :
    joint_command_deltas (shared_variables w') = joint_command_deltas (shared_variables w);
  quiet_command : command_deltas (shared_variables w') = command_deltas (shared_variables w)
}.

(** What the steps of [convertDeltasToOutgoingCmd] leave alone of the
    warning: the topic and the flag. *)
Record unwarned (w w' : World) : Prop := {
  unwarned_topic : warning_pub_ w' = warning_pub_ w;
  unwarned_flag : has_warning_ (this w') = has_warning_ (this w)
}.

End Notions.

(** * Properties *)

Section Properties.

Context `{!EigenOps, !RobotModel, !LowPassFilterOps, !RosTime}.

(** ** Running a computation: inversion of the monad's operations *)

Lemma bind_inv {A B} (m : Jog A) (k : A → Jog B) w r :
  bind m k w = Some r → ∃ a w1, m w = Some (a, w1) ∧ k a w1 = Some r.
Proof.
  unfold bind. destruct (m w) as [[a w1]|]; [|discriminate].
  intros Hk. by exists a, w1.
Qed.

Lemma ret_inv {A} (a b : A) w w' : ret a w = Some (b, w') → b = a ∧ w' = w.
Proof. unfold ret. by intros [= -> ->]. Qed.

Lemma gets_inv {A} (f : World → A) w a w' : gets f w = Some (a, w') → a = f w ∧ w' = w.
Proof. unfold gets. by intros [= <- <-]. Qed.

Lemma modify_inv (f : World → World) w u w' : modify f w = Some (u, w') → w' = f w.
Proof. unfold modify. by intros [= <-]. Qed.

Lemma defined_inv {A} (o : option A) w a w' : defined o w = Some (a, w') → o = Some a ∧ w' = w.
Proof. destruct o; simpl; [|discriminate]. unfold ret. by intros [= -> ->]. Qed.

Lemma store_inv {A} (i : nat) (v : A) l w l' w' :
  store i v l w = Some (l', w') → (i < length l)%nat ∧ l' = <[i:=v]> l ∧ w' = w.
Proof.
  unfold store. case_decide; [|discriminate]. unfold ret. by intros [= <- <-].
Qed.

(** Projections of assignments. *)
Ltac jog_simpl :=
  cbn [this shared_variables rosout warning_pub_ now uninitialized
       with_this with_shared with_rosout with_warning_pub
       parameters_ kinematic_state_ incoming_joints_ joint_state_
       original_joint_state_ joint_state_name_map_ outgoing_command_
       position_filters_ delta_theta_ tf_moveit_to_cmd_frame_ num_joints_
       gazebo_redundant_message_count_ has_warning_ halt_outgoing_jog_cmds_
       stop_jog_loop_requested_ is_initialized_
       set_kinematic_state_ set_incoming_joints_ set_joint_state_
       set_original_joint_state_ set_outgoing_command_ set_position_filters_
       set_delta_theta_ set_tf_moveit_to_cmd_frame_ set_has_warning_
       command_deltas joint_command_deltas joints collision_velocity_scale
       drift_dimensions outgoing_command command_is_stale ok_to_publish
       zero_cartesian_cmd_flag zero_joint_cmd_flag tf_moveit_to_cmd_frame
       set_outgoing_command set_ok_to_publish set_tf_moveit_to_cmd_frame
       name position velocity effort set_position set_velocity
       positions velocities accelerations time_from_start
       set_positions set_velocities set_accelerations set_time_from_start
       jt_header joint_names points set_points
       rs_position rs_velocity setJointGroupPositions copyJointGroupPositions
       fst snd] in *.

(** One step of symbolic execution of a hypothesis [m w = Some r]. *)
Ltac jog_inv :=
  match goal with
  | H : bind _ _ _ = Some _ |- _ =>
      let a := fresh "a" in let w := fresh "w" in let E := fresh "E" in
      apply bind_inv in H; destruct H as (a & w & E & H)
  | H : ret _ _ = Some _ |- _ => apply ret_inv in H; destruct H; simplify_eq
  | H : member _ _ = Some _ |- _ => apply gets_inv in H; destruct H; subst
  | H : shared _ _ = Some _ |- _ => apply gets_inv in H; destruct H; subst
  | H : gets _ _ = Some _ |- _ => apply gets_inv in H; destruct H; subst
  | H : uninitialized_vector _ _ = Some _ |- _ => apply gets_inv in H; destruct H; subst
  | H : assign _ _ = Some _ |- _ => apply modify_inv in H; subst
  | H : assign_shared _ _ = Some _ |- _ => apply modify_inv in H; subst
  | H : ros_log _ _ _ = Some _ |- _ => apply modify_inv in H; subst
  | H : publishWarning _ _ = Some _ |- _ => apply modify_inv in H; subst
  | H : modify _ _ = Some _ |- _ => apply modify_inv in H; subst
  | H : defined _ _ = Some _ |- _ => apply defined_inv in H; destruct H; subst
  | H : store _ _ _ _ = Some _ |- _ =>
      let L := fresh "L" in apply store_inv in H; destruct H as (L & ? & ?); subst
  | H : undefined _ = Some _ |- _ => discriminate H
  | H : (let '(_, _) := ?p in _) _ = Some _ |- _ => destruct p
  end.

(** Case analysis on a conditional that is being run. *)
Ltac jog_if :=
  match goal with
  | H : (if ?c then _ else _) _ = Some _ |- _ => destruct c eqn:?
  end.

Ltac jog_run := repeat first [jog_inv | jog_if].

(** ** Loops: invariants and definedness *)

Lemma for_invariant {S} (I : S → World → Prop) (body : nat → S → Jog S) count :
  (∀ i s w s' w', I s w → body i s w = Some (s', w') → I s' w') →
  ∀ lo s w s' w', I s w → for_ lo count body s w = Some (s', w') → I s' w'.
Proof.
  intros Hbody. induction count as [|count IH]; simpl; intros lo s w s' w' HI Hrun.
  - by jog_inv.
  - jog_inv. eapply IH; [|eassumption]. eauto.
Qed.

Lemma for_invariant_indexed {S} (I : nat → S → World → Prop) (body : nat → S → Jog S) count :
  (∀ i s w s' w', I i s w → body i s w = Some (s', w') → I (Datatypes.S i) s' w') →
  ∀ lo s w s' w', I lo s w → for_ lo count body s w = Some (s', w') →
                  I (lo + count)%nat s' w'.
Proof.
  intros Hbody. induction count as [|count IH]; simpl; intros lo s w s' w' HI Hrun.
  - jog_inv. by rewrite Nat.add_0_r.
  - jog_inv. replace (lo + Datatypes.S count)%nat with (Datatypes.S lo + count)%nat by lia.
    eapply IH; [|eassumption]. eauto.
Qed.

Lemma for_defined {S} (I : S → World → Prop) (body : nat → S → Jog S) count :
  ∀ lo s w,
    (∀ i s w, (lo ≤ i < lo + count)%nat → I s w →
       ∃ s' w', body i s w = Some (s', w') ∧ I s' w') →
    I s w → ∃ s' w', for_ lo count body s w = Some (s', w') ∧ I s' w'.
Proof.
  induction count as [|count IH]; simpl; intros lo s w Hbody HI.
  - by exists s, w.
  - destruct (Hbody lo s w) as (s1 & w1 & E & HI1); [lia|done|].
    unfold bind. rewrite E. apply IH; [|done].
    intros i s2 w2 Hi. apply Hbody. lia.
Qed.

Lemma for_each_invariant {A S} (I : S → World → Prop) (body : A → S → Jog S) l :
  (∀ a s w s' w', I s w → body a s w = Some (s', w') → I s' w') →
  ∀ s w s' w', I s w → for_each l body s w = Some (s', w') → I s' w'.
Proof.
  intros Hbody. induction l as [|a l IH]; simpl; intros s w s' w' HI Hrun.
  - by jog_inv.
  - jog_inv. eapply IH; [|eassumption]. eauto.
Qed.

Lemma for_break_invariant {S} (I : S → World → Prop) (body : nat → S → Jog (S + S)) count :
  (∀ i s w r w', I s w → body i s w = Some (r, w') →
     match r with inl s' | inr s' => I s' w' end) →
  ∀ lo s w s' w', I s w → for_break lo count body s w = Some (s', w') → I s' w'.
Proof.
  intros Hbody. induction count as [|count IH]; simpl; intros lo s w s' w' HI Hrun.
  - by jog_inv.
  - jog_inv.
    match goal with E : body _ _ _ = Some _ |- _ => apply Hbody in E; [|done] end.
    destruct a as [s1|s1].
    + eapply IH; eassumption.
    + by jog_inv.
Qed.

Lemma for_down_invariant {S} (I : S → World → Prop) (body : nat → S → Jog S) :
  (∀ i s w s' w', I s w → body i s w = Some (s', w') → I s' w') →
  ∀ hi s w s' w', I s w → for_down hi body s w = Some (s', w') → I s' w'.
Proof.
  intros Hbody. induction hi as [|hi IH]; simpl; intros s w s' w' HI Hrun.
  - repeat jog_inv. eauto.
  - jog_inv. eapply IH; [|eassumption]. eauto.
Qed.

(** ** What the calculations leave alone *)

Section Preserves.

Context (R : relation World) `{!PreOrder R}.

Lemma preserves_bind {A B} (m : Jog A) (k : A → Jog B) :
  preserves R m → (∀ a, preserves R (k a)) → preserves R (bind m k).
Proof.
  intros Hm Hk w b w' Hrun. jog_inv. etrans; [by eapply Hm|by eapply Hk].
Qed.

Lemma preserves_ret {A} (a : A) : preserves R (ret a).
Proof. intros w b w' Hrun. by jog_inv. Qed.

Lemma preserves_gets {A} (f : World → A) : preserves R (gets f).
Proof. intros w b w' Hrun. by jog_inv. Qed.

Lemma preserves_defined {A} (o : option A) : preserves R (defined o).
Proof. intros w b w' Hrun. by jog_inv. Qed.

Lemma preserves_undefined {A} : preserves R (undefined : Jog A).
Proof. intros w b w' Hrun. by jog_inv. Qed.

Lemma preserves_store {A} i (v : A) l : preserves R (store i v l).
Proof. intros w b w' Hrun. by jog_inv. Qed.

Lemma preserves_modify (f : World → World) :
  (∀ w, R w (f w)) → preserves R (modify f).
Proof. intros Hf w b w' Hrun. jog_inv. apply Hf. Qed.

Lemma preserves_for {S} lo count (body : nat → S → Jog S) s :
  (∀ i s, preserves R (body i s)) → preserves R (for_ lo count body s).
Proof.
  intros Hbody w s' w' Hrun.
  eapply (for_invariant (λ _ w1, R w w1)); [|reflexivity|exact Hrun].
  intros i s1 w1 s2 w2 Hw Hstep. etrans; [exact Hw|by eapply Hbody].
Qed.

Lemma preserves_for_each {A S} (l : list A) (body : A → S → Jog S) s :
  (∀ a s, preserves R (body a s)) → preserves R (for_each l body s).
Proof.
  intros Hbody w s' w' Hrun.
  eapply (for_each_invariant (λ _ w1, R w w1)); [|reflexivity|exact Hrun].
  intros i s1 w1 s2 w2 Hw Hstep. etrans; [exact Hw|by eapply Hbody].
Qed.

Lemma preserves_for_break {S} lo count (body : nat → S → Jog (S + S)) s :
  (∀ i s, preserves R (body i s)) → preserves R (for_break lo count body s).
Proof.
  intros Hbody w s' w' Hrun.
  eapply (for_break_invariant (λ _ w1, R w w1)); [|reflexivity|exact Hrun].
  intros i s1 w1 r w2 Hw Hstep.
  assert (R w w2) by (etrans; [exact Hw|by eapply Hbody]). by destruct r.
Qed.

Lemma preserves_for_down {S} hi (body : nat → S → Jog S) s :
  (∀ i s, preserves R (body i s)) → preserves R (for_down hi body s).
Proof.
  intros Hbody w s' w' Hrun.
  eapply (for_down_invariant (λ _ w1, R w w1)); [|reflexivity|exact Hrun].
  intros i s1 w1 s2 w2 Hw Hstep. etrans; [exact Hw|by eapply Hbody].
Qed.

End Preserves.

(** Decompose a goal [preserves R m] along the syntax of [m]; calls of
    member functions are left to the hints in [jog]. *)
Create HintDb jog discriminated.

Ltac preserves_step side :=
  lazymatch goal with
  | |- preserves _ (bind _ _) => apply preserves_bind; [apply _| |intros ?]
  | |- preserves _ (ret _) => apply preserves_ret; apply _
  | |- preserves _ (gets _) => apply preserves_gets; apply _
  | |- preserves _ (member _) => apply preserves_gets; apply _
  | |- preserves _ (shared _) => apply preserves_gets; apply _
  | |- preserves _ (uninitialized_vector _) => apply preserves_gets; apply _
  | |- preserves _ (defined _) => apply preserves_defined; apply _
  | |- preserves _ undefined => apply preserves_undefined; apply _
  | |- preserves _ (store _ _ _) => apply preserves_store; apply _
  | |- preserves _ (modify _) => apply preserves_modify; intros ?; side
  | |- preserves _ (assign _) => unfold assign; apply preserves_modify; intros ?; side
  | |- preserves _ (assign_shared _) => unfold assign_shared; apply preserves_modify; intros ?; side
  | |- preserves _ (ros_log _ _) => unfold ros_log; apply preserves_modify; intros ?; side
  | |- preserves _ (publishWarning _) => unfold publishWarning; apply preserves_modify; intros ?; side
  | |- preserves _ (for_ _ _ _ _) => apply preserves_for; [apply _|]; intros ? ?
  | |- preserves _ (for_each _ _ _) => apply preserves_for_each; [apply _|]; intros ? ?
  | |- preserves _ (for_break _ _ _ _) => apply preserves_for_break; [apply _|]; intros ? ?
  | |- preserves _ (for_down _ _ _) => apply preserves_for_down; [apply _|]; intros ? ?
  | |- preserves _ (if ?c then _ else _) => destruct c
  | |- preserves _ (match ?v with _ => _ end) => destruct v
  | |- preserves _ _ => solve [eauto with jog]
  end.

Ltac preserves_tac side := repeat preserves_step side.

#[local] Instance steady_preorder : PreOrder steady.
Proof.
  split.
  - by intros w.
  - intros w1 w2 w3 [] []. split; congruence.
Qed.

Ltac steady_side := by split.

Ltac steady_tac := preserves_tac steady_side.

Lemma scaleCartesianCommand_steady cmd : preserves steady (scaleCartesianCommand cmd).
Proof. unfold scaleCartesianCommand. steady_tac. Qed.

Lemma scaleJointCommand_steady cmd : preserves steady (scaleJointCommand cmd).
Proof. unfold scaleJointCommand. steady_tac. Qed.

Lemma addJointIncrements_steady out inc : preserves steady (addJointIncrements out inc).
Proof. unfold addJointIncrements. steady_tac. Qed.

Lemma removeDimension_steady j d r : preserves steady (removeDimension j d r).
Proof. unfold removeDimension, shift_up, conservativeResize. steady_tac. Qed.

#[local] Hint Resolve scaleCartesianCommand_steady scaleJointCommand_steady
  addJointIncrements_steady removeDimension_steady : jog.

Lemma removeDriftDimensions_steady j d : preserves steady (removeDriftDimensions j d).
Proof. unfold removeDriftDimensions. steady_tac. Qed.

Lemma insertRedundantPointsIntoTrajectory_steady t c :
  preserves steady (insertRedundantPointsIntoTrajectory t c).
Proof. unfold insertRedundantPointsIntoTrajectory. steady_tac. Qed.

Lemma lowPassFilterPositions_steady js : preserves steady (lowPassFilterPositions js).
Proof. unfold lowPassFilterPositions. steady_tac. Qed.

Lemma calculateJointVelocities_steady js d :
  preserves steady (calculateJointVelocities js d).
Proof. unfold calculateJointVelocities. steady_tac. Qed.

Lemma composeJointTrajMessage_steady js : preserves steady (composeJointTrajMessage js).
Proof. unfold composeJointTrajMessage. steady_tac. Qed.

Lemma applyVelocityScaling_steady d s : preserves steady (applyVelocityScaling d s).
Proof. unfold applyVelocityScaling. steady_tac. Qed.

Lemma velocityScalingFactorForSingularity_steady cv svd j pinv :
  preserves steady (velocityScalingFactorForSingularity cv svd j pinv).
Proof.
  unfold velocityScalingFactorForSingularity, velocityScalingFactorForSingularity_body.
  steady_tac.
Qed.

Lemma suddenHalt_steady t : preserves steady (suddenHalt t).
Proof. unfold suddenHalt, store_in_first_point. steady_tac. Qed.

Lemma enforceSRDFJointBounds_steady t : preserves steady (enforceSRDFJointBounds t).
Proof. unfold enforceSRDFJointBounds, store_in_first_point. steady_tac. Qed.

#[local] Hint Resolve removeDriftDimensions_steady
  insertRedundantPointsIntoTrajectory_steady lowPassFilterPositions_steady
  calculateJointVelocities_steady composeJointTrajMessage_steady
  applyVelocityScaling_steady velocityScalingFactorForSingularity_steady
  suddenHalt_steady enforceSRDFJointBounds_steady : jog.

Lemma convertDeltasToOutgoingCmd_steady : preserves steady convertDeltasToOutgoingCmd.
Proof. unfold convertDeltasToOutgoingCmd. steady_tac. Qed.

#[local] Hint Resolve convertDeltasToOutgoingCmd_steady : jog.

Lemma cartesianJogCalcs_steady cmd : preserves steady (cartesianJogCalcs cmd).
Proof. unfold cartesianJogCalcs. steady_tac. Qed.

Lemma jointJogCalcs_steady cmd : preserves steady (jointJogCalcs cmd).
Proof. unfold jointJogCalcs. steady_tac. Qed.

Lemma resetPositionFilters_steady : preserves steady resetPositionFilters.
Proof. unfold resetPositionFilters. steady_tac. Qed.

#[local] Hint Resolve cartesianJogCalcs_steady jointJogCalcs_steady
  resetPositionFilters_steady : jog.

(** Rewrite every field of a later world that a relation has equated with a
    field of an earlier one. *)
Ltac chain_tac :=
  repeat match goal with
  | H : ?f (this ?a) = ?f (this ?b) |- _ => rewrite H in *
  | H : shared_variables ?a = shared_variables ?b |- _ => rewrite H in *
  | H : now ?a = now ?b |- _ => rewrite H in *
  | H : uninitialized ?a = uninitialized ?b |- _ => rewrite H in *
  | H : joint_state_ (this ?a) = ?j |- _ => is_var j; rewrite H in *
  end.

#[local] Instance configured_preorder : PreOrder configured.
Proof.
  split.
  - by intros w.
  - intros w1 w2 w3 [] []. split; congruence.
Qed.

Lemma steady_configured w w' : steady w w' → configured w w'.
Proof. intros []. by split. Qed.

Lemma updateJoints_configured : preserves configured updateJoints.
Proof. unfold updateJoints. preserves_tac steady_side. Qed.

(** Turn a run [E : m w = Some (a, w')] of a member function into the
    relation between [w] and [w']. *)
Ltac steady_of E :=
  lazymatch type of E with
  | ?m ?w = Some (_, ?w') =>
      let H := fresh "Hpreserves" in
      assert (preserves steady m) as H by eauto with jog;
      apply H in E; clear H
  end.

#[local] Instance still_preorder : PreOrder still.
Proof.
  split.
  - by intros w.
  - intros w1 w2 w3 [] []. split; [by etrans|congruence].
Qed.

Ltac still_tac := preserves_tac ltac:(by repeat split).

Lemma scaleCartesianCommand_still cmd : preserves still (scaleCartesianCommand cmd).
Proof. unfold scaleCartesianCommand. still_tac. Qed.

Lemma scaleJointCommand_still cmd : preserves still (scaleJointCommand cmd).
Proof. unfold scaleJointCommand. still_tac. Qed.

Lemma addJointIncrements_still out inc : preserves still (addJointIncrements out inc).
Proof. unfold addJointIncrements. still_tac. Qed.

Lemma removeDimension_still j d r : preserves still (removeDimension j d r).
Proof. unfold removeDimension, shift_up, conservativeResize. still_tac. Qed.

#[local] Hint Resolve scaleCartesianCommand_still scaleJointCommand_still
  addJointIncrements_still removeDimension_still : jog.

Lemma removeDriftDimensions_still j d : preserves still (removeDriftDimensions j d).
Proof. unfold removeDriftDimensions. still_tac. Qed.

Lemma insertRedundantPointsIntoTrajectory_still t c :
  preserves still (insertRedundantPointsIntoTrajectory t c).
Proof. unfold insertRedundantPointsIntoTrajectory. still_tac. Qed.

Lemma lowPassFilterPositions_still js : preserves still (lowPassFilterPositions js).
Proof. unfold lowPassFilterPositions. still_tac. Qed.

Lemma calculateJointVelocities_still js d :
  preserves still (calculateJointVelocities js d).
Proof. unfold calculateJointVelocities. still_tac. Qed.

Lemma composeJointTrajMessage_still js : preserves still (composeJointTrajMessage js).
Proof. unfold composeJointTrajMessage. still_tac. Qed.

Lemma applyVelocityScaling_still d s : preserves still (applyVelocityScaling d s).
Proof. unfold applyVelocityScaling. still_tac. Qed.

Lemma velocityScalingFactorForSingularity_still cv svd j pinv :
  preserves still (velocityScalingFactorForSingularity cv svd j pinv).
Proof.
  unfold velocityScalingFactorForSingularity, velocityScalingFactorForSingularity_body.
  still_tac.
Qed.

Lemma suddenHalt_still t : preserves still (suddenHalt t).
Proof. unfold suddenHalt, store_in_first_point. still_tac. Qed.

Lemma enforceSRDFJointBounds_still t : preserves still (enforceSRDFJointBounds t).
Proof. unfold enforceSRDFJointBounds, store_in_first_point. still_tac. Qed.

#[local] Hint Resolve removeDriftDimensions_still
  insertRedundantPointsIntoTrajectory_still lowPassFilterPositions_still
  calculateJointVelocities_still composeJointTrajMessage_still
  applyVelocityScaling_still velocityScalingFactorForSingularity_still
  suddenHalt_still enforceSRDFJointBounds_still : jog.

Ltac still_of E :=
  lazymatch type of E with
  | ?m ?w = Some (_, ?w') =>
      let H := fresh "Hpreserves" in
      assert (preserves still m) as H by eauto with jog;
      apply H in E; clear H
  end.

(** ** applyVelocityScaling *)

(** C8: [applyVelocityScaling] replaces every component d of delta_theta by
    (c * s_sing) * d, where c is the collision scale read from the shared
    variables, changes nothing else, and returns true exactly when
    c * s_sing >= 0.1. *)
Theorem applyVelocityScaling_scales_and_flags
    (delta_theta : VectorXd) (s_sing : double) (w : World) :
  let c := collision_velocity_scale (shared_variables w) in
  ∃ (moving : bool) (scaled : VectorXd),
    applyVelocityScaling delta_theta s_sing w = Some ((moving, scaled), w)
    ∧ length scaled = length delta_theta
    ∧ (∀ i d, delta_theta !! i = Some d → scaled !! i = Some (c * s_sing * d)%float)
    ∧ (moving = true ↔ (one_tenth <=? c * s_sing)%float = true).
Proof.
  intros c.
  exists (geb (c * s_sing)%float one_tenth), (scalar_times (c * s_sing)%float delta_theta).
  split; [reflexivity|]. unfold scalar_times. split; [apply length_fmap|].
  split; [|reflexivity].
  intros i d Hd. by rewrite list_lookup_fmap, Hd.
Qed.

(** ** velocityScalingFactorForSingularity *)

(** What a run of the function fixes about its local variables and about
    the kinematic state it leaves. *)
Lemma velocityScalingFactorForSingularity_body_inv cv svd jacobian pinv w l w' :
  velocityScalingFactorForSingularity_body cv svd jacobian pinv w = Some (l, w') →
  ∃ u_last,
    col (rows jacobian - 1) (matrixU svd) = Some u_last
    ∧ condition_number svd = Some (ini_condition l)
    ∧ vec_plus (copyJointGroupPositions (kinematic_state_ (this w)))
               (mat_vec pinv (divided_by u_last 100%float)) = Some (new_theta l)
    ∧ kinematic_state_ (this w')
      = setJointGroupPositions (new_theta l) (kinematic_state_ (this w))
    ∧ condition_number (JacobiSVD false jacobian) = Some (new_condition l)
    ∧ vector_toward_singularity l
      = (if geb (ini_condition l) (new_condition l)
         then (λ c, c * (-1))%float <$> u_last else u_last)
    ∧ dot l = vec_dot (vector_toward_singularity l) cv
    ∧ velocity_scale l = ramp (parameters_ (this w)) (dot l) (ini_condition l).
Proof.
  unfold velocityScalingFactorForSingularity_body, condition_number, ramp.
  intros Hrun.
  jog_inv. case_decide; [by jog_inv|].
  repeat jog_inv.
  match goal with E : col _ _ = Some ?u |- _ => exists u end.
  repeat match goal with E : _ !! _ = Some _ |- _ => rewrite E; clear E end.
  simpl.
  jog_simpl.
  repeat (case_match; repeat jog_inv; jog_simpl); try congruence; auto 10.
Qed.

(** C2, as the code has it: the probe step is committed.  After a call the
    kinematic state holds theta' = theta + pinv * (u_last / 100), where theta
    are the positions it held before the call and u_last is the last column
    of U; the positions are not restored. *)
Theorem velocityScalingFactorForSingularity_commits_probe
    cv svd jacobian pinv w (s : double) w' :
  velocityScalingFactorForSingularity cv svd jacobian pinv w = Some (s, w') →
  ∃ u_last,
    col (rows jacobian - 1) (matrixU svd) = Some u_last
    ∧ vec_plus (copyJointGroupPositions (kinematic_state_ (this w)))
               (mat_vec pinv (divided_by u_last 100%float))
      = Some (copyJointGroupPositions (kinematic_state_ (this w'))).
Proof.
  unfold velocityScalingFactorForSingularity. intros Hrun. repeat jog_inv.
  match goal with
  | E : velocityScalingFactorForSingularity_body _ _ _ _ _ = Some _ |- _ =>
      apply velocityScalingFactorForSingularity_body_inv in E;
      destruct E as (u & Hu & _ & Hplus & Hks & _)
  end.
  exists u. split; [exact Hu|]. by rewrite Hks.
Qed.

(** The look-ahead condition is the condition number of the decomposition
    of the matrix passed in, whatever state the probe has set. *)
Theorem new_condition_of_argument cv svd jacobian pinv w l w' :
  velocityScalingFactorForSingularity_body cv svd jacobian pinv w = Some (l, w') →
  condition_number (JacobiSVD false jacobian) = Some (new_condition l).
Proof.
  intros Hrun. apply velocityScalingFactorForSingularity_body_inv in Hrun.
  by destruct Hrun as (u & _ & _ & _ & _ & Hnew & _).
Qed.

(** The scale returned is the ramp of the dot product and of the initial
    condition number. *)
Lemma velocity_scale_is_ramp cv svd jacobian pinv w l w' :
  velocityScalingFactorForSingularity_body cv svd jacobian pinv w = Some (l, w') →
  velocity_scale l = ramp (parameters_ (this w)) (dot l) (ini_condition l).
Proof.
  intros Hrun. apply velocityScalingFactorForSingularity_body_inv in Hrun.
  by destruct Hrun as (u & _ & _ & _ & _ & _ & _ & _ & Hscale).
Qed.

(** Binary64 comparisons: [<] is asymmetric, and a value that is not NaN
    is [>=] itself. *)
Lemma SFcompare_Lt_Gt x y :
  SpecFloat.SFcompare x y = Some Lt → SpecFloat.SFcompare y x = Some Gt.
Proof.
  destruct x as [[]|[]| |[] m1 e1], y as [[]|[]| |[] m2 e2]; simpl; try congruence.
  all: change (Pos.compare_cont Eq m1 m2) with (m1 ?= m2)%positive.
  all: change (Pos.compare_cont Eq m2 m1) with (m2 ?= m1)%positive.
  all: rewrite (Z.compare_antisym e1 e2), (Pos.compare_antisym m1 m2).
  all: destruct (e1 ?= e2)%Z, (m1 ?= m2)%positive; simpl; congruence.
Qed.

Lemma gtb_not_ltb (a b : double) : gtb a b = true → (a <? b)%float = false.
Proof.
  unfold gtb. rewrite !FloatAxioms.ltb_spec. unfold SpecFloat.SFltb. intros Hgt.
  destruct (SpecFloat.SFcompare (FloatOps.Prim2SF b) (FloatOps.Prim2SF a)) as [[]|] eqn:E; try discriminate.
  by rewrite (SFcompare_Lt_Gt _ _ E).
Qed.

Lemma geb_refl (a : double) : isnan a = false → geb a a = true.
Proof.
  unfold isnan, is_nan, geb. rewrite FloatAxioms.eqb_spec, FloatAxioms.leb_spec.
  unfold SpecFloat.SFeqb, SpecFloat.SFleb.
  by destruct (SpecFloat.SFcompare (FloatOps.Prim2SF a) (FloatOps.Prim2SF a)) as [[]|].
Qed.

(** The function returns the scale its body has worked out. *)
Lemma velocityScalingFactorForSingularity_returns cv svd jacobian pinv w l w' :
  velocityScalingFactorForSingularity_body cv svd jacobian pinv w = Some (l, w') →
  velocityScalingFactorForSingularity cv svd jacobian pinv w = Some (velocity_scale l, w').
Proof.
  intros Hrun. unfold velocityScalingFactorForSingularity, bind. by rewrite Hrun.
Qed.

(** Moving toward a singularity with the condition number strictly between
    the two thresholds, the scale is the linear ramp
    1 - (k0 - lower) / (hard_stop - lower). *)
Theorem velocity_scale_in_ramp_range cv svd jacobian pinv w l w' :
  velocityScalingFactorForSingularity_body cv svd jacobian pinv w = Some (l, w') →
  gtb (dot l) 0 = true →
  gtb (ini_condition l) (lower_singularity_threshold (parameters_ (this w))) = true →
  (ini_condition l <? hard_stop_singularity_threshold (parameters_ (this w)))%float = true →
  velocityScalingFactorForSingularity cv svd jacobian pinv w
  = Some ((1 - (ini_condition l - lower_singularity_threshold (parameters_ (this w)))
               / (hard_stop_singularity_threshold (parameters_ (this w))
                  - lower_singularity_threshold (parameters_ (this w))))%float, w').
Proof.
  intros Hrun Hdot Hlower Hhard.
  rewrite (velocityScalingFactorForSingularity_returns _ _ _ _ _ _ _ Hrun).
  rewrite (velocity_scale_is_ramp _ _ _ _ _ _ _ Hrun). unfold ramp.
  by rewrite Hdot, Hlower, Hhard.
Qed.

(** Moving toward a singularity with the condition number strictly above
    hard_stop_singularity_threshold, the scale is 0. *)
Theorem velocity_scale_beyond_hard_stop cv svd jacobian pinv w l w' :
  velocityScalingFactorForSingularity_body cv svd jacobian pinv w = Some (l, w') →
  gtb (dot l) 0 = true →
  gtb (ini_condition l) (hard_stop_singularity_threshold (parameters_ (this w))) = true →
  velocityScalingFactorForSingularity cv svd jacobian pinv w = Some (0%float, w').
Proof.
  intros Hrun Hdot Hhard.
  rewrite (velocityScalingFactorForSingularity_returns _ _ _ _ _ _ _ Hrun).
  rewrite (velocity_scale_is_ramp _ _ _ _ _ _ _ Hrun). unfold ramp.
  by rewrite Hdot, Hhard, (gtb_not_ltb _ _ Hhard), andb_false_r.
Qed.

(** Not moving toward a singularity (the dot product is not positive), the
    scale is 1 whatever the condition number. *)
Theorem velocity_scale_moving_away cv svd jacobian pinv w l w' :
  velocityScalingFactorForSingularity_body cv svd jacobian pinv w = Some (l, w') →
  gtb (dot l) 0 = false →
  velocityScalingFactorForSingularity cv svd jacobian pinv w = Some (1%float, w').
Proof.
  intros Hrun Hdot.
  rewrite (velocityScalingFactorForSingularity_returns _ _ _ _ _ _ _ Hrun).
  rewrite (velocity_scale_is_ramp _ _ _ _ _ _ _ Hrun). unfold ramp.
  by rewrite Hdot.
Qed.

(** The code compares the initial condition number with one taken from the
    same matrix.  When the decomposition passed in has the singular values
    of the decomposition of the Jacobian passed in, and their ratio is not
    NaN, the test [ini_condition >= new_condition] holds and the singular
    direction is flipped in every call. *)
Theorem singular_direction_is_flipped cv svd jacobian pinv w l w' :
  velocityScalingFactorForSingularity_body cv svd jacobian pinv w = Some (l, w') →
  singularValues svd = singularValues (JacobiSVD false jacobian) →
  isnan (ini_condition l) = false →
  new_condition l = ini_condition l
  ∧ ∃ u_last,
      col (rows jacobian - 1) (matrixU svd) = Some u_last
      ∧ vector_toward_singularity l = (λ c, c * (-1))%float <$> u_last.
Proof.
  intros Hrun Hvalues Hnan.
  apply velocityScalingFactorForSingularity_body_inv in Hrun.
  destruct Hrun as (u & Hu & Hini & _ & _ & Hnew & Hvector & _).
  assert (new_condition l = ini_condition l) as Hsame.
  { unfold condition_number in Hini, Hnew. rewrite <- Hvalues in Hnew. congruence. }
  split; [done|]. exists u. split; [done|].
  by rewrite Hvector, Hsame, (geb_refl _ Hnan).
Qed.

(** ** scaleCartesianCommand *)

(** The last branch of [scaleCartesianCommand]: one error is logged and
    the result vector is returned with no entry assigned. *)
Lemma scaleCartesianCommand_unexpected_type (command : TwistStamped) (w : World) :
  command_in_type (parameters_ (this w)) ≠ "unitless" →
  command_in_type (parameters_ (this w)) ≠ "speed_units" →
  scaleCartesianCommand command w
  = Some (resize 6 0%float (uninitialized w),
          with_rosout (λ l, l ++ [{| severity := Error;
                                     message := "Unexpected command_in_type" |}]) w).
Proof.
  intros Hunitless Hspeed. unfold scaleCartesianCommand, bind, uninitialized_vector,
    member, gets. simpl.
  by rewrite !decide_False.
Qed.

(** For the command type "speed_units" [scaleCartesianCommand] returns each
    component of the command times publish_period, logs nothing and changes
    nothing. *)
Theorem scaleCartesianCommand_speed_units (command : TwistStamped) (w : World) :
  command_in_type (parameters_ (this w)) = "speed_units" →
  scaleCartesianCommand command w
  = Some (speed_units_form (parameters_ (this w)) command, w).
Proof.
  intros Htype. unfold scaleCartesianCommand, bind, uninitialized_vector, member, gets.
  simpl. rewrite Htype. simpl.
  assert (length (resize 6 0%float (uninitialized w)) = 6%nat) as Hlen
    by apply length_resize.
  destruct (resize 6 0%float (uninitialized w)) as [|a0 [|a1 [|a2 [|a3 [|a4 [|a5 [|]]]]]]];
    by try discriminate Hlen.
Qed.

(** For the command type "unitless" [scaleCartesianCommand] returns each
    linear component times linear_scale * publish_period and each angular
    component times rotational_scale * publish_period, logs nothing and
    changes nothing. *)
Theorem scaleCartesianCommand_unitless (command : TwistStamped) (w : World) :
  command_in_type (parameters_ (this w)) = "unitless" →
  scaleCartesianCommand command w
  = Some (unitless_form (parameters_ (this w)) command, w).
Proof.
  intros Htype. unfold scaleCartesianCommand, bind, uninitialized_vector, member, gets.
  simpl. rewrite Htype. simpl.
  assert (length (resize 6 0%float (uninitialized w)) = 6%nat) as Hlen
    by apply length_resize.
  destruct (resize 6 0%float (uninitialized w)) as [|a0 [|a1 [|a2 [|a3 [|a4 [|a5 [|]]]]]]];
    by try discriminate Hlen.
Qed.

(** ** enforceSRDFJointBounds *)

(** C9: for a trajectory without points [enforceSRDFJointBounds] returns
    true and the trajectory as it was; it logs a warning and touches neither
    the object nor the shared variables. *)
Theorem enforceSRDFJointBounds_empty (new_joint_traj : JointTrajectory) (w : World) :
  points new_joint_traj = [] →
  enforceSRDFJointBounds new_joint_traj w
  = Some ((true, new_joint_traj),
          with_rosout (λ l, l ++ [{| severity := Warn;
            message := "Empty trajectory passed into checkIfJointsWithinURDFBounds()." |}])
            w).
Proof.
  intros Hempty. unfold enforceSRDFJointBounds.
  by rewrite decide_True.
Qed.

(** ** The drift loop of cartesianJogCalcs *)

(** The first pass of the loop reads [drift_dimensions[jacobian.rows()]]:
    with no more flags than the Jacobian has rows, that read is outside the
    array and the run is undefined. *)
Theorem removeDriftDimensions_reads_at_rows (jacobian : MatrixXd) (delta_x : VectorXd) w :
  (length (drift_dimensions (shared_variables w)) ≤ rows jacobian)%nat →
  removeDriftDimensions jacobian delta_x w = None.
Proof.
  intros Hlen. unfold removeDriftDimensions.
  assert (drift_dimensions (shared_variables w) !! rows jacobian = None) as Hread
    by by apply lookup_ge_None.
  destruct (rows jacobian); simpl; unfold bind, shared, gets; simpl;
    by rewrite Hread.
Qed.

(** ** updateJoints *)

(** [updateJoints] goes by the number of names only.  It returns false
    exactly when the message has fewer names than the move group has
    joints, and then it has copied the message into [incoming_joints_] and
    changed nothing else; a message with enough names is accepted whatever
    the names are. *)
Theorem updateJoints_accepts_by_count (w : World) updated w' :
  updateJoints w = Some (updated, w') →
  (updated = false
   ↔ (length (name (joints (shared_variables w))) < num_joints_ (this w))%nat)
  ∧ (updated = false
     → w' = with_this (set_incoming_joints_ (joints (shared_variables w))) w).
Proof.
  intros Hrun. unfold updateJoints in Hrun. repeat jog_inv. jog_simpl.
  case_decide; repeat jog_inv; split; try done.
Qed.

(** A run of [updateJoints] keeps the frame of the tracked joint state. *)
Lemma updateJoints_frame w updated w' :
  updateJoints w = Some (updated, w') →
  tracked_frame w w'
  ∧ (updated = false → joint_state_ (this w') = joint_state_ (this w))
  ∧ (updated = true → original_joint_state_ (this w') = joint_state_ (this w')).
Proof.
  intros Hrun. unfold updateJoints in Hrun.
  repeat jog_inv. jog_simpl. case_decide.
  - jog_inv. jog_simpl. by repeat split.
  - repeat jog_inv. jog_simpl.
    match goal with E : for_ _ _ _ _ _ = Some _ |- _ =>
      apply (for_invariant (λ _ w1, tracked_frame w w1)) in E end.
    + unfold tracked_frame in *. jog_simpl. destruct E as (? & ? & ? & ?).
      repeat split; done.
    + clear. intros i [] w1 [] w2 Hframe Hbody.
      repeat jog_inv. case_match; repeat jog_inv; jog_simpl; [|done].
      destruct Hframe as (? & ? & ? & ?).
      repeat split; try done. jog_simpl. by rewrite length_insert.
    + by repeat split.
Qed.

(** On a message with a position for each name [updateJoints] is defined. *)
Lemma updateJoints_defined w :
  readable_telemetry w → ∃ updated w', updateJoints w = Some (updated, w').
Proof.
  intros [Hmsg Hmap]. unfold updateJoints, bind at 1, shared, gets. simpl.
  unfold bind at 1, assign, modify. simpl. unfold bind at 1, member, gets. simpl.
  unfold bind at 1, gets. simpl. case_decide; [by eexists _, _|].
  match goal with |- context [for_ ?lo ?n ?b ?s0] =>
    destruct (for_defined
      (λ _ w1, incoming_joints_ (this w1) = joints (shared_variables w)
               ∧ joint_state_name_map_ (this w1) = joint_state_name_map_ (this w)
               ∧ length (position (joint_state_ (this w1)))
                 = length (position (joint_state_ (this w)))) b n lo s0
      (with_this (set_incoming_joints_ (joints (shared_variables w))) w))
      as (s1 & w1 & E & _)
  end.
  - intros i [] w1 Hi (Hin & Hm & Hlen). unfold bind, member, gets. simpl.
    rewrite Hin.
    destruct (lookup_lt_is_Some_2 (name (joints (shared_variables w))) i) as [nm Hnm];
      [simpl in Hi; lia|].
    rewrite Hnm. simpl.
    destruct (joint_state_name_map_ (this w1) !! nm) as [c|] eqn:Hc.
    + destruct (lookup_lt_is_Some_2 (position (joints (shared_variables w))) i)
        as [q Hq]; [simpl in Hi; lia|].
      rewrite Hq. simpl. unfold store. rewrite decide_True.
      * simpl. eexists _, _. split; [reflexivity|]. simpl.
        repeat split; try done. by rewrite length_insert.
      * rewrite Hlen. apply (Hmap nm). by rewrite <- Hm.
    + eexists _, _. split; [reflexivity|]. by simpl.
  - by simpl.
  - unfold bind at 1. rewrite E. by eexists _, _.
Qed.

(** C10: [updateJoints] changes of the tracked joint state only entries of
    its position vector: names, velocities, efforts and the number of
    positions are as before, whether it returns true or false (and when it
    returns false the tracked joint state is untouched); when it returns true
    the snapshot is the tracked joint state.  On a message that has a
    position for each name the call is defined. *)
Theorem updateJoints_writes_positions_only (w : World) :
  (∀ updated w', updateJoints w = Some (updated, w') →
     tracked_frame w w'
     ∧ (updated = false → joint_state_ (this w') = joint_state_ (this w))
     ∧ (updated = true → original_joint_state_ (this w') = joint_state_ (this w')))
  ∧ (readable_telemetry w → ∃ updated w', updateJoints w = Some (updated, w')).
Proof.
  split.
  - intros updated w'. apply updateJoints_frame.
  - apply updateJoints_defined.
Qed.

(** ** The halt point *)

Lemma overwrite_next {A} (i : nat) (v : A) (new old : list A) :
  new !! i = Some v → (i < length old)%nat →
  <[i:=v]> (take i new ++ drop i old) = take (Datatypes.S i) new ++ drop (Datatypes.S i) old.
Proof.
  intros Hnew Hold.
  assert (length (take i new) = i) as Hlen
    by (rewrite length_take; apply lookup_lt_Some in Hnew; lia).
  rewrite insert_app_r_alt by lia. rewrite Hlen, Nat.sub_diag.
  destruct (lookup_lt_is_Some_2 old i Hold) as [o Ho].
  rewrite (drop_S old o i Ho). simpl.
  rewrite (take_S_r new i v Hnew). by rewrite <- app_assoc.
Qed.

Lemma overwrite_next_constant {A} (i : nat) (v : A) (old : list A) :
  (i < length old)%nat →
  <[i:=v]> (replicate i v ++ drop i old)
  = replicate (Datatypes.S i) v ++ drop (Datatypes.S i) old.
Proof.
  intros Hold.
  rewrite <- (take_replicate_add i (length old - i) v).
  rewrite <- (take_replicate_add (Datatypes.S i) (length old - Datatypes.S i) v).
  replace (Datatypes.S i + (length old - Datatypes.S i))%nat
    with (i + (length old - i))%nat by lia.
  apply overwrite_next; [|done].
  apply lookup_replicate_2. lia.
Qed.

Lemma store_in_first_point_run get set i v traj traj' w w' :
  store_in_first_point get set i v traj w = Some (traj', w') →
  w' = w
  ∧ jt_header traj' = jt_header traj ∧ joint_names traj' = joint_names traj
  ∧ ∃ pt rest, points traj = pt :: rest ∧ (i < length (get pt))%nat
               ∧ points traj' = set (<[i:=v]> (get pt)) pt :: rest.
Proof.
  unfold store_in_first_point. intros Hrun. repeat jog_inv.
  destruct (points traj) as [|pt rest] eqn:Hpts; [done|].
  repeat split. exists pt, rest. simplify_eq/=. by repeat split.
Qed.

(** [suddenHalt] rewrites the first point of a staged trajectory into the
    halt point of the snapshot and leaves the points after it alone. *)
Lemma suddenHalt_run traj traj' w w' pt rest :
  suddenHalt traj w = Some (traj', w') →
  points traj = pt :: rest →
  staged (parameters_ (this w)) (num_joints_ (this w)) pt →
  length (position (original_joint_state_ (this w))) = num_joints_ (this w) →
  w' = w
  ∧ points traj'
    = halt_point (parameters_ (this w)) (num_joints_ (this w))
                 (position (original_joint_state_ (this w))) :: rest.
Proof.
  unfold suddenHalt. intros Hrun Hpts (Hpos & Hvel & Hacc & Htime) Hsnapshot.
  repeat jog_inv. jog_simpl.
  set (p := parameters_ (this w)) in *. set (n := num_joints_ (this w)) in *.
  set (snapshot := position (original_joint_state_ (this w))) in *.
  apply (for_invariant_indexed (λ i t w1,
    w1 = w
    ∧ ∃ pt', points t = pt' :: rest
      ∧ positions pt' = (if publish_joint_positions p
                         then take i snapshot ++ drop i (positions pt) else positions pt)
      ∧ velocities pt' = (if publish_joint_velocities p
                          then replicate i 0%float ++ drop i (velocities pt)
                          else velocities pt)
      ∧ accelerations pt' = accelerations pt
      ∧ time_from_start pt' = time_from_start pt)) in Hrun.
  - destruct Hrun as (-> & pt' & Hpts' & Hpos' & Hvel' & Hacc' & Htime').
    split; [done|]. rewrite Hpts'. f_equal. unfold halt_point.
    destruct pt' as [ps vs accs t]. simpl in *. subst ps vs accs t.
    rewrite Hacc, Htime. f_equal.
    + destruct (publish_joint_positions p); [|by apply nil_length_inv].
      rewrite drop_ge by lia. rewrite take_ge by (fold snapshot; lia).
      by rewrite app_nil_r.
    + destruct (publish_joint_velocities p); [|by apply nil_length_inv].
      rewrite drop_ge by lia. by rewrite app_nil_r.
  - clear Hrun. intros i t w1 t' w2 (-> & pt' & Hpts' & Hpos' & Hvel' & Hacc' & Htime') Hstep.
    jog_inv.
    assert (∃ pt1, w0 = w ∧ points a = pt1 :: rest
            ∧ positions pt1 = (if publish_joint_positions p
                               then take (Datatypes.S i) snapshot
                                    ++ drop (Datatypes.S i) (positions pt)
                               else positions pt)
            ∧ velocities pt1 = velocities pt'
            ∧ accelerations pt1 = accelerations pt
            ∧ time_from_start pt1 = time_from_start pt) as (pt1 & -> & Hpts1 & Hpos1 & Hvel1 & Hacc1 & Htime1).
    { destruct (publish_joint_positions p) eqn:Hpp.
      - repeat jog_inv.
        match goal with E : store_in_first_point _ _ _ _ _ _ = Some _ |- _ =>
          apply store_in_first_point_run in E;
          destruct E as (-> & _ & _ & q & r & Hq & Hi & Hpts1) end.
        rewrite Hpts' in Hq. simplify_eq. eexists. split; [done|].
        split; [exact Hpts1|]. simpl. repeat split; try done.
        rewrite Hpos'. rewrite Hpos', length_app, length_take, length_drop in Hi.
        apply overwrite_next; [done|].
        match goal with E : _ !! i = Some _ |- _ =>
          apply lookup_lt_Some in E; fold snapshot in E end.
        lia.
      - jog_inv. exists pt'. by rewrite Hpos'. }
    destruct (publish_joint_velocities p) eqn:Hpv.
    + match goal with E : store_in_first_point _ _ _ _ _ _ = Some _ |- _ =>
        apply store_in_first_point_run in E;
        destruct E as (-> & _ & _ & q & r & Hq & Hi & Hpts2) end.
      rewrite Hpts1 in Hq. simplify_eq. split; [done|]. eexists.
      split; [exact Hpts2|]. cbn [positions velocities accelerations time_from_start
                                    set_velocities].
      repeat split; try done.
      rewrite Hvel1, Hvel'. rewrite Hvel1, Hvel', length_app, length_replicate, length_drop in Hi.
      apply overwrite_next_constant. lia.
    + jog_inv. split; [done|]. exists pt1. by rewrite Hvel1, Hvel'.
  - split; [done|]. exists pt. repeat split; try done.
    + destruct (publish_joint_positions p); [|done]. by rewrite take_0, drop_0.
    + destruct (publish_joint_velocities p); [|done]. by rewrite drop_0.
Qed.

(** What a run of [suddenHalt] leaves alone. *)
Lemma suddenHalt_frame traj traj' w w' :
  suddenHalt traj w = Some (traj', w') →
  w' = w
  ∧ jt_header traj' = jt_header traj
  ∧ joint_names traj' = joint_names traj
  ∧ length (points traj') = length (points traj)
  ∧ ∀ i, points traj' !! Datatypes.S i = points traj !! Datatypes.S i.
Proof.
  unfold suddenHalt. intros Hrun. repeat jog_inv. jog_simpl.
  match goal with E : for_ _ _ _ _ _ = Some _ |- _ =>
    apply (for_invariant (λ t w1,
      w1 = w
      ∧ jt_header t = jt_header traj
      ∧ joint_names t = joint_names traj
      ∧ length (points t) = length (points traj)
      ∧ ∀ i, points t !! Datatypes.S i = points traj !! Datatypes.S i)) in E;
      [done| |done]
  end.
  clear. intros i t w1 t' w2 (-> & Hheader & Hnames & Hlength & Hrest) Hstep.
  assert (∀ get set j v t1 t2 wa wb,
            store_in_first_point get set j v t1 wa = Some (t2, wb) →
            wb = wa ∧ jt_header t2 = jt_header t1 ∧ joint_names t2 = joint_names t1
            ∧ length (points t2) = length (points t1)
            ∧ ∀ k, points t2 !! Datatypes.S k = points t1 !! Datatypes.S k) as Hstore.
  { intros get set j v t1 t2 wa wb Hrun.
    apply store_in_first_point_run in Hrun.
    destruct Hrun as (-> & ? & ? & pt & rest & Hpts & _ & Hpts').
    rewrite Hpts, Hpts'. by repeat split. }
  repeat first [jog_inv | case_match];
    repeat match goal with
    | E : store_in_first_point _ _ _ _ _ _ = Some _ |- _ =>
        apply Hstore in E; destruct E as (-> & ? & ? & ? & ?)
    end;
    repeat split; try congruence; intros k; etrans; eauto.
Qed.

(** [suddenHalt] writes into points[0] and nowhere else: the header, the
    joint names, the number of points and every point after the first are
    as before, and so are the object and the shared variables. *)
Theorem suddenHalt_touches_first_point_only traj traj' w w' :
  suddenHalt traj w = Some (traj', w') →
  w' = w
  ∧ jt_header traj' = jt_header traj
  ∧ joint_names traj' = joint_names traj
  ∧ length (points traj') = length (points traj)
  ∧ ∀ i, points traj' !! Datatypes.S i = points traj !! Datatypes.S i.
Proof. apply suddenHalt_frame. Qed.

Lemma same_but_velocities_refl t : same_but_velocities t t.
Proof. intros pt rest Hpts. by exists pt. Qed.

Lemma same_but_velocities_trans t1 t2 t3 :
  same_but_velocities t1 t2 → same_but_velocities t2 t3 → same_but_velocities t1 t3.
Proof.
  intros H12 H23 pt rest Hpts.
  destruct (H12 pt rest Hpts) as (pt2 & Hpts2 & ? & ? & ? & ?).
  destruct (H23 pt2 rest Hpts2) as (pt3 & Hpts3 & ? & ? & ? & ?).
  exists pt3. repeat split; congruence.
Qed.

Lemma same_but_velocities_staged p n t t' pt rest :
  same_but_velocities t t' → points t = pt :: rest → staged p n pt →
  ∃ pt', points t' = pt' :: rest ∧ staged p n pt' ∧ positions pt' = positions pt.
Proof.
  intros Hsame Hpts (? & ? & ? & ?).
  destruct (Hsame pt rest Hpts) as (pt' & Hpts' & ? & ? & ? & ?).
  exists pt'. repeat split; congruence.
Qed.

(** [enforceSRDFJointBounds] writes at most velocities of the first point. *)
Lemma enforceSRDFJointBounds_run traj within traj' w w' :
  enforceSRDFJointBounds traj w = Some ((within, traj'), w') →
  same_but_velocities traj traj'.
Proof.
  unfold enforceSRDFJointBounds. intros Hrun. case_decide.
  { repeat jog_inv. apply same_but_velocities_refl. }
  repeat jog_inv.
  match goal with E : for_each _ _ _ _ = Some _ |- _ =>
    apply (for_each_invariant (λ s _, same_but_velocities traj s.2)) in E;
      [exact E| |apply same_but_velocities_refl] end.
  clear. intros joint [halting t] w1 [halting' t'] w2 Hsame Hstep. simpl in *.
  repeat jog_inv.
  assert (same_but_velocities traj a0) as Hvelocity.
  { clear Hstep E2. jog_if; [|by jog_inv]. repeat jog_inv.
    match goal with E : for_break _ _ _ _ _ = Some _ |- _ =>
      apply (for_break_invariant (λ s _, same_but_velocities traj s)) in E;
        [exact E| |exact Hsame] end.
    clear. intros c s w5 r' w6 Hs Hbody. repeat jog_inv.
    case_decide; [|by jog_inv]. repeat jog_inv.
    case_decide; [|by jog_inv]. repeat jog_inv.
    match goal with E : store_in_first_point _ _ _ _ _ _ = Some _ |- _ =>
      apply store_in_first_point_run in E;
      destruct E as (-> & _ & _ & q & rest & Hq & Hc & Hpts) end.
    eapply same_but_velocities_trans; [exact Hs|].
    intros pt rest' Hpt. rewrite Hq in Hpt. simplify_eq. eexists.
    split; [exact Hpts|]. simpl. by rewrite length_insert. }
  clear E0 E2. repeat first [jog_inv | jog_if | case_match]; simpl; done.
Qed.

(** [insertRedundantPointsIntoTrajectory] appends points. *)
Lemma insertRedundantPointsIntoTrajectory_run traj count traj' w w' :
  insertRedundantPointsIntoTrajectory traj count w = Some (traj', w') →
  ∃ extra, points traj' = points traj ++ extra.
Proof.
  unfold insertRedundantPointsIntoTrajectory. intros Hrun. repeat jog_inv.
  case_decide; [by jog_inv|]. repeat jog_inv.
  match goal with E : for_ _ _ _ _ _ = Some _ |- _ =>
    apply (for_invariant (λ s _, ∃ extra, points s.2 = points traj ++ extra)) in E end.
  - simplify_eq/=. done.
  - clear. intros i [pt t] w1 [pt' t'] w2 [extra Hextra] Hstep. repeat jog_inv.
    simpl in *. eexists (extra ++ [_]).
    by rewrite Hextra, app_assoc.
  - exists []. by rewrite app_nil_r.
Qed.

Lemma addJointIncrements_run output increments ok output' w w' :
  addJointIncrements output increments w = Some ((ok, output'), w') →
  ok = true ∧ same_sizes output output'.
Proof.
  unfold addJointIncrements. intros Hrun. repeat jog_inv. split; [done|].
  match goal with E : for_ _ _ _ _ _ = Some _ |- _ =>
    apply (for_invariant (λ s _, same_sizes output s)) in E; [done| |done] end.
  clear. intros i s w1 s' w2 (? & ? & ?) Hstep. repeat jog_inv.
  repeat split; simpl; try done. by rewrite length_insert.
Qed.

Lemma lowPassFilterPositions_run joint_state joint_state' w w' :
  lowPassFilterPositions joint_state w = Some (joint_state', w') →
  same_sizes joint_state joint_state'.
Proof.
  unfold lowPassFilterPositions. intros Hrun. repeat jog_inv.
  match goal with E : for_ _ _ _ _ _ = Some _ |- _ =>
    apply (for_invariant (λ s _, same_sizes joint_state s)) in E; [done| |done] end.
  clear. intros i s w1 s' w2 (? & ? & ?) Hstep. repeat jog_inv.
  repeat split; simpl; try done. by rewrite length_insert.
Qed.

Lemma calculateJointVelocities_run joint_state delta_theta joint_state' w w' :
  calculateJointVelocities joint_state delta_theta w = Some (joint_state', w') →
  same_sizes joint_state joint_state'.
Proof.
  unfold calculateJointVelocities. intros Hrun. repeat jog_inv.
  match goal with E : for_ _ _ _ _ _ = Some _ |- _ =>
    apply (for_invariant (λ s _, same_sizes joint_state s)) in E; [done| |done] end.
  clear. intros i s w1 s' w2 (? & ? & ?) Hstep. repeat jog_inv.
  repeat split; simpl; try done. by rewrite length_insert.
Qed.

(** The message composed from a joint state with an entry per joint has one
    point, staged. *)
Lemma composeJointTrajMessage_run joint_state traj w w' :
  composeJointTrajMessage joint_state w = Some (traj, w') →
  length (position joint_state) = num_joints_ (this w) →
  length (velocity joint_state) = num_joints_ (this w) →
  w' = w
  ∧ ∃ pt, points traj = [pt]
          ∧ staged (parameters_ (this w)) (num_joints_ (this w)) pt
          ∧ positions pt = (if publish_joint_positions (parameters_ (this w))
                            then position joint_state else []).
Proof.
  unfold composeJointTrajMessage. intros Hrun Hpos Hvel. repeat jog_inv.
  split; [done|]. eexists. split; [reflexivity|]. unfold staged.
  destruct (publish_joint_positions _), (publish_joint_velocities _),
    (publish_joint_accelerations _); by simpl.
Qed.

Lemma convertDeltasToOutgoingCmd_run ok w w' :
  convertDeltasToOutgoingCmd w = Some (ok, w') →
  sized w →
  length (position (original_joint_state_ (this w))) = num_joints_ (this w) →
  ok = true ∧ calculated w w'.
Proof.
  unfold convertDeltasToOutgoingCmd. intros Hrun [Hpos Hvel] Hsnapshot.
  repeat jog_inv. jog_simpl.
  pose proof (addJointIncrements_run _ _ _ _ _ _ E1) as [-> Hadd]. still_of E1.
  simpl in Hrun. repeat jog_inv.
  repeat match goal with
  | E : lowPassFilterPositions _ _ = Some _ |- _ =>
      pose proof (lowPassFilterPositions_run _ _ _ _ E); still_of E
  | E : calculateJointVelocities _ _ _ = Some _ |- _ =>
      pose proof (calculateJointVelocities_run _ _ _ _ _ E); still_of E
  | E : enforceSRDFJointBounds _ _ = Some _ |- _ =>
      pose proof (enforceSRDFJointBounds_run _ _ _ _ _ E); still_of E
  end.
  jog_simpl.
  repeat match goal with
  | E : still _ _ |- _ => destruct E as [[] ?]
  | E : same_sizes _ _ |- _ => destruct E as (? & ? & ?)
  end. jog_simpl.
  apply composeJointTrajMessage_run in E4; jog_simpl; [|congruence..].
  destruct E4 as (-> & pt & Hpts & Hstaged & _). jog_simpl.
  match goal with H : same_but_velocities _ _ |- _ =>
    destruct (H pt [] Hpts) as (pt' & Hpts' & Hpos' & Hvel' & Hacc' & Htime') end.
  chain_tac.
  assert (staged (parameters_ (this w)) (num_joints_ (this w)) pt') as Hstaged'.
  { destruct Hstaged as (? & ? & ? & ?). unfold staged. repeat split; congruence. }
  assert (steady w w4 ∧ joint_state_ (this w4) = a2
          ∧ ∃ pt4, points (outgoing_command_ (this w4)) = [pt4]
                   ∧ staged (parameters_ (this w)) (num_joints_ (this w)) pt4)
    as (Hsteady4 & Hjoints4 & pt4 & Hpts4 & Hstaged4).
  { destruct (negb b).
    - repeat jog_inv.
      match goal with E : suddenHalt _ _ = Some _ |- _ =>
        eapply suddenHalt_run in E; [|exact Hpts'|..]; jog_simpl; chain_tac;
          [|done..]; destruct E as [-> Hhalt] end.
      jog_simpl. chain_tac.
      split; [by split|]. split; [done|].
      eexists. split; [exact Hhalt|].
      unfold staged, halt_point. simpl.
      destruct Hstaged' as (_ & _ & _ & ->). simpl.
      destruct (publish_joint_positions _), (publish_joint_velocities _);
        repeat split; rewrite ?length_replicate; congruence.
    - jog_inv. jog_simpl. split; [by split|]. split; [done|]. by exists pt'. }
  clear E3. destruct Hsteady4. chain_tac.
  split; [done|]. unfold calculated, sized.
  destruct (use_gazebo (parameters_ (this w))) eqn:Hgazebo.
  - repeat jog_inv. jog_simpl.
    match goal with E : insertRedundantPointsIntoTrajectory _ _ _ = Some _ |- _ =>
      pose proof (insertRedundantPointsIntoTrajectory_run _ _ _ _ _ E) as [extra Hextra];
      still_of E; destruct E as [[] ?] end.
    jog_simpl. chain_tac. rewrite Hpts4 in Hextra.
    split; [by split|]. split; [split; congruence|].
    by exists pt4, extra.
  - jog_inv. jog_simpl. chain_tac.
    split; [by split|]. split; [split; congruence|].
    by exists pt4, [].
Qed.

Lemma calculated_after_still w w1 w' :
  still w w1 → calculated w1 w' → calculated w w'.
Proof.
  intros [[] ?] ([] & Hsized & pt & rest & Hpts & Hstaged & Hgazebo).
  chain_tac. split; [by split|]. split; [done|]. by exists pt, rest.
Qed.

Lemma cartesianJogCalcs_run cmd w w' :
  cartesianJogCalcs cmd w = Some (true, w') →
  sized w →
  length (position (original_joint_state_ (this w))) = num_joints_ (this w) →
  calculated w w'.
Proof.
  unfold cartesianJogCalcs. intros Hrun Hsized Hsnapshot.
  assert (∀ w1, still w w1 → sized w1
    ∧ length (position (original_joint_state_ (this w1))) = num_joints_ (this w1))
    as Hkeep.
  { intros w1 [[] ?]. destruct Hsized. unfold sized. chain_tac. done. }
  repeat first [jog_inv | jog_if]; jog_simpl.
  all: repeat match goal with
       | E : ?m _ = Some (_, _) |- _ =>
           lazymatch m with
           | convertDeltasToOutgoingCmd => fail
           | _ => still_of E; destruct E as [[] ?]
           end
       end; jog_simpl; chain_tac.
  all: match goal with
       | E : convertDeltasToOutgoingCmd ?w1 = Some _ |- _ =>
           assert (still w w1) as Hstill by (repeat split; jog_simpl; congruence);
           apply (calculated_after_still w w1 w' Hstill);
           destruct (Hkeep w1 Hstill);
           by eapply convertDeltasToOutgoingCmd_run
       end.
Qed.

Lemma jointJogCalcs_run cmd w w' :
  jointJogCalcs cmd w = Some (true, w') →
  sized w →
  length (position (original_joint_state_ (this w))) = num_joints_ (this w) →
  calculated w w'.
Proof.
  unfold jointJogCalcs. intros Hrun Hsized Hsnapshot.
  assert (∀ w1, still w w1 → sized w1
    ∧ length (position (original_joint_state_ (this w1))) = num_joints_ (this w1))
    as Hkeep.
  { intros w1 [[] ?]. destruct Hsized. unfold sized. chain_tac. done. }
  repeat first [jog_inv | jog_if]; jog_simpl.
  all: repeat match goal with
       | E : ?m _ = Some (_, _) |- _ =>
           lazymatch m with
           | convertDeltasToOutgoingCmd => fail
           | _ => still_of E; destruct E as [[] ?]
           end
       end; jog_simpl; chain_tac.
  all: match goal with
       | E : convertDeltasToOutgoingCmd ?w1 = Some _ |- _ =>
           assert (still w w1) as Hstill by (repeat split; jog_simpl; congruence);
           apply (calculated_after_still w w1 w' Hstill);
           destruct (Hkeep w1 Hstill);
           by eapply convertDeltasToOutgoingCmd_run
       end.
Qed.

(** ** The snapshot taken by updateJoints *)

Lemma telemetry_writes_length map names m reported tracked :
  length (telemetry_writes map names m reported tracked) = length tracked.
Proof.
  revert m tracked. induction names as [|nm names IH]; intros m tracked; [done|].
  simpl. rewrite IH. repeat case_match; by rewrite ?length_insert.
Qed.

(** Two tracked vectors of one length that agree wherever the message does
    not write end up equal. *)
Lemma telemetry_writes_agree map names reported :
  ∀ m a b,
    length a = length b →
    (∀ c, a !! c = b !! c ∨ written map names m reported c) →
    telemetry_writes map names m reported a = telemetry_writes map names m reported b.
Proof.
  induction names as [|nm names IH]; intros m a b Hlen Hagree.
  - simpl. apply list_eq. intros c. destruct (Hagree c) as [|(k & ? & ? & Hk & _)]; [done|].
    by rewrite lookup_nil in Hk.
  - simpl. apply IH.
    + repeat case_match; by rewrite ?length_insert.
    + intros c. destruct (Hagree c) as [Hc|(k & nm' & q & Hk & Hmap & Hq)].
      * left. repeat case_match; try done.
        destruct (decide (c = n)) as [->|Hne].
        -- destruct (decide (n < length a)%nat).
           ++ rewrite !list_lookup_insert_eq by lia. done.
           ++ rewrite !list_insert_ge by lia. done.
        -- by rewrite !list_lookup_insert_ne.
      * destruct k as [|k].
        -- left. simpl in Hk. simplify_eq. rewrite Hmap. rewrite Nat.add_0_r in Hq.
           rewrite Hq.
           destruct (decide (c < length a)%nat).
           ++ rewrite !list_lookup_insert_eq by lia. done.
           ++ rewrite !list_insert_ge by lia.
              rewrite !lookup_ge_None_2 by lia. done.
        -- right. exists k, nm', q. repeat split; try done.
           by replace (Datatypes.S m + k)%nat with (m + Datatypes.S k)%nat by lia.
Qed.

(** The writes change the tracked vector only where the message writes. *)
Lemma telemetry_writes_elsewhere map names reported :
  ∀ m a c,
    telemetry_writes map names m reported a !! c = a !! c
    ∨ written map names m reported c.
Proof.
  induction names as [|nm names IH]; intros m a c; [by left|].
  simpl. destruct (IH (Datatypes.S m)
    match map !! nm, reported !! m with
    | Some c0, Some q => <[c0:=q]> a
    | _, _ => a
    end c) as [Hc|(k & nm' & q & Hk & Hmap & Hq)].
  - rewrite Hc. destruct (map !! nm) as [c0|] eqn:Hc0; [|by left].
    destruct (reported !! m) as [q|] eqn:Hq; [|by left].
    destruct (decide (c = c0)) as [->|Hne].
    + right. exists 0%nat, nm, q. by rewrite Nat.add_0_r.
    + left. by rewrite list_lookup_insert_ne.
  - right. exists (Datatypes.S k), nm', q. repeat split; try done.
    by replace (m + Datatypes.S k)%nat with (Datatypes.S m + k)%nat by lia.
Qed.

Lemma telemetry_writes_idempotent map names reported m a :
  telemetry_writes map names m reported (telemetry_writes map names m reported a)
  = telemetry_writes map names m reported a.
Proof.
  apply telemetry_writes_agree.
  - apply telemetry_writes_length.
  - intros c. apply telemetry_writes_elsewhere.
Qed.

Lemma updateJoints_run w w' :
  updateJoints w = Some (true, w') →
  configured w w'
  ∧ original_joint_state_ (this w') = joint_state_ (this w')
  ∧ same_sizes (joint_state_ (this w)) (joint_state_ (this w'))
  ∧ position (joint_state_ (this w'))
    = telemetry_writes (joint_state_name_map_ (this w))
        (name (joints (shared_variables w))) 0
        (position (joints (shared_variables w)))
        (position (joint_state_ (this w))).
Proof.
  intros Hrun.
  pose proof (updateJoints_configured _ _ _ Hrun) as Hconfigured.
  destruct (updateJoints_frame _ _ _ Hrun)
    as ((Hname & Hvelocity & _ & Hlength) & _ & Hsnapshot).
  split; [done|]. split; [by apply Hsnapshot|]. split.
  { repeat split; congruence. }
  unfold updateJoints in Hrun. repeat jog_inv. jog_simpl. case_decide; [by jog_inv|].
  repeat jog_inv. jog_simpl.
  set (tele := joints (shared_variables w)) in *.
  set (map := joint_state_name_map_ (this w)) in *.
  match goal with E : for_ _ _ _ _ _ = Some _ |- _ =>
    apply (for_invariant_indexed (λ i _ w1,
      incoming_joints_ (this w1) = tele
      ∧ joint_state_name_map_ (this w1) = map
      ∧ telemetry_writes map (drop i (name tele)) i (position tele)
          (position (joint_state_ (this w1)))
        = telemetry_writes map (name tele) 0 (position tele)
            (position (joint_state_ (this w))))) in E end.
  - destruct E as (_ & _ & Hfinal). simpl in Hfinal.
    by rewrite drop_all in Hfinal.
  - clear. intros i [] w1 [] w2 (Hin & Hmap & Hrest) Hstep. repeat jog_inv.
    rewrite Hin in *. rewrite Hmap in *.
    match goal with E : name tele !! i = Some _ |- _ =>
      rewrite (drop_S _ _ _ E) in Hrest; simpl in Hrest; rename E into Hnm end.
    destruct (map !! a0) as [c|] eqn:Hc; repeat jog_inv; jog_simpl.
    + match goal with E : position tele !! i = Some _ |- _ => rewrite E in Hrest end.
      done.
    + by repeat split.
  - by jog_simpl.
Qed.

(** ** The halt of the main loop *)

(** A pass of the main loop that halts and reaches the end of the loop body
    leaves the halt point of its snapshot as first point of the outgoing
    command. *)
Lemma halting_iteration zero_velocity_count w count' w' :
  mainLoopIteration zero_velocity_count w = Some ((Completed, count'), w') →
  halts (shared_variables w) = true →
  sized w →
  parameters_ (this w') = parameters_ (this w)
  ∧ num_joints_ (this w') = num_joints_ (this w)
  ∧ joint_state_name_map_ (this w') = joint_state_name_map_ (this w)
  ∧ sized w'
  ∧ position (original_joint_state_ (this w'))
    = telemetry_writes (joint_state_name_map_ (this w))
        (name (joints (shared_variables w))) 0
        (position (joints (shared_variables w)))
        (position (joint_state_ (this w)))
  ∧ (both_zero (shared_variables w) = true →
     joint_state_ (this w') = original_joint_state_ (this w'))
  ∧ ∃ rest,
      points (outgoing_command_ (this w'))
      = halt_point (parameters_ (this w)) (num_joints_ (this w))
                   (position (original_joint_state_ (this w'))) :: rest
      ∧ (use_gazebo (parameters_ (this w)) = false
         ∨ both_zero (shared_variables w) = true → rest = []).
Proof.
  intros Hrun Hhalts [Hpos Hvel]. unfold mainLoopIteration in Hrun. jog_inv.
  destruct a; simpl in Hrun; [|by jog_inv].
  match goal with E : updateJoints _ = Some _ |- _ =>
    apply updateJoints_run in E;
    destruct E as ([] & Hsnapshot & (Hname & Hpos' & Hvel') & Hwrites) end.
  repeat jog_inv. jog_simpl.
  match type of Hrun with _ ?wm = Some _ => remember wm as w1 eqn:Hw1 end.
  assert (parameters_ (this w1) = parameters_ (this w0)
          ∧ num_joints_ (this w1) = num_joints_ (this w0)
          ∧ joint_state_name_map_ (this w1) = joint_state_name_map_ (this w0)
          ∧ joint_state_ (this w1) = joint_state_ (this w0)
          ∧ original_joint_state_ (this w1) = original_joint_state_ (this w0)
          ∧ halts (shared_variables w1) = halts (shared_variables w0)
          ∧ both_zero (shared_variables w1) = both_zero (shared_variables w0)
          ∧ zero_cartesian_cmd_flag (shared_variables w1)
            = zero_cartesian_cmd_flag (shared_variables w0)
          ∧ zero_joint_cmd_flag (shared_variables w1)
            = zero_joint_cmd_flag (shared_variables w0))
    as (Hpar1 & Hnum1 & Hmap1 & Hjoints1 & Horiginal1 & Hhalts1 & Hzero1 & Hzc1 & Hzj1).
  { subst w1. repeat split; jog_simpl; try done. }
  clear Hw1.
  assert (sized w1 ∧ length (position (original_joint_state_ (this w1)))
                     = num_joints_ (this w1)) as [Hsized1 Hsnapshot1].
  { unfold sized. rewrite Horiginal1, Hsnapshot, Hjoints1, Hnum1. split; [split|]; congruence. }
  destruct (halt_outgoing_jog_cmds_ (this w0)); [by repeat jog_inv|].
  do 3 jog_inv. repeat jog_inv.
  match goal with E : _ w1 = Some (?b, ?wc) |- _ =>
    rename E into Hcalc; rename b into ok; rename wc into w3 end.
  assert (ok = true) as -> by (destruct ok; [done|simpl in Hrun; by jog_inv]).
  simpl in Hrun.
  assert (calculated w1 w3
          ∧ (both_zero (shared_variables w1) = true →
             joint_state_ (this w3) = joint_state_ (this w1)
             ∧ ∃ pt, points (outgoing_command_ (this w3)) = [pt]))
    as [(Hsteady3 & Hsized3 & pt & rest & Hpts3 & Hstaged3 & Hgazebo3) Hzero3].
  { clear Hrun. unfold both_zero.
    destruct (zero_cartesian_cmd_flag (shared_variables w1)); simpl in *.
    - destruct (zero_joint_cmd_flag (shared_variables w1)); simpl in *.
      + repeat jog_inv.
        match goal with E : composeJointTrajMessage _ _ = Some _ |- _ =>
          apply composeJointTrajMessage_run in E; [|apply Hsized1..];
          destruct E as (-> & pt & Hpts & Hstaged & _) end.
        jog_simpl. split.
        * split; [by split|]. split; [done|]. by exists pt, [].
        * intros _. split; [done|]. by exists pt.
      + repeat jog_inv. split; [|done]. by eapply jointJogCalcs_run.
    - repeat jog_inv. split; [|done]. by eapply cartesianJogCalcs_run. }
  clear Hcalc. destruct Hsteady3. destruct Hsized3 as [Hpos3 Hvel3].
  jog_inv. jog_inv.
  assert (command_is_stale (shared_variables w3)
          || zero_cartesian_cmd_flag (shared_variables w1)
             && zero_joint_cmd_flag (shared_variables w1) = true) as Hcondition.
  { rewrite steady_shared0. fold (both_zero (shared_variables w1)).
    fold (halts (shared_variables w1)). congruence. }
  jog_inv. rewrite Hcondition in *. repeat jog_inv.
  match goal with E : suddenHalt _ _ = Some _ |- _ =>
    eapply suddenHalt_run in E; [|exact Hpts3|..];
      [destruct E as [-> Hhalt]| |]; [|congruence..] end.
  match goal with E : _ _ = Some (_, w7) |- _ => simpl in E end.
  repeat first [jog_inv | jog_if]; jog_simpl.
  all: unfold sized; jog_simpl; destruct Hsized1; chain_tac; rewrite ?Hsnapshot in *.
  all: rewrite Hzero1 in Hzero3.
  all: repeat (split; [done|]); split;
         [intros Hzero; by destruct (Hzero3 Hzero)|].
  all: exists rest; split; [exact Hhalt|].
  all: intros [Hgazebo|Hzero]; [by apply Hgazebo3|].
  all: destruct (Hzero3 Hzero) as [_ [pt' Hpt']]; congruence.
Qed.

(** Two consecutive passes of the main loop that both halt (stale command
    or both zero flags) and both reach the end of the loop body, the second
    on the object the first has left and on the same telemetry, which
    reports every joint of the move group (or with both zero flags set
    before the first pass), keep the same snapshot
    original_joint_state.position and leave the same first trajectory
    point: its positions are the snapshot when positions are published and
    its velocities are all 0 when velocities are published.  Outside Gazebo
    mode, and in a pass that starts with both zero flags set, it is the
    only point. *)
Theorem consecutive_halts_stage_the_same_point
    count1 w1 count2 w1' w2 count3 w2' :
  mainLoopIteration count1 w1 = Some ((Completed, count2), w1') →
  halts (shared_variables w1) = true →
  this w2 = this w1' →
  joints (shared_variables w2) = joints (shared_variables w1) →
  mainLoopIteration count2 w2 = Some ((Completed, count3), w2') →
  halts (shared_variables w2) = true →
  sized w1 →
  (both_zero (shared_variables w1) = true
   ∨ ∀ c, (c < num_joints_ (this w1))%nat → reported w1 c) →
  let p := parameters_ (this w1) in
  let n := num_joints_ (this w1) in
  let snapshot := position (original_joint_state_ (this w1')) in
  position (original_joint_state_ (this w2')) = snapshot
  ∧ (publish_joint_positions p = true → positions (halt_point p n snapshot) = snapshot)
  ∧ (publish_joint_velocities p = true →
     velocities (halt_point p n snapshot) = replicate n 0%float)
  ∧ ∃ rest1 rest2,
      points (outgoing_command_ (this w1')) = halt_point p n snapshot :: rest1
      ∧ points (outgoing_command_ (this w2')) = halt_point p n snapshot :: rest2
      ∧ (use_gazebo p = false → rest1 = [] ∧ rest2 = [])
      ∧ (both_zero (shared_variables w1) = true → rest1 = [])
      ∧ (both_zero (shared_variables w2) = true → rest2 = []).
Proof.
  intros Hrun1 Hhalts1 Hthis Htelemetry Hrun2 Hhalts2 Hsized1 Hreported p n snapshot.
  destruct (halting_iteration _ _ _ _ Hrun1 Hhalts1 Hsized1)
    as (Hpar1 & Hnum1 & Hmap1 & Hsized1' & Hwrites1 & Hzero1 & rest1 & Hpts1 & Hrest1).
  assert (sized w2) as Hsized2 by (unfold sized; by rewrite Hthis).
  destruct (halting_iteration _ _ _ _ Hrun2 Hhalts2 Hsized2)
    as (Hpar2 & Hnum2 & Hmap2 & Hsized2' & Hwrites2 & Hzero2 & rest2 & Hpts2 & Hrest2).
  rewrite Hthis, Htelemetry, Hmap1 in Hwrites2.
  rewrite Hthis, Hpar1, Hnum1 in Hpts2. rewrite Hthis, Hpar1 in Hrest2.
  fold p n in Hpts1, Hpts2, Hrest1, Hrest2. fold snapshot in Hpts1.
  assert (position (original_joint_state_ (this w2')) = snapshot) as Hsame.
  { unfold snapshot. rewrite Hwrites1, Hwrites2.
    destruct Hreported as [Hzero|Hall].
    - rewrite (Hzero1 Hzero), Hwrites1. apply telemetry_writes_idempotent.
    - destruct Hsized1 as [Hlen1 _]. destruct Hsized1' as [Hlen1' _].
      apply telemetry_writes_agree; [congruence|].
      intros c. destruct (decide (c < num_joints_ (this w1))%nat) as [Hc|Hc].
      + right. by apply Hall.
      + left. rewrite !lookup_ge_None_2; [done|lia..]. }
  rewrite Hsame in Hpts2.
  split; [done|]. split; [by intros Hpp; unfold halt_point; simpl; rewrite Hpp|].
  split; [by intros Hpv; unfold halt_point; simpl; rewrite Hpv|].
  exists rest1, rest2. repeat split; auto.
Qed.

(** ** The publish policy of the main loop *)

(** C7: with num_outgoing_halt_msgs_to_publish = 0 no pass through the loop
    body sets ok_to_publish to false.  A pass that reaches the end of the
    body, for a zero or a non-zero command and whatever the count of zero
    cycles, writes the outgoing trajectory to the shared slot and sets
    ok_to_publish to true; a pass that ends earlier (waiting for joints,
    paused, or skipped on an invalid command) leaves both as they were. *)
Theorem mainLoopIteration_publishes_forever (zero_velocity_count : Z) (w : World) :
  num_outgoing_halt_msgs_to_publish (parameters_ (this w)) = 0 →
  ∀ outcome count' w',
    mainLoopIteration zero_velocity_count w = Some ((outcome, count'), w') →
    match outcome with
    | Completed =>
        ok_to_publish (shared_variables w') = true
        ∧ outgoing_command (shared_variables w') = outgoing_command_ (this w')
    | _ =>
        ok_to_publish (shared_variables w') = ok_to_publish (shared_variables w)
        ∧ outgoing_command (shared_variables w') = outgoing_command (shared_variables w)
    end.
Proof.
  intros Hforever outcome count' w' Hrun. unfold mainLoopIteration in Hrun.
  jog_inv.
  match goal with E : updateJoints _ = Some _ |- _ =>
    apply updateJoints_configured in E; destruct E end.
  destruct a; simpl in Hrun; [|jog_inv; simpl; split; congruence].
  repeat jog_inv. jog_simpl.
  match type of Hrun with _ ?wm = Some _ => remember wm as w1 eqn:Hw1 end.
  assert (ok_to_publish (shared_variables w1) = ok_to_publish (shared_variables w)
          ∧ outgoing_command (shared_variables w1) = outgoing_command (shared_variables w)
          ∧ parameters_ (this w1) = parameters_ (this w0)) as (Hok & Hout & Hpar)
    by (subst w1; jog_simpl; repeat split; congruence).
  rewrite <- configured_parameters0, <- Hpar in Hforever. rewrite <- Hok, <- Hout.
  rewrite <- Hpar in Hrun. clear - Hrun Hforever.
  jog_run; jog_simpl;
    repeat match goal with
    | E : _ _ = Some (_, _) |- _ => steady_of E; destruct E
    end; jog_simpl.
  all: try (split; congruence).
  all: match goal with
       | E : negb (_ =? 0) && _ = true |- _ => rewrite Hforever in E; discriminate E
       end.
Qed.

(** ** The helper functions *)

(** [removeDimension] deletes the row: for a row index inside the Jacobian
    and a delta_x with an entry per row, the results are the Jacobian and
    delta_x without that row, and nothing else changes. *)
Theorem removeDimension_deletes_row (jacobian : MatrixXd) (delta_x : VectorXd)
    (row_to_remove : nat) (w : World) :
  (row_to_remove < rows jacobian)%nat →
  length delta_x = rows jacobian →
  removeDimension jacobian delta_x row_to_remove w
  = Some ((delete row_to_remove jacobian, delete row_to_remove delta_x), w).
Proof.
  unfold rows. intros Hrow Hlen.
  assert (∀ {A} (l : list A), length l = length jacobian →
            take (length jacobian - 1)
              (take row_to_remove l
               ++ take (length jacobian - 1 - row_to_remove) (drop (row_to_remove + 1) l)
               ++ drop (row_to_remove + (length jacobian - 1 - row_to_remove)) l)
            = delete row_to_remove l) as Hshift.
  { intros A l Hl. rewrite delete_take_drop.
    rewrite app_assoc. rewrite take_app_le.
    2:{ rewrite length_app, !length_take, length_drop. lia. }
    rewrite take_ge.
    2:{ rewrite length_app, !length_take, length_drop. lia. }
    f_equal. rewrite take_ge; [by rewrite Nat.add_1_r|].
    rewrite length_drop. lia. }
  unfold removeDimension, rows, shift_up, conservativeResize, uninitialized_vector,
    bind, gets, ret.
  case_decide.
  - rewrite !decide_True by lia. simpl.
    rewrite !Hshift by done.
    replace (length jacobian - 1 - length _)%nat with 0%nat.
    2:{ rewrite length_app, !length_take, length_app, length_take, !length_drop. lia. }
    simpl. by rewrite resize_0, app_nil_r.
  - simpl. assert (row_to_remove = length jacobian - 1)%nat as -> by lia.
    replace (length jacobian - 1 - length delta_x)%nat with 0%nat by lia.
    simpl. rewrite resize_0, app_nil_r, !delete_take_drop.
    rewrite !drop_ge by lia. by rewrite !app_nil_r.
Qed.

(** The loop of [insertRedundantPointsIntoTrajectory]. *)
Lemma insert_loop (p : JogArmParameters) (pt : JointTrajectoryPoint) (w : World) n :
  ∀ lo point0 traj0,
    (∀ v, set_time_from_start v point0 = set_time_from_start v pt) →
    match mapM (λ i : nat,
                  t ← fromSec (of_int (Z.of_nat i) * publish_period p)%float;
                  Some (set_time_from_start t pt)) (seq lo n) with
    | Some extra =>
        ∃ point',
          for_ lo n (λ i '(point, trajectory),
            bind (defined (fromSec (of_int (Z.of_nat i) * publish_period p)%float)) (λ t,
              ret (set_time_from_start t point,
                   set_points (points trajectory ++ [set_time_from_start t point])
                     trajectory)))
            (point0, traj0) w
          = Some ((point', set_points (points traj0 ++ extra) traj0), w)
    | None =>
        for_ lo n (λ i '(point, trajectory),
          bind (defined (fromSec (of_int (Z.of_nat i) * publish_period p)%float)) (λ t,
            ret (set_time_from_start t point,
                 set_points (points trajectory ++ [set_time_from_start t point])
                   trajectory)))
          (point0, traj0) w
        = None
    end.
Proof.
  induction n as [|n IH]; intros lo point0 traj0 Hpoint.
  - exists point0. cbn. unfold ret. destruct traj0. unfold set_points. simpl.
    by rewrite app_nil_r.
  - cbn [seq mapM for_].
    specialize (IH (Datatypes.S lo)).
    destruct (fromSec (of_int (Z.of_nat lo) * publish_period p)%float) as [t|];
      [|done].
    specialize (IH (set_time_from_start t point0)
                  (set_points (points traj0 ++ [set_time_from_start t point0]) traj0)).
    simpl. destruct (mapM _ (seq (Datatypes.S lo) n)) as [extra|]; simpl.
    + destruct IH as [point' Hrun]; [done|].
      exists point'. unfold bind at 1 2, defined, ret at 1 2.
      etrans; [exact Hrun|]. rewrite Hpoint.
      unfold set_points. simpl. by rewrite <- app_assoc.
    + unfold bind at 1 2, defined, ret at 1 2. by apply IH.
Qed.

(** [insertRedundantPointsIntoTrajectory] reads points[0], so on a trajectory
    without points it is undefined; so it is where count + 1 overflows the
    [int], and where one of the products 2 * publish_period, ...,
    count * publish_period has no [ros::Duration].  Otherwise it appends
    count - 1 copies of points[0] (none for count <= 1) whose times from
    start are the durations of these products, and changes nothing else. *)
Theorem insertRedundantPointsIntoTrajectory_appends (traj : JointTrajectory) (count : Z) w :
  insertRedundantPointsIntoTrajectory traj count w
  = match points traj with
    | [] => None
    | pt :: _ =>
        if decide (INT_MAX < count + 1) then None
        else match redundant_points (parameters_ (this w)) pt count with
             | Some extra => Some (set_points (points traj ++ extra) traj, w)
             | None => None
             end
    end.
Proof.
  unfold insertRedundantPointsIntoTrajectory.
  destruct (points traj) as [|pt rest] eqn:Hpts; [done|].
  unfold bind at 1. simpl defined. unfold ret at 1. unfold bind at 1, member, gets.
  case_decide; [done|].
  pose proof (insert_loop (parameters_ (this w)) pt w (Z.to_nat (count + 1 - 2)) 2 pt traj
                (λ _, eq_refl)) as Hloop.
  unfold redundant_points. replace (count - 1) with (count + 1 - 2) by lia.
  destruct (mapM _ (seq 2 (Z.to_nat (count + 1 - 2)))) as [extra|].
  - destruct Hloop as [point' Hrun]. unfold bind at 1. rewrite Hrun. unfold ret.
    by rewrite Hpts.
  - unfold bind at 1. by rewrite Hloop.
Qed.

(** With no more increments than positions [addJointIncrements] returns
    true, adds increment i to position i, leaves the positions beyond the
    increments and the names, velocities and efforts alone, and changes
    nothing in the object. *)
Theorem addJointIncrements_adds (output : JointState) (increments : VectorXd) (w : World) :
  (length increments ≤ length (position output))%nat →
  ∃ output',
    addJointIncrements output increments w = Some ((true, output'), w)
    ∧ name output' = name output
    ∧ velocity output' = velocity output
    ∧ effort output' = effort output
    ∧ length (position output') = length (position output)
    ∧ ∀ i p, position output !! i = Some p →
        position output' !! i
        = Some (match increments !! i with Some d => (p + d)%float | None => p end).
Proof.
  intros Hlen. unfold addJointIncrements.
  match goal with |- context [for_ ?lo ?n ?b ?s0] =>
    destruct (for_defined
      (λ s w1, w1 = w ∧ length (position s) = length (position output)) b n lo s0 w)
      as (s1 & w1 & E & -> & Hlen1)
  end.
  { intros i s w1 Hi (-> & Hs). unfold bind, defined, store, ret.
    destruct (lookup_lt_is_Some_2 increments i) as [d Hd]; [lia|].
    destruct (lookup_lt_is_Some_2 (position s) i) as [p Hp]; [lia|].
    rewrite Hd, Hp. simpl. rewrite decide_True by lia. simpl.
    eexists _, _. split; [reflexivity|]. simpl. by rewrite length_insert. }
  { done. }
  exists s1. unfold bind at 1. rewrite E. split; [done|].
  apply (for_invariant_indexed (λ i s _,
    name s = name output ∧ velocity s = velocity output ∧ effort s = effort output
    ∧ length (position s) = length (position output)
    ∧ ∀ j p, position output !! j = Some p →
        position s !! j
        = Some (if decide (j < i)%nat
                then match increments !! j with Some d => (p + d)%float | None => p end
                else p))) in E.
  - destruct E as (? & ? & ? & ? & Hpos). repeat split; try done.
    intros i p Hp. rewrite (Hpos i p Hp). simpl. case_decide; [done|].
    by rewrite lookup_ge_None_2 by lia.
  - clear. intros i s w1 s' w2 (? & ? & ? & Hl & Hpos) Hstep. repeat jog_inv. jog_simpl.
    repeat split; try done; [by rewrite length_insert|].
    intros j p Hp. destruct (decide (j = i)) as [->|Hne].
    + rewrite list_lookup_insert_eq by done.
      rewrite decide_True by lia.
      match goal with E : position s !! i = Some _ |- _ =>
        rewrite (Hpos i p Hp) in E; rewrite decide_False in E by lia end.
      simplify_eq.
      match goal with E : increments !! i = Some _ |- _ => by rewrite E end.
    + rewrite list_lookup_insert_ne by done. rewrite (Hpos j p Hp).
      repeat case_decide; try done; try lia.
  - repeat split; done.
Qed.

(** A loop whose body is undefined at an index it reaches is undefined. *)
Lemma for_undefined_at {S} (I : S → World → Prop) (body : nat → S → Jog S) k :
  ∀ count lo s w,
    (lo ≤ k < lo + count)%nat →
    (∀ i s w, (lo ≤ i < k)%nat → I s w → ∃ s' w', body i s w = Some (s', w') ∧ I s' w') →
    (∀ s w, I s w → body k s w = None) →
    I s w → for_ lo count body s w = None.
Proof.
  induction count as [|count IH]; intros lo s w Hk Hbefore Hat HI; [lia|].
  simpl. unfold bind. destruct (decide (lo = k)) as [->|Hne].
  - by rewrite Hat.
  - destruct (Hbefore lo s w) as (s1 & w1 & E & HI1); [lia|done|].
    rewrite E. apply IH; [lia| |done|done].
    intros i s2 w2 Hi. apply Hbefore. lia.
Qed.

(** With more increments than positions [addJointIncrements] writes past
    the end of [output.position]: the unchecked [operator[]] never throws,
    the handler that would return false is never entered, and the run is
    undefined. *)
Theorem addJointIncrements_too_many_increments
    (output : JointState) (increments : VectorXd) (w : World) :
  (length (position output) < length increments)%nat →
  addJointIncrements output increments w = None.
Proof.
  intros Hlen. unfold addJointIncrements. unfold bind at 1.
  rewrite (for_undefined_at
             (λ s w1, length (position s) = length (position output)) _
             (length (position output))); [done|lia| | |done].
  - intros i s w1 Hi Hs. unfold bind, defined, store, ret.
    destruct (lookup_lt_is_Some_2 increments i) as [d Hd]; [lia|].
    destruct (lookup_lt_is_Some_2 (position s) i) as [p Hp]; [lia|].
    rewrite Hd, Hp. simpl. rewrite decide_True by lia. simpl.
    eexists _, _. split; [reflexivity|]. simpl. by rewrite length_insert.
  - intros s w1 Hs. unfold bind, defined.
    destruct (increments !! length (position output)); [|done].
    by rewrite (lookup_ge_None_2 (position s)) by lia.
Qed.

(** Storing in points[0] the value an entry already holds changes nothing. *)
Lemma store_in_first_point_same get set i v traj pt rest w :
  points traj = pt :: rest →
  get pt !! i = Some v →
  (∀ q, set (get q) q = q) →
  store_in_first_point get set i v traj w = Some (traj, w).
Proof.
  intros Hpts Hv Hset.
  unfold store_in_first_point, bind, defined, store, ret. rewrite Hpts. simpl.
  rewrite decide_True by (by eapply lookup_lt_Some). simpl.
  rewrite list_insert_id by done. rewrite Hset, <- Hpts.
  by destruct traj.
Qed.

(** After a run of [suddenHalt], points[0] holds in each published field
    the value the run writes for each joint. *)
Lemma suddenHalt_entries traj traj' w w' :
  suddenHalt traj w = Some (traj', w') →
  w' = w
  ∧ (publish_joint_positions (parameters_ (this w)) = true →
     ∀ j, (j < num_joints_ (this w))%nat →
       ∃ v pt rest, points traj' = pt :: rest
         ∧ position (original_joint_state_ (this w)) !! j = Some v
         ∧ positions pt !! j = Some v)
  ∧ (publish_joint_velocities (parameters_ (this w)) = true →
     ∀ j, (j < num_joints_ (this w))%nat →
       ∃ pt rest, points traj' = pt :: rest ∧ velocities pt !! j = Some 0%float).
Proof.
  unfold suddenHalt. intros Hrun. repeat jog_inv. jog_simpl.
  set (p := parameters_ (this w)) in *.
  set (snapshot := position (original_joint_state_ (this w))) in *.
  apply (for_invariant_indexed (λ i t w1,
    w1 = w
    ∧ (publish_joint_positions p = true →
       ∀ j, (j < i)%nat →
         ∃ v pt rest, points t = pt :: rest ∧ snapshot !! j = Some v
                      ∧ positions pt !! j = Some v)
    ∧ (publish_joint_velocities p = true →
       ∀ j, (j < i)%nat →
         ∃ pt rest, points t = pt :: rest ∧ velocities pt !! j = Some 0%float)))
    in Hrun.
  - done.
  - clear Hrun. intros i t w1 t' w2 (-> & Hpos & Hvel) Hstep. jog_inv.
    assert (w0 = w
            ∧ (publish_joint_positions p = true →
               ∀ j, (j < Datatypes.S i)%nat →
                 ∃ v pt rest, points a = pt :: rest ∧ snapshot !! j = Some v
                              ∧ positions pt !! j = Some v)
            ∧ (publish_joint_velocities p = true →
               ∀ j, (j < i)%nat →
                 ∃ pt rest, points a = pt :: rest ∧ velocities pt !! j = Some 0%float))
      as (-> & Hpos1 & Hvel1).
    { destruct (publish_joint_positions p) eqn:Hpp; [|by jog_inv].
      repeat jog_inv.
      match goal with E : store_in_first_point _ _ _ _ _ _ = Some _ |- _ =>
        apply store_in_first_point_run in E;
        destruct E as (-> & _ & _ & q & r & Hq & Hi & Hpts1) end.
      split; [done|]. split.
      - intros _ j Hj. destruct (decide (j = i)) as [->|Hne].
        + eexists _, _, _. split; [exact Hpts1|]. split; [eassumption|].
          simpl. by apply list_lookup_insert_eq.
        + destruct (Hpos eq_refl j) as (v & pt & rest & Hpts & Hv & Hpt); [lia|].
          rewrite Hq in Hpts. simplify_eq.
          eexists _, _, _. split; [exact Hpts1|]. split; [exact Hv|].
          simpl. by rewrite list_lookup_insert_ne.
      - intros Hpv j Hj. destruct (Hvel Hpv j Hj) as (pt & rest & Hpts & Hpt).
        rewrite Hq in Hpts. simplify_eq.
        eexists _, _. split; [exact Hpts1|]. done. }
    destruct (publish_joint_velocities p) eqn:Hpv; [|by jog_inv].
    match goal with E : store_in_first_point _ _ _ _ _ _ = Some _ |- _ =>
      apply store_in_first_point_run in E;
      destruct E as (-> & _ & _ & q & r & Hq & Hi & Hpts2) end.
    split; [done|]. split.
    + intros Hpp j Hj. destruct (Hpos1 Hpp j Hj) as (v & pt & rest & Hpts & Hv & Hpt).
      rewrite Hq in Hpts. simplify_eq.
      eexists _, _, _. split; [exact Hpts2|]. done.
    + intros _ j Hj. destruct (decide (j = i)) as [->|Hne].
      * eexists _, _. split; [exact Hpts2|]. simpl. by apply list_lookup_insert_eq.
      * destruct (Hvel1 eq_refl j) as (pt & rest & Hpts & Hpt); [lia|].
        rewrite Hq in Hpts. simplify_eq.
        eexists _, _. split; [exact Hpts2|]. simpl. by rewrite list_lookup_insert_ne.
  - split; [done|]. split; intros _ j Hj; lia.
Qed.

(** [suddenHalt] is idempotent: wherever a halt returns, halting its
    result again returns it unchanged and changes nothing in the object,
    whatever the trajectory held before and whichever fields are
    published. *)
Theorem suddenHalt_idempotent traj traj' w w' :
  suddenHalt traj w = Some (traj', w') →
  suddenHalt traj' w' = Some (traj', w').
Proof.
  intros Hrun. destruct (suddenHalt_entries _ _ _ _ Hrun) as (-> & Hpos & Hvel).
  clear Hrun. unfold suddenHalt, bind at 1, member, gets. unfold bind at 1, gets.
  match goal with |- context [for_ ?lo ?n ?b ?s0] =>
    destruct (for_defined (λ t w1, t = traj' ∧ w1 = w) b n lo s0 w)
      as (t1 & w1 & E & -> & ->); [|done|exact E]
  end.
  intros i t w1 Hi [-> ->]. exists traj', w. split; [|done].
  assert (∀ q, set_positions (positions q) q = q) as Hset_positions by (by intros []).
  assert (∀ q, set_velocities (velocities q) q = q) as Hset_velocities by (by intros []).
  unfold bind at 1.
  destruct (publish_joint_positions (parameters_ (this w))) eqn:Hpp.
  - destruct (Hpos eq_refl i) as (v & pt & rest & Hpts & Hv & Hpt); [simpl in Hi; lia|].
    unfold bind at 1 2, member, gets, defined. rewrite Hv. unfold ret at 1.
    rewrite (store_in_first_point_same _ _ _ _ _ _ _ _ Hpts Hpt Hset_positions).
    destruct (publish_joint_velocities (parameters_ (this w))) eqn:Hpv; [|done].
    destruct (Hvel eq_refl i) as (pt' & rest' & Hpts' & Hpt'); [simpl in Hi; lia|].
    by rewrite (store_in_first_point_same _ _ _ _ _ _ _ _ Hpts' Hpt' Hset_velocities).
  - unfold ret at 1.
    destruct (publish_joint_velocities (parameters_ (this w))) eqn:Hpv; [|done].
    destruct (Hvel eq_refl i) as (pt' & rest' & Hpts' & Hpt'); [simpl in Hi; lia|].
    by rewrite (store_in_first_point_same _ _ _ _ _ _ _ _ Hpts' Hpt' Hset_velocities).
Qed.

Lemma limited_refl t : limited t t.
Proof. repeat split. intros pt rest Hpts. by exists pt. Qed.

Lemma limited_trans t1 t2 t3 : limited t1 t2 → limited t2 t3 → limited t1 t3.
Proof.
  intros (? & ? & H12) (? & ? & H23). repeat split; try congruence.
  intros pt rest Hpts.
  destruct (H12 pt rest Hpts) as (pt2 & Hpts2 & ? & ? & ? & Hl2 & Hv2).
  destruct (H23 pt2 rest Hpts2) as (pt3 & Hpts3 & ? & ? & ? & Hl3 & Hv3).
  exists pt3. repeat split; try congruence.
  intros c Hc. rewrite Hv3 by lia. by apply Hv2.
Qed.

(** [enforceSRDFJointBounds] changes nothing of the trajectory but
    velocities of points[0], and of these never one of index c with
    c + 1 >= velocities.size(): the guard [velocities.size() > c + 1]
    keeps the velocity of the last joint from being limited. *)
Theorem enforceSRDFJointBounds_limits_velocities_only traj within traj' w w' :
  enforceSRDFJointBounds traj w = Some ((within, traj'), w') →
  limited traj traj'.
Proof.
  unfold enforceSRDFJointBounds. intros Hrun. case_decide.
  { repeat jog_inv. apply limited_refl. }
  repeat jog_inv.
  match goal with E : for_each _ _ _ _ = Some _ |- _ =>
    apply (for_each_invariant (λ s _, limited traj s.2)) in E;
      [exact E| |apply limited_refl] end.
  clear. intros joint [halting t] w1 [halting' t'] w2 Hsame Hstep. simpl in *.
  repeat jog_inv.
  assert (limited traj a0) as Hvelocity.
  { clear Hstep E2. jog_if; [|by jog_inv]. repeat jog_inv.
    match goal with E : for_break _ _ _ _ _ = Some _ |- _ =>
      apply (for_break_invariant (λ s _, limited traj s)) in E;
        [exact E| |exact Hsame] end.
    clear. intros c s w5 r' w6 Hs Hbody. repeat jog_inv.
    case_decide; [|by jog_inv]. repeat jog_inv.
    case_decide; [|by jog_inv]. repeat jog_inv.
    match goal with E : store_in_first_point _ _ _ _ _ _ = Some _ |- _ =>
      apply store_in_first_point_run in E;
      destruct E as (-> & ? & ? & q & rest & Hq & Hc & Hpts) end.
    eapply limited_trans; [exact Hs|].
    repeat split; try done.
    intros pt rest' Hpt. rewrite Hq in Hpt. simplify_eq. eexists.
    split; [exact Hpts|]. simpl. rewrite length_insert. repeat split; try done.
    intros c' Hc'. apply list_lookup_insert_ne.
    match goal with E : points s !! 0%nat = Some _ |- _ =>
      rewrite Hq in E; simpl in E; simplify_eq end. lia. }
  clear E0 E2. repeat first [jog_inv | jog_if | case_match]; simpl; done.
Qed.

(** An invariant of a range-for loop whose elements satisfy a predicate. *)
Lemma for_each_invariant_Forall {A S} (P : A → Prop) (I : S → World → Prop)
    (body : A → S → Jog S) l :
  (∀ a s w s' w', P a → I s w → body a s w = Some (s', w') → I s' w') →
  Forall P l →
  ∀ s w s' w', I s w → for_each l body s w = Some (s', w') → I s' w'.
Proof.
  intros Hbody HP. induction HP as [|a l Ha HP IH]; simpl; intros s w s' w' HI Hrun.
  - by jog_inv.
  - jog_inv. eapply IH; [|eassumption]. eauto.
Qed.

(** When the kinematic state satisfies the velocity bounds and the position
    bounds (with the margin) of every joint, [enforceSRDFJointBounds]
    returns true and leaves the trajectory, the object and the shared
    variables as they were. *)
Theorem enforceSRDFJointBounds_within_bounds traj within traj' w w' :
  forallb (λ joint,
      satisfiesVelocityBounds (kinematic_state_ (this w)) joint
      && satisfiesPositionBounds (kinematic_state_ (this w)) joint
           (- joint_limit_margin (parameters_ (this w)))%float) getJointModels = true →
  enforceSRDFJointBounds traj w = Some ((within, traj'), w') →
  within = true ∧ traj' = traj ∧ this w' = this w ∧ shared_variables w' = shared_variables w.
Proof.
  intros Hbounds. unfold enforceSRDFJointBounds. intros Hrun. case_decide.
  { repeat jog_inv. by jog_simpl. }
  repeat jog_inv. jog_simpl.
  rewrite forallb_forall in Hbounds.
  match goal with E : for_each _ _ _ _ = Some _ |- _ => rename E into Hloop end.
    apply (for_each_invariant_Forall
             (λ joint, satisfiesVelocityBounds (kinematic_state_ (this w)) joint = true
                       ∧ satisfiesPositionBounds (kinematic_state_ (this w)) joint
                           (- joint_limit_margin (parameters_ (this w)))%float = true)
             (λ s w1, s = (false, traj) ∧ w1 = w)) in Hloop.
  - destruct Hloop as [Hloop ->]. by simplify_eq.
  - clear. intros joint [halting t] w1 [halting' t'] w2 [Hvel Hpos] [Hs ->] Hstep.
    simplify_eq. repeat jog_inv. rewrite Hvel in *. simpl in *. repeat jog_inv.
    match goal with E : for_break _ _ _ _ _ = Some _ |- _ =>
      apply (for_break_invariant (λ _ w1, w1 = w)) in E; [subst|clear|done] end.
    + rewrite Hpos in Hstep. simpl in Hstep. by jog_inv.
    + intros c s w5 r' w6 -> Hbody. repeat jog_inv.
      case_decide; repeat jog_inv; done.
  - apply Forall_forall. intros joint Hin. apply list_elem_of_In in Hin.
    specialize (Hbounds joint Hin). by apply andb_prop in Hbounds.
  - done.
Qed.

(** With no more deltas than velocities [calculateJointVelocities] sets
    velocity i to delta_theta[i] / publish_period, leaves the velocities
    beyond the deltas and the names, positions and efforts alone, and
    changes nothing in the object. *)
Theorem calculateJointVelocities_divides (joint_state : JointState) (delta_theta : VectorXd)
    (w : World) :
  (length delta_theta ≤ length (velocity joint_state))%nat →
  ∃ joint_state',
    calculateJointVelocities joint_state delta_theta w = Some (joint_state', w)
    ∧ name joint_state' = name joint_state
    ∧ position joint_state' = position joint_state
    ∧ effort joint_state' = effort joint_state
    ∧ length (velocity joint_state') = length (velocity joint_state)
    ∧ ∀ i v, velocity joint_state !! i = Some v →
        velocity joint_state' !! i
        = Some (match delta_theta !! i with
                | Some d => (d / publish_period (parameters_ (this w)))%float
                | None => v
                end).
Proof.
  intros Hlen. unfold calculateJointVelocities, bind at 1, member, gets.
  match goal with |- context [for_ ?lo ?n ?b ?s0] =>
    destruct (for_defined
      (λ s w1, w1 = w ∧ length (velocity s) = length (velocity joint_state)) b n lo s0 w)
      as (s1 & w1 & E & -> & Hlen1)
  end.
  { intros i s w1 Hi (-> & Hs). unfold bind, defined, store, ret.
    destruct (lookup_lt_is_Some_2 delta_theta i) as [d Hd]; [lia|].
    rewrite Hd. simpl. rewrite decide_True by lia. simpl.
    eexists _, _. split; [reflexivity|]. simpl. by rewrite length_insert. }
  { done. }
  exists s1. rewrite E. split; [done|].
  apply (for_invariant_indexed (λ i s _,
    name s = name joint_state ∧ position s = position joint_state
    ∧ effort s = effort joint_state
    ∧ length (velocity s) = length (velocity joint_state)
    ∧ ∀ j v, velocity joint_state !! j = Some v →
        velocity s !! j
        = Some (if decide (j < i)%nat
                then match delta_theta !! j with
                     | Some d => (d / publish_period (parameters_ (this w)))%float
                     | None => v
                     end
                else v))) in E.
  - destruct E as (? & ? & ? & ? & Hvel). repeat split; try done.
    intros i v Hv. rewrite (Hvel i v Hv). simpl. case_decide; [done|].
    by rewrite lookup_ge_None_2 by lia.
  - clear. intros i s w1 s' w2 (? & ? & ? & Hl & Hvel) Hstep. repeat jog_inv. jog_simpl.
    repeat split; try done; [by rewrite length_insert|].
    intros j v Hv. destruct (decide (j = i)) as [->|Hne].
    + rewrite list_lookup_insert_eq by done.
      rewrite decide_True by lia.
      match goal with E : delta_theta !! i = Some _ |- _ => by rewrite E end.
    + rewrite list_lookup_insert_ne by done. rewrite (Hvel j v Hv).
      repeat case_decide; try done; try lia.
  - repeat split; done.
Qed.

(** A second [updateJoints] on the same telemetry changes nothing of the
    tracked joint state nor of the snapshot. *)
Theorem updateJoints_repeated w w1 w2 :
  updateJoints w = Some (true, w1) →
  updateJoints w1 = Some (true, w2) →
  joint_state_ (this w2) = joint_state_ (this w1)
  ∧ original_joint_state_ (this w2) = original_joint_state_ (this w1).
Proof.
  intros Hfirst Hsecond.
  destruct (updateJoints_run _ _ Hfirst)
    as ([_ _ Hmap _ _ Hshared _ _] & Horiginal1 & _ & Hposition1).
  destruct (updateJoints_run _ _ Hsecond) as (_ & Horiginal2 & _ & Hposition2).
  destruct (updateJoints_frame _ _ _ Hsecond) as ((Hname & Hvelocity & Heffort & _) & _).
  assert (joint_state_ (this w2) = joint_state_ (this w1)) as Hsame.
  { rewrite Hmap, Hshared, Hposition1 in Hposition2.
    rewrite telemetry_writes_idempotent, <- Hposition1 in Hposition2.
    destruct (joint_state_ (this w2)), (joint_state_ (this w1)). simpl in *. congruence. }
  split; [done|]. congruence.
Qed.

(** The zeroing loop of [scaleJointCommand]. *)
Lemma zero_fill (n : nat) (w : World) :
  ∀ r0, length r0 = n →
    for_ 0 n (λ i result, store i 0%float result) r0 w = Some (replicate n 0%float, w).
Proof.
  intros r0 Hlen.
  destruct (for_defined (λ r w1, w1 = w ∧ length r = n)
              (λ i result, store i 0%float result) n 0%nat r0 w)
    as (r & w1 & E & -> & Hr).
  { intros i s w1 Hi [-> Hs]. unfold store. rewrite decide_True by lia.
    eexists _, _. split; [reflexivity|]. by rewrite length_insert. }
  { done. }
  rewrite E. do 2 f_equal.
  apply (for_invariant_indexed
           (λ i r _, r = replicate i 0%float ++ drop i r0)) in E.
  - simpl in E. rewrite E, drop_ge, app_nil_r by lia. done.
  - clear - Hlen. intros i s w1 s' w2 -> Hstep. jog_inv.
    apply overwrite_next_constant.
    rewrite length_app, length_replicate, length_drop in L. lia.
  - by rewrite drop_0.
Qed.

(** For a command type other than "unitless" and "speed_units"
    [scaleJointCommand] returns all zeros, whatever the command: the result
    is zeroed before the names are looked up, and no entry is assigned.  It
    changes neither the object nor the shared variables. *)
Theorem scaleJointCommand_unexpected_type (command : JointJog) (w : World) result w' :
  command_in_type (parameters_ (this w)) ≠ "unitless" →
  command_in_type (parameters_ (this w)) ≠ "speed_units" →
  scaleJointCommand command w = Some (result, w') →
  result = replicate (num_joints_ (this w)) 0%float
  ∧ this w' = this w ∧ shared_variables w' = shared_variables w.
Proof.
  intros Hunitless Hspeed Hrun. unfold scaleJointCommand in Hrun.
  repeat jog_inv. jog_simpl.
  match goal with E : for_ _ _ (λ i result, store i _ result) _ _ = Some _ |- _ =>
    rewrite zero_fill in E by apply length_resize; injection E as <- <- end.
  apply (for_invariant
             (λ r w1, r = replicate (num_joints_ (this w)) 0%float
                      ∧ this w1 = this w ∧ shared_variables w1 = shared_variables w))
      in Hrun; [done| |done].
  clear - Hunitless Hspeed. intros i r w1 r' w2 (-> & Hthis & Hshared) Hstep.
  repeat jog_inv. case_match; repeat jog_inv; jog_simpl; [|done].
  rewrite Hthis in Hstep. rewrite !decide_False in Hstep by done.
  repeat jog_inv. by jog_simpl.
Qed.


(** The name map built by the set-up: a name outside the list keeps its
    entry, a name of the list gets its last index, and every entry is an
    old one or the index of its name. *)
Lemma name_map_untouched (names : list string) :
  ∀ (m0 : gmap string nat) (f : nat → string → nat * string) nm,
    (∀ j n, (f j n).2 = n) →
    nm ∉ names →
    foldl (λ (m : gmap string nat) '(i, n), <[n := i]> m) m0 (imap f names) !! nm = m0 !! nm.
Proof.
  induction names as [|n names IH]; intros m0 f nm Hf Hnm; [done|].
  simpl. apply not_elem_of_cons in Hnm as [Hne Hnm].
  rewrite IH; [|by intros; apply Hf|done].
  specialize (Hf 0%nat n). destruct (f 0%nat n) as [i n']. simpl in Hf. subst n'.
  by rewrite lookup_insert_ne.
Qed.

Lemma name_map_lookup (names : list string) :
  ∀ (m0 : gmap string nat) k i nm,
    names !! i = Some nm →
    nm ∉ drop (Datatypes.S i) names →
    foldl (λ (m : gmap string nat) '(i, n), <[n := i]> m) m0
          (imap (λ j, pair (k + j)%nat) names) !! nm = Some (k + i)%nat.
Proof.
  induction names as [|n names IH]; intros m0 k i nm Hi Hnm; [done|].
  simpl. destruct i as [|i]; simpl in *.
  - simplify_eq. rewrite name_map_untouched; [|done|by rewrite drop_0 in Hnm].
    by rewrite Nat.add_0_r, lookup_insert_eq.
  - erewrite (imap_ext _ (λ j, pair (Datatypes.S k + j)%nat)).
    + rewrite (IH _ (Datatypes.S k) i nm Hi Hnm). f_equal. lia.
    + intros j x _. simpl. f_equal. lia.
Qed.

Lemma name_map_sound (names : list string) :
  ∀ (m0 : gmap string nat) k nm c,
    foldl (λ (m : gmap string nat) '(i, n), <[n := i]> m) m0
          (imap (λ j, pair (k + j)%nat) names) !! nm = Some c →
    m0 !! nm = Some c ∨ ∃ i, c = (k + i)%nat ∧ names !! i = Some nm.
Proof.
  induction names as [|n names IH]; intros m0 k nm c Hc; [by left|].
  simpl in Hc.
  erewrite (imap_ext _ (λ j, pair (Datatypes.S k + j)%nat)) in Hc.
  2:{ intros j x _. simpl. f_equal. lia. }
  apply IH in Hc as [Hc|(i & -> & Hi)].
  - destruct (decide (n = nm)) as [->|Hne].
    + rewrite lookup_insert_eq in Hc. simplify_eq. right. exists 0%nat. done.
    + rewrite lookup_insert_ne in Hc by done. by left.
  - right. exists (Datatypes.S i). split; [lia|done].
Qed.

(** The set-up of [startMainLoop] is always defined.  It leaves the shared
    variables alone, sets num_joints_ to the number of variable names of the
    move group, gives the tracked joint state these names and num_joints_
    positions, velocities and efforts, appends num_joints_ filters to those
    it finds, clears the pause flag, maps each name to its index (the last
    one, for a name listed twice), and every entry of the name map is one it
    found or the index of its name. *)
Theorem startMainLoop_setup_establishes (w : World) :
  ∃ w',
    startMainLoop_setup w = Some (tt, w')
    ∧ shared_variables w' = shared_variables w
    ∧ num_joints_ (this w') = length getVariableNames
    ∧ name (joint_state_ (this w')) = getVariableNames
    ∧ length (position (joint_state_ (this w'))) = num_joints_ (this w')
    ∧ length (velocity (joint_state_ (this w'))) = num_joints_ (this w')
    ∧ length (effort (joint_state_ (this w'))) = num_joints_ (this w')
    ∧ length (position_filters_ (this w'))
      = (length (position_filters_ (this w)) + num_joints_ (this w'))%nat
    ∧ halt_outgoing_jog_cmds_ (this w') = false
    ∧ (∀ i nm, getVariableNames !! i = Some nm →
               nm ∉ drop (Datatypes.S i) getVariableNames →
               joint_state_name_map_ (this w') !! nm = Some i)
    ∧ (∀ nm c, joint_state_name_map_ (this w') !! nm = Some c →
               joint_state_name_map_ (this w) !! nm = Some c
               ∨ getVariableNames !! c = Some nm).
Proof.
  unfold startMainLoop_setup, bind, gets, assign, modify. cbv zeta.
  eexists. split; [reflexivity|]. simpl.
  rewrite !length_resize, length_app, length_replicate.
  repeat split; try done.
  - intros i nm Hi Hnm.
    apply (name_map_lookup getVariableNames (joint_state_name_map_ (this w)) 0 i nm Hi Hnm).
  - intros nm c Hc.
    apply (name_map_sound getVariableNames (joint_state_name_map_ (this w)) 0) in Hc.
    destruct Hc as [Hc|(i & -> & Hi)]; [by left|by right].
Qed.


#[local] Instance unwarned_preorder : PreOrder unwarned.
Proof.
  split.
  - by intros w.
  - intros w1 w2 w3 [] []. split; congruence.
Qed.

Ltac unwarned_tac := preserves_tac ltac:(by split).

Lemma addJointIncrements_unwarned o i : preserves unwarned (addJointIncrements o i).
Proof. unfold addJointIncrements. unwarned_tac. Qed.

Lemma lowPassFilterPositions_unwarned j : preserves unwarned (lowPassFilterPositions j).
Proof. unfold lowPassFilterPositions. unwarned_tac. Qed.

Lemma calculateJointVelocities_unwarned j d : preserves unwarned (calculateJointVelocities j d).
Proof. unfold calculateJointVelocities. unwarned_tac. Qed.

Lemma composeJointTrajMessage_unwarned j : preserves unwarned (composeJointTrajMessage j).
Proof. unfold composeJointTrajMessage. unwarned_tac. Qed.

Lemma store_in_first_point_unwarned get set i v t :
  preserves unwarned (store_in_first_point get set i v t).
Proof. unfold store_in_first_point. unwarned_tac. Qed.

#[local] Hint Resolve store_in_first_point_unwarned : jog.

Lemma suddenHalt_unwarned t : preserves unwarned (suddenHalt t).
Proof. unfold suddenHalt. unwarned_tac. Qed.

Lemma enforceSRDFJointBounds_unwarned t : preserves unwarned (enforceSRDFJointBounds t).
Proof. unfold enforceSRDFJointBounds. unwarned_tac. Qed.

Lemma insertRedundantPointsIntoTrajectory_unwarned t c :
  preserves unwarned (insertRedundantPointsIntoTrajectory t c).
Proof. unfold insertRedundantPointsIntoTrajectory. unwarned_tac. Qed.

(** Every run of [convertDeltasToOutgoingCmd] returns true, publishes
    exactly one message on the warning topic, true whenever has_warning_ was
    set on entry, and leaves has_warning_ cleared. *)
Theorem convertDeltasToOutgoingCmd_publishes_one_warning ok w w' :
  convertDeltasToOutgoingCmd w = Some (ok, w') →
  ok = true
  ∧ has_warning_ (this w') = false
  ∧ ∃ active, warning_pub_ w' = warning_pub_ w ++ [active]
              ∧ (has_warning_ (this w) = true → active = true).
Proof.
  unfold convertDeltasToOutgoingCmd. intros Hrun. repeat jog_inv. jog_simpl.
  match goal with E : addJointIncrements _ _ _ = Some _ |- _ =>
    pose proof (addJointIncrements_run _ _ _ _ _ _ E) as [-> _];
    apply addJointIncrements_unwarned in E; destruct E as [Ht1 Hf1] end.
  simpl in Hrun. repeat jog_inv. jog_simpl.
  repeat match goal with
  | E : lowPassFilterPositions _ _ = Some _ |- _ =>
      apply lowPassFilterPositions_unwarned in E; destruct E
  | E : calculateJointVelocities _ _ _ = Some _ |- _ =>
      apply calculateJointVelocities_unwarned in E; destruct E
  | E : composeJointTrajMessage _ _ = Some _ |- _ =>
      apply composeJointTrajMessage_unwarned in E; destruct E
  | E : enforceSRDFJointBounds _ _ = Some _ |- _ =>
      apply enforceSRDFJointBounds_unwarned in E; destruct E
  end; jog_simpl.
  jog_run; jog_simpl.
  all: repeat match goal with
  | E : suddenHalt _ _ = Some _ |- _ =>
      apply suddenHalt_unwarned in E; destruct E
  | E : insertRedundantPointsIntoTrajectory _ _ _ = Some _ |- _ =>
      apply insertRedundantPointsIntoTrajectory_unwarned in E; destruct E
  end; jog_simpl.
  all: split; [done|]; split; [done|].
  all: eexists; split;
    [repeat match goal with
       | H : warning_pub_ ?a = _ |- context [warning_pub_ ?a] => rewrite H
       end; reflexivity|].
  all: intros Hw; try done.
  all: repeat match goal with
       | H : has_warning_ (this ?a) = _ |- context [has_warning_ (this ?a)] => rewrite H
       end; done.
Qed.

(** ** Passes of the main loop *)

#[local] Instance quiet_preorder : PreOrder quiet.
Proof.
  split.
  - by intros w.
  - intros w1 w2 w3 [] []. split; congruence.
Qed.

Ltac quiet_tac := preserves_tac ltac:(by split).

Lemma updateJoints_quiet : preserves quiet updateJoints.
Proof. unfold updateJoints. quiet_tac. Qed.

Lemma resetPositionFilters_quiet : preserves quiet resetPositionFilters.
Proof. unfold resetPositionFilters. quiet_tac. Qed.

(** The part of a pass before the pause test. *)
Lemma mainLoopIteration_start count w outcome count' w' :
  mainLoopIteration count w = Some ((outcome, count'), w') →
  (outcome = WaitingForJoints ∧ count' = count ∧ quiet w w')
  ∨ ∃ w1, quiet w w1
      ∧ (if halt_outgoing_jog_cmds_ (this w)
         then outcome = Paused ∧ count' = count ∧ quiet w1 w'
         else outcome ≠ Paused ∧ outcome ≠ WaitingForJoints).
Proof.
  intros Hrun. unfold mainLoopIteration in Hrun. jog_inv.
  match goal with E : updateJoints _ = Some _ |- _ =>
    apply updateJoints_quiet in E; rename E into Hup end.
  destruct a; simpl in Hrun; [|jog_inv; by left].
  right. repeat jog_inv. jog_simpl.
  match type of Hrun with _ ?wm = Some _ => exists wm end.
  split. { destruct Hup. split; jog_simpl; congruence. }
  destruct Hup as [_ <- _ _ _ _ _ _ _ _].
  destruct (halt_outgoing_jog_cmds_ (this w0)).
  - repeat jog_inv.
    match goal with E : resetPositionFilters _ = Some _ |- _ =>
      apply resetPositionFilters_quiet in E; rename E into Hreset end. done.
  - jog_run; done.
Qed.

(** While halt_outgoing_jog_cmds_ is set a pass ends waiting for joints or
    paused: the count of zero cycles, the staged command, ok_to_publish and
    the shared outgoing command are as before, and the flag stays set. *)
Theorem mainLoopIteration_paused count w outcome count' w' :
  mainLoopIteration count w = Some ((outcome, count'), w') →
  halt_outgoing_jog_cmds_ (this w) = true →
  (outcome = WaitingForJoints ∨ outcome = Paused)
  ∧ count' = count
  ∧ halt_outgoing_jog_cmds_ (this w') = true
  ∧ outgoing_command_ (this w') = outgoing_command_ (this w)
  ∧ ok_to_publish (shared_variables w') = ok_to_publish (shared_variables w)
  ∧ outgoing_command (shared_variables w') = outgoing_command (shared_variables w).
Proof.
  intros Hrun Hpaused. apply mainLoopIteration_start in Hrun.
  destruct Hrun as [(-> & -> & [])|(w1 & [] & Hrest)].
  - repeat split; try congruence. by left.
  - rewrite Hpaused in Hrest. destruct Hrest as (-> & -> & []).
    repeat split; try congruence. by right.
Qed.

(** A joint command with a NaN or a velocity of magnitude above 1 is
    skipped: when the loop is not paused and only the joint command is
    non-zero, the pass ends waiting for joints or skipped, before the test
    for a stale command; the count of zero cycles, the staged command,
    ok_to_publish and the shared outgoing command are as before. *)
Theorem mainLoopIteration_skips_invalid_joint_command count w outcome count' w' :
  mainLoopIteration count w = Some ((outcome, count'), w') →
  halt_outgoing_jog_cmds_ (this w) = false →
  zero_cartesian_cmd_flag (shared_variables w) = true →
  zero_joint_cmd_flag (shared_variables w) = false →
  existsb (λ velocity, isnan velocity || gtb (fabs velocity) 1)
          (jj_velocities (joint_command_deltas (shared_variables w))) = true →
  (outcome = WaitingForJoints ∨ outcome = Skipped)
  ∧ count' = count
  ∧ outgoing_command_ (this w') = outgoing_command_ (this w)
  ∧ ok_to_publish (shared_variables w') = ok_to_publish (shared_variables w)
  ∧ outgoing_command (shared_variables w') = outgoing_command (shared_variables w).
Proof.
  intros Hrun Hpaused Hcartesian Hjoint Hinvalid.
  unfold mainLoopIteration in Hrun. jog_inv.
  match goal with E : updateJoints _ = Some _ |- _ =>
    apply updateJoints_quiet in E; rename E into Hup end.
  destruct Hup.
  destruct a; simpl in Hrun; [|jog_inv; repeat split; try congruence; by left].
  repeat jog_inv. jog_simpl.
  rewrite quiet_paused0, Hpaused in Hrun. repeat jog_inv. jog_simpl.
  rewrite quiet_zero_cartesian0, Hcartesian, quiet_zero_joint0, Hjoint in *.
  simpl in *. repeat jog_inv. jog_simpl.
  match goal with E : jointJogCalcs _ _ = Some _ |- _ =>
    unfold jointJogCalcs in E; rename E into Hcalcs end.
  rewrite quiet_joint_command0, Hinvalid in Hcalcs. repeat jog_inv. simpl in Hrun. jog_inv.
  jog_simpl. repeat split; try congruence. by right.
Qed.

(** The count of zero cycles: a pass that reaches the end of the loop body
    and halts adds one, up to INT_MAX; one that reaches the end without
    halting resets the count to 0; a pass that ends earlier leaves it. *)
Theorem mainLoopIteration_counts_zero_cycles count w outcome count' w' :
  mainLoopIteration count w = Some ((outcome, count'), w') →
  count' = match outcome with
           | Completed =>
               if halts (shared_variables w)
               then if count <? INT_MAX then count + 1 else count
               else 0
           | _ => count
           end.
Proof.
  intros Hrun. unfold mainLoopIteration in Hrun. jog_inv.
  match goal with E : updateJoints _ = Some _ |- _ =>
    apply updateJoints_configured in E;
    destruct E as [Hparameters _ _ _ Hpaused Hshared _ _] end.
  destruct a; simpl in Hrun; [|by jog_inv].
  repeat jog_inv. jog_simpl.
  unfold halts, both_zero.
  destruct (halt_outgoing_jog_cmds_ (this w0)); [by repeat jog_inv|].
  repeat jog_inv. jog_simpl. rewrite Hshared in *.
  jog_run; jog_simpl.
  all: repeat match goal with
       | E : _ _ = Some (_, _) |- _ => steady_of E; destruct E
       end; jog_simpl.
  all: repeat match goal with
       | H : shared_variables _ = _ |- _ => rewrite H in *
       end; jog_simpl.
  all: destruct (zero_cartesian_cmd_flag (shared_variables w)),
         (zero_joint_cmd_flag (shared_variables w)),
         (command_is_stale (shared_variables w)); simpl in *; try done.
Qed.

(** The publish policy: a pass that reaches the end of the loop body sets
    ok_to_publish to false, and leaves the shared outgoing command, exactly
    when it halts, num_outgoing_halt_msgs_to_publish is not 0 and the count
    of zero cycles exceeds it; otherwise it shares the staged command and
    sets ok_to_publish to true. *)
Theorem mainLoopIteration_publish_policy count w count' w' :
  mainLoopIteration count w = Some ((Completed, count'), w') →
  if halts (shared_variables w)
     && negb (num_outgoing_halt_msgs_to_publish (parameters_ (this w)) =? 0)
     && (num_outgoing_halt_msgs_to_publish (parameters_ (this w)) <? count)
  then ok_to_publish (shared_variables w') = false
       ∧ outgoing_command (shared_variables w') = outgoing_command (shared_variables w)
  else ok_to_publish (shared_variables w') = true
       ∧ outgoing_command (shared_variables w') = outgoing_command_ (this w').
Proof.
  intros Hrun. unfold mainLoopIteration in Hrun. jog_inv.
  match goal with E : updateJoints _ = Some _ |- _ =>
    apply updateJoints_configured in E;
    destruct E as [Hparameters _ _ _ Hpaused Hshared _ _] end.
  destruct a; simpl in Hrun; [|by jog_inv].
  repeat jog_inv. jog_simpl.
  unfold halts, both_zero.
  destruct (halt_outgoing_jog_cmds_ (this w0)); [by repeat jog_inv|].
  repeat jog_inv. jog_simpl. rewrite Hshared, Hparameters in *.
  jog_run; jog_simpl.
  all: repeat match goal with
       | E : _ _ = Some (_, _) |- _ => steady_of E; destruct E
       end; jog_simpl.
  all: repeat match goal with
       | H : shared_variables _ = _ |- _ => rewrite H in *
       | H : parameters_ (this _) = _ |- _ => rewrite H in *
       end; jog_simpl.
  all: destruct (zero_cartesian_cmd_flag (shared_variables w)),
         (zero_joint_cmd_flag (shared_variables w)),
         (command_is_stale (shared_variables w)); simpl in *; try done.
  all: repeat match goal with
       | H : _ && _ = _ |- _ => rewrite H
       end; done.
Qed.

(** A Cartesian command with a NaN component is skipped: when the loop is
    not paused and the Cartesian command is non-zero, the pass ends waiting
    for joints or skipped, whatever the joint command and before the test
    for a stale command; the count of zero cycles, the staged command,
    ok_to_publish and the shared outgoing command are as before. *)
Theorem mainLoopIteration_skips_invalid_cartesian_command count w outcome count' w' :
  mainLoopIteration count w = Some ((outcome, count'), w') →
  halt_outgoing_jog_cmds_ (this w) = false →
  zero_cartesian_cmd_flag (shared_variables w) = false →
  any_of isnan (twist (command_deltas (shared_variables w))) = true →
  (outcome = WaitingForJoints ∨ outcome = Skipped)
  ∧ count' = count
  ∧ outgoing_command_ (this w') = outgoing_command_ (this w)
  ∧ ok_to_publish (shared_variables w') = ok_to_publish (shared_variables w)
  ∧ outgoing_command (shared_variables w') = outgoing_command (shared_variables w).
Proof.
  intros Hrun Hpaused Hcartesian Hinvalid.
  unfold mainLoopIteration in Hrun. jog_inv.
  match goal with E : updateJoints _ = Some _ |- _ =>
    apply updateJoints_quiet in E; rename E into Hup end.
  destruct Hup as [? Hpaused0 ? ? ? ? Hcartesian0 ? ? Hcommand0].
  destruct a; simpl in Hrun; [|jog_inv; repeat split; try congruence; by left].
  repeat jog_inv. jog_simpl.
  rewrite Hpaused0, Hpaused in Hrun. repeat jog_inv. jog_simpl.
  rewrite Hcartesian0, Hcartesian in *.
  simpl in *. repeat jog_inv. jog_simpl.
  match goal with E : cartesianJogCalcs _ _ = Some _ |- _ =>
    unfold cartesianJogCalcs in E; rename E into Hcalcs end.
  repeat jog_inv.
  rewrite Hcommand0, Hinvalid in Hcalcs. repeat jog_inv. simpl in Hrun. jog_inv.
  jog_simpl. repeat split; try congruence. by right.
Qed.

(** The sizes of the tracked joint state through the calculations. *)
Lemma still_sized w w1 : still w w1 → sized w → sized w1.
Proof. intros [[] Hjs] [? ?]. unfold sized. rewrite Hjs. split; congruence. Qed.

Lemma cartesianJogCalcs_sized cmd ok w w' :
  cartesianJogCalcs cmd w = Some (ok, w') →
  sized w →
  length (position (original_joint_state_ (this w))) = num_joints_ (this w) →
  sized w'.
Proof.
  unfold cartesianJogCalcs. intros Hrun Hsized Hsnapshot.
  assert (∀ w1, still w w1 → sized w1
    ∧ length (position (original_joint_state_ (this w1))) = num_joints_ (this w1))
    as Hkeep.
  { intros w1 [[] ?]. destruct Hsized. unfold sized. chain_tac. done. }
  repeat first [jog_inv | jog_if]; jog_simpl.
  all: repeat match goal with
       | E : ?m _ = Some (_, _) |- _ =>
           lazymatch m with
           | convertDeltasToOutgoingCmd => fail
           | _ => still_of E; destruct E as [[] ?]
           end
       end; jog_simpl; chain_tac.
  all: try match goal with
       | E : convertDeltasToOutgoingCmd ?w1 = Some _ |- _ =>
           assert (still w w1) as Hstill by (repeat split; jog_simpl; congruence);
           destruct (Hkeep w1 Hstill) as [Hs1 Hl1];
           destruct (convertDeltasToOutgoingCmd_run _ _ _ E Hs1 Hl1) as [_ (_ & ? & _)];
           done
       end.
  all: by destruct Hsized.
Qed.

Lemma jointJogCalcs_sized cmd ok w w' :
  jointJogCalcs cmd w = Some (ok, w') →
  sized w →
  length (position (original_joint_state_ (this w))) = num_joints_ (this w) →
  sized w'.
Proof.
  unfold jointJogCalcs. intros Hrun Hsized Hsnapshot.
  assert (∀ w1, still w w1 → sized w1
    ∧ length (position (original_joint_state_ (this w1))) = num_joints_ (this w1))
    as Hkeep.
  { intros w1 [[] ?]. destruct Hsized. unfold sized. chain_tac. done. }
  repeat first [jog_inv | jog_if]; jog_simpl.
  all: repeat match goal with
       | E : ?m _ = Some (_, _) |- _ =>
           lazymatch m with
           | convertDeltasToOutgoingCmd => fail
           | _ => still_of E; destruct E as [[] ?]
           end
       end; jog_simpl; chain_tac.
  all: try match goal with
       | E : convertDeltasToOutgoingCmd ?w1 = Some _ |- _ =>
           assert (still w w1) as Hstill by (repeat split; jog_simpl; congruence);
           destruct (Hkeep w1 Hstill) as [Hs1 Hl1];
           destruct (convertDeltasToOutgoingCmd_run _ _ _ E Hs1 Hl1) as [_ (_ & ? & _)];
           done
       end.
  all: by destruct Hsized.
Qed.

Lemma resetPositionFilters_still : preserves still resetPositionFilters.
Proof. unfold resetPositionFilters. still_tac. Qed.

(** A pass of the main loop keeps the tracked joint state sized: when it
    has num_joints_ positions and velocities before a pass it has them
    after it, however the pass ends, and num_joints_, the parameters and
    the name map are unchanged. *)
Theorem mainLoopIteration_keeps_sizes count w outcome count' w' :
  mainLoopIteration count w = Some ((outcome, count'), w') →
  sized w →
  sized w'
  ∧ num_joints_ (this w') = num_joints_ (this w)
  ∧ parameters_ (this w') = parameters_ (this w)
  ∧ joint_state_name_map_ (this w') = joint_state_name_map_ (this w).
Proof.
  intros Hrun Hsized. unfold mainLoopIteration in Hrun. jog_inv.
  match goal with E : updateJoints _ = Some _ |- _ =>
    pose proof (updateJoints_frame _ _ _ E) as ((_ & Hvelocity & _ & Hlength) & _ & Hsnapshot);
    apply updateJoints_configured in E;
    destruct E as [Hparameters Hnum Hmap _ _ _ _ _] end.
  assert (sized w0) as Hsized0.
  { destruct Hsized. unfold sized. rewrite Hvelocity, Hlength, Hnum. done. }
  destruct a; simpl in Hrun; [|by jog_inv].
  specialize (Hsnapshot eq_refl).
  repeat jog_inv. jog_simpl.
  match type of Hrun with _ ?wm = Some _ => remember wm as w1 eqn:Hw1 end.
  assert (sized w1 ∧ num_joints_ (this w1) = num_joints_ (this w)
          ∧ parameters_ (this w1) = parameters_ (this w)
          ∧ joint_state_name_map_ (this w1) = joint_state_name_map_ (this w)
          ∧ length (position (original_joint_state_ (this w1))) = num_joints_ (this w1))
    as (Hsized1 & Hnum1 & Hparameters1 & Hmap1 & Hsnapshot1).
  { subst w1. unfold sized in *. jog_simpl. rewrite Hsnapshot. destruct Hsized0.
    repeat split; congruence. }
  clear Hw1 Hsized Hsized0 Hvelocity Hlength Hsnapshot Hparameters Hnum Hmap.
  rewrite <- Hnum1, <- Hparameters1, <- Hmap1. clear Hnum1 Hparameters1 Hmap1.
  jog_run; jog_simpl.
  all: repeat match goal with
       | E : cartesianJogCalcs _ _ = Some _ |- _ =>
           pose proof (cartesianJogCalcs_sized _ _ _ _ E Hsized1 Hsnapshot1);
           steady_of E; destruct E
       | E : jointJogCalcs _ _ = Some _ |- _ =>
           pose proof (jointJogCalcs_sized _ _ _ _ E Hsized1 Hsnapshot1);
           steady_of E; destruct E
       | E : resetPositionFilters _ = Some _ |- _ =>
           apply resetPositionFilters_still in E; destruct E as [[] ?]
       | E : _ _ = Some (_, _) |- _ => still_of E; destruct E as [[] ?]
       end; jog_simpl.
  all: unfold sized in *; jog_simpl; chain_tac; try done.
Qed.

(** With no more filters than positions [lowPassFilterPositions] feeds
    position i to filter i, once each: position i becomes the filter's
    output and filter i its next state; positions beyond the filters, the
    names, velocities and efforts, the number of filters and the shared
    variables are unchanged. *)
Theorem lowPassFilterPositions_filters_each (joint_state : JointState) (w : World) :
  (length (position_filters_ (this w)) ≤ length (position joint_state))%nat →
  ∃ joint_state' w',
    lowPassFilterPositions joint_state w = Some (joint_state', w')
    ∧ name joint_state' = name joint_state
    ∧ velocity joint_state' = velocity joint_state
    ∧ effort joint_state' = effort joint_state
    ∧ length (position joint_state') = length (position joint_state)
    ∧ length (position_filters_ (this w')) = length (position_filters_ (this w))
    ∧ shared_variables w' = shared_variables w
    ∧ (∀ i f p, position_filters_ (this w) !! i = Some f →
                position joint_state !! i = Some p →
                position joint_state' !! i = Some (lpf_filter f p).1
                ∧ position_filters_ (this w') !! i = Some (lpf_filter f p).2)
    ∧ (∀ i, (length (position_filters_ (this w)) ≤ i)%nat →
            position joint_state' !! i = position joint_state !! i).
Proof.
  intros Hlen. unfold lowPassFilterPositions, bind at 1, member, gets.
  set (n := length (position_filters_ (this w))) in *.
  match goal with |- context [for_ ?lo ?count ?b ?s0] =>
    destruct (for_defined
      (λ s w1, length (position s) = length (position joint_state)
               ∧ length (position_filters_ (this w1)) = n) b count lo s0 w)
      as (s1 & w1 & E & Hlen1 & Hfilters1)
  end.
  { intros i s w1 Hi (Hs & Hf). unfold bind, member, gets, defined, store, ret.
    destruct (lookup_lt_is_Some_2 (position_filters_ (this w1)) i) as [f Hfi]; [lia|].
    destruct (lookup_lt_is_Some_2 (position s) i) as [p Hp]; [lia|].
    rewrite Hfi, Hp. simpl. destruct (lpf_filter f p) as [filtered f'].
    unfold assign, modify. simpl. rewrite decide_True by lia. simpl.
    eexists _, _. split; [reflexivity|]. simpl. by rewrite !length_insert. }
  { done. }
  exists s1, w1. split; [done|].
  apply (for_invariant_indexed (λ i s w1,
    name s = name joint_state ∧ velocity s = velocity joint_state
    ∧ effort s = effort joint_state
    ∧ shared_variables w1 = shared_variables w
    ∧ length (position s) = length (position joint_state)
    ∧ length (position_filters_ (this w1)) = n
    ∧ (∀ j, (i ≤ j)%nat →
            position s !! j = position joint_state !! j
            ∧ position_filters_ (this w1) !! j = position_filters_ (this w) !! j)
    ∧ (∀ j f p, (j < i)%nat → position_filters_ (this w) !! j = Some f →
                position joint_state !! j = Some p →
                position s !! j = Some (lpf_filter f p).1
                ∧ position_filters_ (this w1) !! j = Some (lpf_filter f p).2))) in E.
  - simpl in E. destruct E as (? & ? & ? & ? & ? & ? & Hafter & Hbefore).
    repeat split; try done.
    + apply Hbefore; [|done|done].
      match goal with Hf : _ !! _ = Some f |- _ => apply lookup_lt_Some in Hf end. lia.
    + apply Hbefore; [|done|done].
      match goal with Hf : _ !! _ = Some f |- _ => apply lookup_lt_Some in Hf end. lia.
    + intros i Hi. by apply Hafter.
  - clear. intros i s w1 s' w2 (? & ? & ? & ? & Hl & Hf & Hafter & Hbefore) Hstep.
    repeat first
      [ match goal with
        | H : (let '(_, _) := lpf_filter ?f ?p in _) _ = Some _ |- _ =>
            destruct (lpf_filter f p) as [filtered f'] eqn:Hfilter
        end
      | jog_inv ].
    jog_simpl.
    match goal with E : position_filters_ (this _) !! i = Some ?f |- _ =>
      rename E into Hfi; rename f into fi end.
    match goal with E : position s !! i = Some ?p |- _ =>
      rename E into Hpi; rename p into pi end.
    destruct (Hafter i) as [Hp0 Hf0]; [lia|].
    pose proof (lookup_lt_Some _ _ _ Hfi).
    repeat split; try done; try by rewrite length_insert.
    + destruct (Hafter j) as [? ?]; [lia|]. by rewrite list_lookup_insert_ne by lia.
    + destruct (Hafter j) as [? ?]; [lia|]. by rewrite list_lookup_insert_ne by lia.
    + destruct (decide (j = i)) as [->|Hne].
      * rewrite list_lookup_insert_eq by lia.
        rewrite Hf0 in Hfi. rewrite Hp0 in Hpi. simplify_eq. by rewrite Hfilter.
      * rewrite list_lookup_insert_ne by done.
        match goal with Hj : (j < Datatypes.S i)%nat |- _ =>
          eapply (Hbefore j); [lia|eassumption|eassumption] end.
    + destruct (decide (j = i)) as [->|Hne].
      * rewrite list_lookup_insert_eq by lia.
        rewrite Hf0 in Hfi. rewrite Hp0 in Hpi. simplify_eq. by rewrite Hfilter.
      * rewrite list_lookup_insert_ne by done.
        match goal with Hj : (j < Datatypes.S i)%nat |- _ =>
          eapply (Hbefore j); [lia|eassumption|eassumption] end.
  - repeat split; try done. all: lia.
Qed.

(** With more filters than positions [lowPassFilterPositions] reads
    [joint_state.position] past its end, and the run is undefined. *)
Theorem lowPassFilterPositions_too_many_filters (joint_state : JointState) (w : World) :
  (length (position joint_state) < length (position_filters_ (this w)))%nat →
  lowPassFilterPositions joint_state w = None.
Proof.
  intros Hlen. unfold lowPassFilterPositions, bind at 1, member, gets.
  apply (for_undefined_at
           (λ s w1, length (position s) = length (position joint_state)
                    ∧ length (position_filters_ (this w1))
                      = length (position_filters_ (this w))) _
           (length (position joint_state))); [lia| | |done].
  - intros i s w1 Hi (Hs & Hf). unfold bind, member, gets, defined, store, ret.
    destruct (lookup_lt_is_Some_2 (position_filters_ (this w1)) i) as [f Hfi]; [lia|].
    destruct (lookup_lt_is_Some_2 (position s) i) as [p Hp]; [lia|].
    rewrite Hfi, Hp. simpl. destruct (lpf_filter f p) as [filtered f'].
    unfold assign, modify. simpl. rewrite decide_True by lia. simpl.
    eexists _, _. split; [reflexivity|]. simpl. by rewrite !length_insert.
  - intros s w1 (Hs & Hf). unfold bind, member, gets, defined.
    destruct (position_filters_ (this w1) !! length (position joint_state)); [|done].
    simpl. by rewrite (lookup_ge_None_2 (position s)) by lia.
Qed.

End Properties.


(** * Runs on the example arm *)

Section Runs.

#[local] Existing Instance Example.eigen.
#[local] Existing Instance Example.model.
#[local] Existing Instance Example.filters.
#[local] Existing Instance Example.clock.

(** Split a conjunction into its parts. *)
Ltac conjuncts := repeat match goal with |- _ ∧ _ => split end.

(** Two binary64 values that compare different are different. *)
Lemma different_doubles (a b : double) : PrimFloat.eqb a b = false → PrimFloat.eqb a a = true → a ≠ b.
Proof. intros Hab Haa Heq. rewrite <- Heq in Hab. congruence. Qed.

(** C1 at the hard stop: at the pose the condition number of the Jacobian is
    32, equal to hard_stop_singularity_threshold, and the commanded velocity
    has a positive dot product with the corrected singular direction; the
    function returns the scale 1, not 0. *)
Theorem velocityScalingFactorForSingularity_at_hard_stop :
  ∃ l w',
    velocityScalingFactorForSingularity_body Example.back_along_last_axis
      Example.svd_at_pose Example.jacobian_at_pose Example.pseudo_inverse_at_pose
      Example.pose = Some (l, w')
    ∧ ini_condition l = hard_stop_singularity_threshold (parameters_ (this Example.pose))
    ∧ gtb (dot l) 0 = true
    ∧ velocity_scale l = 1%float
    ∧ velocityScalingFactorForSingularity Example.back_along_last_axis
        Example.svd_at_pose Example.jacobian_at_pose Example.pseudo_inverse_at_pose
        Example.pose = Some (1%float, w').
Proof.
  eexists _, _. split; [vm_compute; reflexivity|].
  repeat split; vm_compute; reflexivity.
Qed.

(** C3 on the example: the look-ahead condition number is 32, that of the
    Jacobian passed in, although the probe has moved the last joint and the
    Jacobian evaluated at the probe positions has another condition number. *)
Theorem new_condition_ignores_probe_positions :
  ∃ l w',
    velocityScalingFactorForSingularity_body Example.back_along_last_axis
      Example.svd_at_pose Example.jacobian_at_pose Example.pseudo_inverse_at_pose
      Example.pose = Some (l, w')
    ∧ copyJointGroupPositions (kinematic_state_ (this w')) = new_theta l
    ∧ condition_number (JacobiSVD false Example.jacobian_at_pose) = Some (new_condition l)
    ∧ new_condition l = ini_condition l
    ∧ ∃ k1, condition_number (JacobiSVD false (getJacobian (kinematic_state_ (this w'))))
            = Some k1
            ∧ k1 ≠ new_condition l.
Proof.
  eexists _, _. split; [vm_compute; reflexivity|].
  repeat split; try (vm_compute; reflexivity).
  eexists. split; [vm_compute; reflexivity|].
  apply different_doubles; vm_compute; reflexivity.
Qed.

(** C2 fails on the example: the call leaves other joint positions in the
    kinematic state than it found. *)
Lemma velocityScalingFactorForSingularity_moves_joints :
  ∃ s w',
    velocityScalingFactorForSingularity Example.back_along_last_axis
      Example.svd_at_pose Example.jacobian_at_pose Example.pseudo_inverse_at_pose
      Example.pose = Some (s, w')
    ∧ copyJointGroupPositions (kinematic_state_ (this w'))
      ≠ copyJointGroupPositions (kinematic_state_ (this Example.pose)).
Proof.
  eexists _, _. split; [vm_compute; reflexivity|].
  intros Heq. apply (f_equal (λ l : list double, default 0%float (l !! 5%nat))) in Heq.
  revert Heq. apply different_doubles; vm_compute; reflexivity.
Qed.

(** The committed probe on the example. *)
Lemma velocityScalingFactorForSingularity_commits_probe_example :
  ∃ u_last,
    col (rows Example.jacobian_at_pose - 1) (matrixU Example.svd_at_pose) = Some u_last
    ∧ vec_plus (copyJointGroupPositions (kinematic_state_ (this Example.pose)))
               (mat_vec Example.pseudo_inverse_at_pose (divided_by u_last 100%float))
      = Some (copyJointGroupPositions (kinematic_state_ (this
          (Example.after (velocityScalingFactorForSingularity Example.back_along_last_axis
             Example.svd_at_pose Example.jacobian_at_pose Example.pseudo_inverse_at_pose)
             Example.pose)))).
Proof.
  apply (velocityScalingFactorForSingularity_commits_probe
           Example.back_along_last_axis Example.svd_at_pose Example.jacobian_at_pose
           Example.pseudo_inverse_at_pose Example.pose 1%float).
  vm_compute. reflexivity.
Defined.

(** C4 on the example: the Jacobian has six rows and the mask six flags, so
    the first pass of the drift loop reads the flag at index 6, outside the
    mask, and the run is undefined. *)
Theorem removeDriftDimensions_reads_index_6 :
  rows Example.jacobian_at_pose = 6%nat
  ∧ length (drift_dimensions (shared_variables Example.pose)) = 6%nat
  ∧ drift_dimensions (shared_variables Example.pose) !! rows Example.jacobian_at_pose = None
  ∧ removeDriftDimensions Example.jacobian_at_pose
      (speed_units_form Example.parameters Example.along_x) Example.pose = None.
Proof. repeat split; vm_compute; reflexivity. Qed.

(** C5: with the command type "metres", neither "unitless" nor
    "speed_units", [scaleCartesianCommand] logs the error and returns the
    six-entry result vector it never assigned.  Whatever the storage of
    the vector held, the same vector comes back for every command: for a
    command of one unit along x and for the command at rest, whose
    speed_units forms differ, so it is not the speed_units form of both. *)
Theorem scaleCartesianCommand_returns_unassigned (u : list double) (command : TwistStamped) :
  let w := Example.mistyped_holding u in
  let logged :=
    with_rosout (λ l, l ++ [{| severity := Error;
                               message := "Unexpected command_in_type" |}]) w in
  ∃ r,
    scaleCartesianCommand command w = Some (r, logged)
    ∧ scaleCartesianCommand Example.along_x w = Some (r, logged)
    ∧ scaleCartesianCommand Example.zero_twist w = Some (r, logged)
    ∧ speed_units_form Example.mistyped Example.along_x
      = [0.125; 0; 0; 0; 0; 0]%float
    ∧ speed_units_form Example.mistyped Example.zero_twist
      = [0; 0; 0; 0; 0; 0]%float
    ∧ (r ≠ speed_units_form Example.mistyped Example.along_x
       ∨ r ≠ speed_units_form Example.mistyped Example.zero_twist).
Proof.
  intros w logged.
  assert (command_in_type (parameters_ (this w)) ≠ "unitless") as Hunitless
    by (vm_compute; discriminate).
  assert (command_in_type (parameters_ (this w)) ≠ "speed_units") as Hspeed
    by (vm_compute; discriminate).
  exists (resize 6 0%float (uninitialized w)).
  split; [exact (scaleCartesianCommand_unexpected_type command w Hunitless Hspeed)|].
  split; [exact (scaleCartesianCommand_unexpected_type _ w Hunitless Hspeed)|].
  split; [exact (scaleCartesianCommand_unexpected_type _ w Hunitless Hspeed)|].
  split; [vm_compute; reflexivity|]. split; [vm_compute; reflexivity|].
  set (r := resize 6 0%float (uninitialized w)).
  set (first := λ l : list double, default 0%float (l !! 0%nat)).
  destruct (PrimFloat.eqb (first r) 0.125) eqn:Hfirst.
  - right. intros Heq. apply (f_equal first) in Heq. rewrite Heq in Hfirst.
    vm_compute in Hfirst. discriminate.
  - left. intros Heq. apply (f_equal first) in Heq. rewrite Heq in Hfirst.
    vm_compute in Hfirst. discriminate.
Qed.

(** An empty trajectory on the example. *)
Lemma enforceSRDFJointBounds_empty_example :
  enforceSRDFJointBounds Example.empty_trajectory Example.pose
  = Some ((true, Example.empty_trajectory),
          with_rosout (λ l, l ++ [{| severity := Warn;
            message := "Empty trajectory passed into checkIfJointsWithinURDFBounds()." |}])
            Example.pose).
Proof.
  apply (enforceSRDFJointBounds_empty Example.empty_trajectory Example.pose).
  reflexivity.
Defined.

(** Never suppressing halts on the example: an idle pass after five zero
    cycles. *)
Lemma mainLoopIteration_publishes_forever_example :
  ok_to_publish (shared_variables
     (Example.after (mainLoopIteration 5) (Example.started Example.parameters Example.idle)))
  = true
  ∧ outgoing_command (shared_variables
      (Example.after (mainLoopIteration 5) (Example.started Example.parameters Example.idle)))
    = outgoing_command_ (this
        (Example.after (mainLoopIteration 5)
           (Example.started Example.parameters Example.idle))).
Proof.
  apply (mainLoopIteration_publishes_forever 5
           (Example.started Example.parameters Example.idle) eq_refl Completed 6).
  vm_compute. reflexivity.
Defined.

(** A tick of the clock leaves the members alone. *)
Lemma tick_keeps_members w : this (Example.tick w) = this w.
Proof. reflexivity. Qed.

(** Trajectories whose points agree agree on the last joint's position at
    every point. *)
Lemma last_positions_differ i t1 t2 :
  Example.last_position i t1 ≠ Example.last_position i t2 → points t1 ≠ points t2.
Proof.
  unfold Example.last_position. intros Hne Heq. rewrite Heq in Hne. by apply Hne.
Qed.

(** Two halting passes on the example: a stale joint command of 0.5 for the
    last joint, telemetry that reports the six joints, no Gazebo padding.
    Both passes stage the single point that holds the snapshot and zero
    velocities. *)
Lemma consecutive_halts_stage_the_same_point_example :
  let w1 := Example.started Example.parameters
              (Example.stale_jog Example.telemetry 0.5%float) in
  let w1' := Example.first_pass w1 in
  let w2' := Example.second_pass w1 in
  let p := parameters_ (this w1) in
  let n := num_joints_ (this w1) in
  let snapshot := position (original_joint_state_ (this w1')) in
  position (original_joint_state_ (this w2')) = snapshot
  ∧ (publish_joint_positions p = true → positions (halt_point p n snapshot) = snapshot)
  ∧ (publish_joint_velocities p = true →
     velocities (halt_point p n snapshot) = replicate n 0%float)
  ∧ ∃ rest1 rest2,
      points (outgoing_command_ (this w1')) = halt_point p n snapshot :: rest1
      ∧ points (outgoing_command_ (this w2')) = halt_point p n snapshot :: rest2
      ∧ (use_gazebo p = false → rest1 = [] ∧ rest2 = [])
      ∧ (both_zero (shared_variables w1) = true → rest1 = [])
      ∧ (both_zero (shared_variables (Example.tick w1')) = true → rest2 = []).
Proof.
  intros w1 w1' w2'.
  assert (mainLoopIteration 0 w1 = Some ((Completed, 1), w1')) as Hfirst
    by (vm_compute; reflexivity).
  assert (mainLoopIteration 1 (Example.tick w1') = Some ((Completed, 2), w2'))
    as Hsecond by (vm_compute; reflexivity).
  assert (halts (shared_variables w1) = true) as Hhalts1 by (vm_compute; reflexivity).
  assert (halts (shared_variables (Example.tick w1')) = true) as Hhalts2
    by (vm_compute; reflexivity).
  assert (this (Example.tick w1') = this w1') as Hthis by exact (tick_keeps_members w1').
  assert (joints (shared_variables (Example.tick w1')) = joints (shared_variables w1))
    as Htelemetry by (vm_compute; reflexivity).
  assert (sized w1) as Hsized by (split; vm_compute; reflexivity).
  assert (∀ c, (c < num_joints_ (this w1))%nat → reported w1 c) as Hall.
  { intros c Hc. unfold reported, written.
    assert (num_joints_ (this w1) = 6%nat) as Hn by (vm_compute; reflexivity).
    rewrite Hn in Hc.
    destruct c as [|[|[|[|[|[|c]]]]]]; [..|lia].
    - exists 0%nat, "joint_1", 0.5%float. conjuncts; vm_compute; reflexivity.
    - exists 1%nat, "joint_2", 0.25%float. conjuncts; vm_compute; reflexivity.
    - exists 2%nat, "joint_3", 0%float. conjuncts; vm_compute; reflexivity.
    - exists 3%nat, "joint_4", (-0.25)%float. conjuncts; vm_compute; reflexivity.
    - exists 4%nat, "joint_5", (-0.5)%float. conjuncts; vm_compute; reflexivity.
    - exists 5%nat, "joint_6", 0%float. conjuncts; vm_compute; reflexivity. }
  exact (consecutive_halts_stage_the_same_point 0 w1 1 w1' (Example.tick w1') 2 w2'
           Hfirst Hhalts1 Hthis Htelemetry Hsecond Hhalts2 Hsized (or_intror Hall)).
Defined.

(** C6: in Gazebo mode a halt leaves the command in the padding.  Two
    consecutive passes with a stale joint command of 0.5 for the last joint
    and unchanged telemetry both reach the end of the loop body, keep the
    same snapshot and publish their trajectory of 30 points.
    [convertDeltasToOutgoingCmd] has appended the 29 copies before the main
    loop calls [suddenHalt], which writes points[0] only: points[0] holds
    the snapshot and zero velocities, the point of index 1 keeps the
    commanded velocity 0.5 and the commanded position of the last joint, and
    the points of the two passes differ. *)
Theorem halt_after_gazebo_padding_keeps_command :
  let w1 := Example.started Example.in_gazebo
              (Example.stale_jog Example.telemetry 0.5%float) in
  let w1' := Example.first_pass w1 in
  let w2' := Example.second_pass w1 in
  let snapshot := position (original_joint_state_ (this w1')) in
  let staged1 := points (outgoing_command_ (this w1')) in
  let staged2 := points (outgoing_command_ (this w2')) in
  mainLoopIteration 0 w1 = Some ((Completed, 1), w1')
  ∧ mainLoopIteration 1 (Example.tick w1') = Some ((Completed, 2), w2')
  ∧ command_is_stale (shared_variables w1) = true
  ∧ command_is_stale (shared_variables (Example.tick w1')) = true
  ∧ joints (shared_variables (Example.tick w1')) = joints (shared_variables w1)
  ∧ position (original_joint_state_ (this w2')) = snapshot
  ∧ use_gazebo (parameters_ (this w1)) = true
  ∧ publish_joint_positions (parameters_ (this w1)) = true
  ∧ publish_joint_velocities (parameters_ (this w1)) = true
  ∧ outgoing_command (shared_variables w1') = outgoing_command_ (this w1')
  ∧ outgoing_command (shared_variables w2') = outgoing_command_ (this w2')
  ∧ ok_to_publish (shared_variables w1') = true
  ∧ ok_to_publish (shared_variables w2') = true
  ∧ length staged1 = 30%nat
  ∧ length staged2 = 30%nat
  ∧ positions <$> staged1 !! 0%nat = Some snapshot
  ∧ positions <$> staged2 !! 0%nat = Some snapshot
  ∧ velocities <$> staged1 !! 0%nat = Some (replicate 6 0%float)
  ∧ velocities <$> staged2 !! 0%nat = Some (replicate 6 0%float)
  ∧ velocities <$> staged1 !! 1%nat = Some [0; 0; 0; 0; 0; 0.5]%float
  ∧ velocities <$> staged2 !! 1%nat = Some [0; 0; 0; 0; 0; 0.5]%float
  ∧ positions <$> staged1 !! 1%nat ≠ Some snapshot
  ∧ staged1 ≠ staged2.
Proof.
  intros w1 w1' w2' snapshot staged1 staged2.
  conjuncts; [vm_compute; reflexivity ..| |].
  - intros Heq.
    apply (f_equal (λ o : option (list double), default 0%float (o ≫= (.!! 5%nat))))
      in Heq.
    revert Heq. apply different_doubles; vm_compute; reflexivity.
  - apply (last_positions_differ 1), different_doubles; vm_compute; reflexivity.
Qed.

(** In the ramp range on the example: condition number 24 between the
    thresholds 16 and 32, moving toward the singularity; the scale is 0.5. *)
Lemma velocity_scale_in_ramp_range_example :
  let l := Example.value Example.no_locals
             (Example.scaling 24 Example.back_along_last_axis) Example.pose in
  let w' := Example.after (Example.scaling 24 Example.back_along_last_axis) Example.pose in
  ini_condition l = 24%float
  ∧ velocityScalingFactorForSingularity Example.back_along_last_axis
      (JacobiSVD true (Example.stretched 24)) (Example.stretched 24)
      (Example.pseudo_inverse (JacobiSVD true (Example.stretched 24))) Example.pose
    = Some (0.5%float, w').
Proof.
  intros l w'.
  assert (velocityScalingFactorForSingularity_body Example.back_along_last_axis
            (JacobiSVD true (Example.stretched 24)) (Example.stretched 24)
            (Example.pseudo_inverse (JacobiSVD true (Example.stretched 24))) Example.pose
          = Some (l, w')) as Hrun by (vm_compute; reflexivity).
  assert (gtb (dot l) 0 = true) as Hdot by (vm_compute; reflexivity).
  assert (gtb (ini_condition l)
              (lower_singularity_threshold (parameters_ (this Example.pose))) = true)
    as Hlower by (vm_compute; reflexivity).
  assert ((ini_condition l
           <? hard_stop_singularity_threshold (parameters_ (this Example.pose)))%float = true)
    as Hhard by (vm_compute; reflexivity).
  split; [vm_compute; reflexivity|].
  etrans; [exact (velocity_scale_in_ramp_range _ _ _ _ _ _ _ Hrun Hdot Hlower Hhard)|].
  vm_compute; reflexivity.
Defined.

(** Beyond the hard stop on the example: condition number 64 above the
    threshold 32, moving toward the singularity; the scale is 0. *)
Lemma velocity_scale_beyond_hard_stop_example :
  let w' := Example.after (Example.scaling 64 Example.back_along_last_axis) Example.pose in
  velocityScalingFactorForSingularity Example.back_along_last_axis
    (JacobiSVD true (Example.stretched 64)) (Example.stretched 64)
    (Example.pseudo_inverse (JacobiSVD true (Example.stretched 64))) Example.pose
  = Some (0%float, w').
Proof.
  intros w'.
  set (l := Example.value Example.no_locals
              (Example.scaling 64 Example.back_along_last_axis) Example.pose).
  assert (velocityScalingFactorForSingularity_body Example.back_along_last_axis
            (JacobiSVD true (Example.stretched 64)) (Example.stretched 64)
            (Example.pseudo_inverse (JacobiSVD true (Example.stretched 64))) Example.pose
          = Some (l, w')) as Hrun by (vm_compute; reflexivity).
  assert (gtb (dot l) 0 = true) as Hdot by (vm_compute; reflexivity).
  assert (gtb (ini_condition l)
              (hard_stop_singularity_threshold (parameters_ (this Example.pose))) = true)
    as Hhard by (vm_compute; reflexivity).
  exact (velocity_scale_beyond_hard_stop _ _ _ _ _ _ _ Hrun Hdot Hhard).
Defined.

(** Moving away from the singularity on the example: condition number 64,
    yet the scale is 1. *)
Lemma velocity_scale_moving_away_example :
  let w' := Example.after (Example.scaling 64 Example.forth_along_last_axis) Example.pose in
  velocityScalingFactorForSingularity Example.forth_along_last_axis
    (JacobiSVD true (Example.stretched 64)) (Example.stretched 64)
    (Example.pseudo_inverse (JacobiSVD true (Example.stretched 64))) Example.pose
  = Some (1%float, w').
Proof.
  intros w'.
  set (l := Example.value Example.no_locals
              (Example.scaling 64 Example.forth_along_last_axis) Example.pose).
  assert (velocityScalingFactorForSingularity_body Example.forth_along_last_axis
            (JacobiSVD true (Example.stretched 64)) (Example.stretched 64)
            (Example.pseudo_inverse (JacobiSVD true (Example.stretched 64))) Example.pose
          = Some (l, w')) as Hrun by (vm_compute; reflexivity).
  assert (gtb (dot l) 0 = false) as Hdot by (vm_compute; reflexivity).
  exact (velocity_scale_moving_away _ _ _ _ _ _ _ Hrun Hdot).
Defined.

(** The flipped direction and the look-ahead condition on the example. *)
Lemma singular_direction_is_flipped_example :
  let l := Example.value Example.no_locals
             (Example.scaling 24 Example.back_along_last_axis) Example.pose in
  new_condition l = ini_condition l
  ∧ ∃ u_last,
      col (rows (Example.stretched 24) - 1) (matrixU (JacobiSVD true (Example.stretched 24)))
      = Some u_last
      ∧ vector_toward_singularity l = (λ c, c * (-1))%float <$> u_last.
Proof.
  intros l.
  set (w' := Example.after (Example.scaling 24 Example.back_along_last_axis) Example.pose).
  assert (velocityScalingFactorForSingularity_body Example.back_along_last_axis
            (JacobiSVD true (Example.stretched 24)) (Example.stretched 24)
            (Example.pseudo_inverse (JacobiSVD true (Example.stretched 24))) Example.pose
          = Some (l, w')) as Hrun by (vm_compute; reflexivity).
  assert (singularValues (JacobiSVD true (Example.stretched 24))
          = singularValues (JacobiSVD false (Example.stretched 24))) as Hvalues
    by (vm_compute; reflexivity).
  assert (isnan (ini_condition l) = false) as Hnan by (vm_compute; reflexivity).
  exact (singular_direction_is_flipped _ _ _ _ _ _ _ Hrun Hvalues Hnan).
Defined.

(** The look-ahead condition on the example is that of the matrix passed in. *)
Lemma new_condition_of_argument_example :
  let l := Example.value Example.no_locals
             (Example.scaling 24 Example.back_along_last_axis) Example.pose in
  condition_number (JacobiSVD false (Example.stretched 24)) = Some (new_condition l).
Proof.
  intros l.
  set (w' := Example.after (Example.scaling 24 Example.back_along_last_axis) Example.pose).
  assert (velocityScalingFactorForSingularity_body Example.back_along_last_axis
            (JacobiSVD true (Example.stretched 24)) (Example.stretched 24)
            (Example.pseudo_inverse (JacobiSVD true (Example.stretched 24))) Example.pose
          = Some (l, w')) as Hrun by (vm_compute; reflexivity).
  exact (new_condition_of_argument _ _ _ _ _ _ _ Hrun).
Defined.

(** The speed_units form on the example. *)
Lemma scaleCartesianCommand_speed_units_example :
  scaleCartesianCommand Example.along_x Example.pose
  = Some (speed_units_form (parameters_ (this Example.pose)) Example.along_x, Example.pose).
Proof.
  apply (scaleCartesianCommand_speed_units Example.along_x Example.pose).
  vm_compute. reflexivity.
Defined.

(** The unitless form on the example. *)
Lemma scaleCartesianCommand_unitless_example :
  scaleCartesianCommand Example.along_x (Example.at_pose Example.unitless Example.idle)
  = Some (unitless_form (parameters_ (this (Example.at_pose Example.unitless Example.idle)))
            Example.along_x,
          Example.at_pose Example.unitless Example.idle).
Proof.
  apply (scaleCartesianCommand_unitless Example.along_x
           (Example.at_pose Example.unitless Example.idle)).
  vm_compute. reflexivity.
Defined.

(** The drift loop on the example: six flags, six rows. *)
Lemma removeDriftDimensions_reads_at_rows_example :
  removeDriftDimensions Example.jacobian_at_pose
    (speed_units_form Example.parameters Example.along_x) Example.pose = None.
Proof.
  apply (removeDriftDimensions_reads_at_rows Example.jacobian_at_pose
           (speed_units_form Example.parameters Example.along_x) Example.pose).
  vm_compute. lia.
Defined.

(** Telemetry of two joints for the arm of six is turned down. *)
Lemma updateJoints_accepts_by_count_example :
  let w := Example.ready Example.parameters
             (Example.stale_jog Example.telemetry_of_two 0%float) in
  let w' := Example.after updateJoints w in
  (false = false
   ↔ (length (name (joints (shared_variables w))) < num_joints_ (this w))%nat)
  ∧ (false = false
     → w' = with_this (set_incoming_joints_ (joints (shared_variables w))) w).
Proof.
  intros w w'.
  assert (updateJoints w = Some (false, w')) as Hrun by (vm_compute; reflexivity).
  exact (updateJoints_accepts_by_count w false w' Hrun).
Defined.

(** A halt of the thirty points staged in Gazebo mode. *)
Lemma suddenHalt_touches_first_point_only_example :
  let w := Example.halted_in_gazebo in
  let traj := outgoing_command_ (this w) in
  let traj' := Example.value Example.empty_trajectory (suddenHalt traj) w in
  let w' := Example.after (suddenHalt traj) w in
  w' = w
  ∧ jt_header traj' = jt_header traj
  ∧ joint_names traj' = joint_names traj
  ∧ length (points traj') = length (points traj)
  ∧ ∀ i, points traj' !! Datatypes.S i = points traj !! Datatypes.S i.
Proof.
  intros w traj traj' w'.
  assert (suddenHalt traj w = Some (traj', w')) as Hrun by (vm_compute; reflexivity).
  exact (suddenHalt_touches_first_point_only traj traj' w w' Hrun).
Defined.

(** Halting the halted trajectory again. *)
Lemma suddenHalt_idempotent_example :
  let w := Example.halted_in_gazebo in
  let traj := outgoing_command_ (this w) in
  let traj' := Example.value Example.empty_trajectory (suddenHalt traj) w in
  let w' := Example.after (suddenHalt traj) w in
  suddenHalt traj w = Some (traj', w')
  ∧ suddenHalt traj' w' = Some (traj', w').
Proof.
  intros w traj traj' w'.
  assert (suddenHalt traj w = Some (traj', w')) as Hrun by (vm_compute; reflexivity).
  split; [exact Hrun|].
  exact (suddenHalt_idempotent traj traj' w w' Hrun).
Defined.

(** Removing the third row of the Jacobian at the pose. *)
Lemma removeDimension_deletes_row_example :
  removeDimension Example.jacobian_at_pose
    (speed_units_form Example.parameters Example.along_x) 2 Example.pose
  = Some ((delete 2%nat Example.jacobian_at_pose,
           delete 2%nat (speed_units_form Example.parameters Example.along_x)),
          Example.pose).
Proof.
  apply (removeDimension_deletes_row Example.jacobian_at_pose
           (speed_units_form Example.parameters Example.along_x) 2 Example.pose).
  - vm_compute. lia.
  - vm_compute. reflexivity.
Defined.

(** Two increments for six positions. *)
Lemma addJointIncrements_adds_example :
  ∃ output',
    addJointIncrements Example.telemetry [0.125; 0.25]%float Example.pose
    = Some ((true, output'), Example.pose)
    ∧ name output' = name Example.telemetry
    ∧ velocity output' = velocity Example.telemetry
    ∧ effort output' = effort Example.telemetry
    ∧ length (position output') = length (position Example.telemetry)
    ∧ ∀ i p, position Example.telemetry !! i = Some p →
        position output' !! i
        = Some (match [0.125; 0.25]%float !! i with
                | Some d => (p + d)%float
                | None => p
                end).
Proof.
  apply (addJointIncrements_adds Example.telemetry [0.125; 0.25]%float Example.pose).
  vm_compute. lia.
Defined.

(** Six increments for two positions. *)
Lemma addJointIncrements_too_many_increments_example :
  addJointIncrements Example.telemetry_of_two (replicate 6 0.125%float) Example.pose = None.
Proof.
  apply (addJointIncrements_too_many_increments Example.telemetry_of_two
           (replicate 6 0.125%float) Example.pose).
  vm_compute. lia.
Defined.

(** The bounds check of the halted trajectory when the first and the last
    joint move at 200, twice the bound: both are limited to 100 in the
    kinematic state, the velocity of the first joint is written to the
    trajectory, and that of the last joint is not. *)
Lemma enforceSRDFJointBounds_limits_velocities_only_example :
  let w := Example.racing in
  let traj := outgoing_command_ (this w) in
  let r := Example.value (true, Example.empty_trajectory) (enforceSRDFJointBounds traj) w in
  let w' := Example.after (enforceSRDFJointBounds traj) w in
  enforceSRDFJointBounds traj w = Some (r, w')
  ∧ rs_velocity (kinematic_state_ (this w)) = [200; 0; 0; 0; 0; 200]%float
  ∧ rs_velocity (kinematic_state_ (this w')) = [100; 0; 0; 0; 0; 100]%float
  ∧ velocities <$> points traj = [[0; 0; 0; 0; 0; 0]%float]
  ∧ velocities <$> points r.2 = [[100; 0; 0; 0; 0; 0]%float]
  ∧ limited traj r.2.
Proof.
  intros w traj r w'.
  assert (enforceSRDFJointBounds traj w = Some ((r.1, r.2), w')) as Hrun
    by (vm_compute; reflexivity).
  conjuncts; [vm_compute; reflexivity ..|].
  exact (enforceSRDFJointBounds_limits_velocities_only traj r.1 r.2 w w' Hrun).
Defined.

(** The arm at the pose is within its bounds. *)
Lemma enforceSRDFJointBounds_within_bounds_example :
  let w := Example.halted in
  let traj := outgoing_command_ (this w) in
  let r := Example.value (false, Example.empty_trajectory) (enforceSRDFJointBounds traj) w in
  let w' := Example.after (enforceSRDFJointBounds traj) w in
  r.1 = true ∧ r.2 = traj ∧ this w' = this w ∧ shared_variables w' = shared_variables w.
Proof.
  intros w traj r w'.
  assert (forallb (λ joint,
            satisfiesVelocityBounds (kinematic_state_ (this w)) joint
            && satisfiesPositionBounds (kinematic_state_ (this w)) joint
                 (- joint_limit_margin (parameters_ (this w)))%float) getJointModels = true)
    as Hbounds by (vm_compute; reflexivity).
  assert (enforceSRDFJointBounds traj w = Some ((r.1, r.2), w')) as Hrun
    by (vm_compute; reflexivity).
  exact (enforceSRDFJointBounds_within_bounds traj r.1 r.2 w w' Hbounds Hrun).
Defined.

(** Two deltas for six velocities. *)
Lemma calculateJointVelocities_divides_example :
  let joint_state := joint_state_ (this Example.pose) in
  ∃ joint_state',
    calculateJointVelocities joint_state [0.125; 0.25]%float Example.pose
    = Some (joint_state', Example.pose)
    ∧ name joint_state' = name joint_state
    ∧ position joint_state' = position joint_state
    ∧ effort joint_state' = effort joint_state
    ∧ length (velocity joint_state') = length (velocity joint_state)
    ∧ ∀ i v, velocity joint_state !! i = Some v →
        velocity joint_state' !! i
        = Some (match [0.125; 0.25]%float !! i with
                | Some d => (d / publish_period (parameters_ (this Example.pose)))%float
                | None => v
                end).
Proof.
  intros joint_state.
  apply (calculateJointVelocities_divides joint_state [0.125; 0.25]%float Example.pose).
  vm_compute. lia.
Defined.

(** A joint command under the command type "metres". *)
Lemma scaleJointCommand_unexpected_type_example :
  let w := Example.at_pose Example.mistyped Example.idle in
  let result := Example.value [] (scaleJointCommand (Example.jog_joint_6 0.5)) w in
  let w' := Example.after (scaleJointCommand (Example.jog_joint_6 0.5)) w in
  result = replicate (num_joints_ (this w)) 0%float
  ∧ this w' = this w ∧ shared_variables w' = shared_variables w.
Proof.
  intros w result w'.
  assert (command_in_type (parameters_ (this w)) ≠ "unitless") as Hunitless
    by (vm_compute; discriminate).
  assert (command_in_type (parameters_ (this w)) ≠ "speed_units") as Hspeed
    by (vm_compute; discriminate).
  assert (scaleJointCommand (Example.jog_joint_6 0.5) w = Some (result, w')) as Hrun
    by (vm_compute; reflexivity).
  exact (scaleJointCommand_unexpected_type _ w result w' Hunitless Hspeed Hrun).
Defined.

(** Two updates from the same telemetry. *)
Lemma updateJoints_repeated_example :
  let w := Example.ready Example.parameters Example.idle in
  let w1 := Example.after updateJoints w in
  let w2 := Example.after updateJoints w1 in
  joint_state_ (this w2) = joint_state_ (this w1)
  ∧ original_joint_state_ (this w2) = original_joint_state_ (this w1).
Proof.
  intros w w1 w2.
  assert (updateJoints w = Some (true, w1)) as Hfirst by (vm_compute; reflexivity).
  assert (updateJoints w1 = Some (true, w2)) as Hsecond by (vm_compute; reflexivity).
  exact (updateJoints_repeated w w1 w2 Hfirst Hsecond).
Defined.

(** The warning of a calculation on the idle arm. *)
Lemma convertDeltasToOutgoingCmd_publishes_one_warning_example :
  let w := Example.started Example.parameters Example.idle in
  let w' := Example.after convertDeltasToOutgoingCmd w in
  true = true
  ∧ has_warning_ (this w') = false
  ∧ ∃ active, warning_pub_ w' = warning_pub_ w ++ [active]
              ∧ (has_warning_ (this w) = true → active = true).
Proof.
  intros w w'.
  assert (convertDeltasToOutgoingCmd w = Some (true, w')) as Hrun
    by (vm_compute; reflexivity).
  exact (convertDeltasToOutgoingCmd_publishes_one_warning true w w' Hrun).
Defined.

(** A pass of the paused loop. *)
Lemma mainLoopIteration_paused_example :
  let w := Example.after haltOutgoingJogCmds
             (Example.started Example.parameters Example.idle) in
  let w' := Example.after (mainLoopIteration 3) w in
  (Paused = WaitingForJoints ∨ Paused = Paused)
  ∧ 3 = 3
  ∧ halt_outgoing_jog_cmds_ (this w') = true
  ∧ outgoing_command_ (this w') = outgoing_command_ (this w)
  ∧ ok_to_publish (shared_variables w') = ok_to_publish (shared_variables w)
  ∧ outgoing_command (shared_variables w') = outgoing_command (shared_variables w).
Proof.
  intros w w'.
  assert (mainLoopIteration 3 w = Some ((Paused, 3), w')) as Hrun
    by (vm_compute; reflexivity).
  assert (halt_outgoing_jog_cmds_ (this w) = true) as Hpaused by (vm_compute; reflexivity).
  exact (mainLoopIteration_paused 3 w Paused 3 w' Hrun Hpaused).
Defined.

(** A pass with a NaN joint command. *)
Lemma mainLoopIteration_skips_invalid_joint_command_example :
  let w := Example.started Example.parameters (Example.stale_jog Example.telemetry nan) in
  let w' := Example.after (mainLoopIteration 0) w in
  (Skipped = WaitingForJoints ∨ Skipped = Skipped)
  ∧ 0 = 0
  ∧ outgoing_command_ (this w') = outgoing_command_ (this w)
  ∧ ok_to_publish (shared_variables w') = ok_to_publish (shared_variables w)
  ∧ outgoing_command (shared_variables w') = outgoing_command (shared_variables w).
Proof.
  intros w w'.
  assert (mainLoopIteration 0 w = Some ((Skipped, 0), w')) as Hrun
    by (vm_compute; reflexivity).
  assert (halt_outgoing_jog_cmds_ (this w) = false) as Hpaused by (vm_compute; reflexivity).
  assert (zero_cartesian_cmd_flag (shared_variables w) = true) as Hcartesian
    by (vm_compute; reflexivity).
  assert (zero_joint_cmd_flag (shared_variables w) = false) as Hjoint
    by (vm_compute; reflexivity).
  assert (existsb (λ velocity, isnan velocity || gtb (fabs velocity) 1)
            (jj_velocities (joint_command_deltas (shared_variables w))) = true) as Hinvalid
    by (vm_compute; reflexivity).
  exact (mainLoopIteration_skips_invalid_joint_command 0 w Skipped 0 w'
           Hrun Hpaused Hcartesian Hjoint Hinvalid).
Defined.

(** The count after a first halting pass. *)
Lemma mainLoopIteration_counts_zero_cycles_example :
  let w := Example.started Example.parameters
             (Example.stale_jog Example.telemetry 0.5%float) in
  1 = match Completed with
      | Completed =>
          if halts (shared_variables w)
          then if 0 <? INT_MAX then 0 + 1 else 0
          else 0
      | _ => 0
      end.
Proof.
  intros w.
  assert (mainLoopIteration 0 w
          = Some ((Completed, 1), Example.after (mainLoopIteration 0) w)) as Hrun
    by (vm_compute; reflexivity).
  exact (mainLoopIteration_counts_zero_cycles 0 w Completed 1 _ Hrun).
Defined.

(** The sixth zero cycle with four halt messages to publish is not
    published. *)
Lemma mainLoopIteration_publish_policy_example :
  let w := Example.started Example.four_halts Example.idle in
  let w' := Example.after (mainLoopIteration 5) w in
  ok_to_publish (shared_variables w') = false
  ∧ outgoing_command (shared_variables w') = outgoing_command (shared_variables w).
Proof.
  intros w w'.
  assert (mainLoopIteration 5 w = Some ((Completed, 6), w')) as Hrun
    by (vm_compute; reflexivity).
  assert (halts (shared_variables w)
          && negb (num_outgoing_halt_msgs_to_publish (parameters_ (this w)) =? 0)
          && (num_outgoing_halt_msgs_to_publish (parameters_ (this w)) <? 5) = true)
    as Hsuppressed by (vm_compute; reflexivity).
  pose proof (mainLoopIteration_publish_policy 5 w 6 w' Hrun) as Hpolicy.
  rewrite Hsuppressed in Hpolicy. exact Hpolicy.
Defined.

(** A pass with a NaN Cartesian command. *)
Lemma mainLoopIteration_skips_invalid_cartesian_command_example :
  let w := Example.started Example.parameters Example.nan_twist in
  let w' := Example.after (mainLoopIteration 0) w in
  (Skipped = WaitingForJoints ∨ Skipped = Skipped)
  ∧ 0 = 0
  ∧ outgoing_command_ (this w') = outgoing_command_ (this w)
  ∧ ok_to_publish (shared_variables w') = ok_to_publish (shared_variables w)
  ∧ outgoing_command (shared_variables w') = outgoing_command (shared_variables w).
Proof.
  intros w w'.
  assert (mainLoopIteration 0 w = Some ((Skipped, 0), w')) as Hrun
    by (vm_compute; reflexivity).
  assert (halt_outgoing_jog_cmds_ (this w) = false) as Hpaused by (vm_compute; reflexivity).
  assert (zero_cartesian_cmd_flag (shared_variables w) = false) as Hcartesian
    by (vm_compute; reflexivity).
  assert (any_of isnan (twist (command_deltas (shared_variables w))) = true) as Hinvalid
    by (vm_compute; reflexivity).
  exact (mainLoopIteration_skips_invalid_cartesian_command 0 w Skipped 0 w'
           Hrun Hpaused Hcartesian Hinvalid).
Defined.

(** The sizes after a halting pass. *)
Lemma mainLoopIteration_keeps_sizes_example :
  let w := Example.started Example.parameters
             (Example.stale_jog Example.telemetry 0.5%float) in
  let w' := Example.after (mainLoopIteration 0) w in
  sized w'
  ∧ num_joints_ (this w') = num_joints_ (this w)
  ∧ parameters_ (this w') = parameters_ (this w)
  ∧ joint_state_name_map_ (this w') = joint_state_name_map_ (this w).
Proof.
  intros w w'.
  assert (mainLoopIteration 0 w = Some ((Completed, 1), w')) as Hrun
    by (vm_compute; reflexivity).
  assert (sized w) as Hsized by (split; vm_compute; reflexivity).
  exact (mainLoopIteration_keeps_sizes 0 w Completed 1 w' Hrun Hsized).
Defined.

(** Filtering the six positions at the pose. *)
Lemma lowPassFilterPositions_filters_each_example :
  let joint_state := joint_state_ (this Example.pose) in
  let w := Example.pose in
  ∃ joint_state' w',
    lowPassFilterPositions joint_state w = Some (joint_state', w')
    ∧ name joint_state' = name joint_state
    ∧ velocity joint_state' = velocity joint_state
    ∧ effort joint_state' = effort joint_state
    ∧ length (position joint_state') = length (position joint_state)
    ∧ length (position_filters_ (this w')) = length (position_filters_ (this w))
    ∧ shared_variables w' = shared_variables w
    ∧ (∀ i f p, position_filters_ (this w) !! i = Some f →
                position joint_state !! i = Some p →
                position joint_state' !! i = Some (lpf_filter f p).1
                ∧ position_filters_ (this w') !! i = Some (lpf_filter f p).2)
    ∧ (∀ i, (length (position_filters_ (this w)) ≤ i)%nat →
            position joint_state' !! i = position joint_state !! i).
Proof.
  intros joint_state w.
  apply (lowPassFilterPositions_filters_each joint_state w).
  vm_compute. lia.
Defined.

(** Six filters for two positions. *)
Lemma lowPassFilterPositions_too_many_filters_example :
  lowPassFilterPositions Example.telemetry_of_two Example.pose = None.
Proof.
  apply (lowPassFilterPositions_too_many_filters Example.telemetry_of_two Example.pose).
  vm_compute. lia.
Defined.

End Runs.
